(** * The Simpsons message consumer: counts per season and author

    A shallow embedding of [consumers/project_consumer_valenti.py]: the
    table [season_counts], the renderer [update_chart], the message handler
    [process_message] and the consumption loop [main], with the properties
    the specification states about them.

    Python values are the ones [json.loads] can return.  The globals of the
    module (the table, the matplotlib axes, the logger's output, the Kafka
    consumer's connection) are the fields of one [world], threaded through
    a state-and-exception monad.  What lies outside the module is kept
    abstract: [json.loads] and [os.getenv] are parameters, a call of the
    plotting library or of the logger is recorded and returns, and the
    consumer is the list of what its successive pulls give.  An interrupt
    is an exception of a pull; none arrives in the middle of a statement. *)

From Stdlib Require Import ZArith List String Ascii Bool Lia Permutation Sorted.
From Stdlib Require Import Floats.SpecFloat.
From Stdlib Require Import DecimalString.
Import ListNotations.

Set Warnings "-register-all".
Local Open Scope string_scope.
Local Open Scope list_scope.
Local Open Scope Z_scope.

(** ** Python values and exceptions *)

(** The values [json.loads] produces.  A [dict] is the list of its items in
    insertion order; JSON object keys are always strings. *)
Inductive pyval : Type :=
| PNone
| PBool (b : bool)
| PInt (n : Z)
| PFloat (x : spec_float)
| PStr (s : string)
| PList (xs : list pyval)
| PDict (items : list (string * pyval)).

(** The exception classes that occur.  [JSONDecodeError] is a subclass of
    [ValueError]; every class below derives from [Exception] except
    [KeyboardInterrupt] and [OtherBaseException]. *)
Inductive exn : Type :=
| JSONDecodeError
| ValueError
| TypeError
| OverflowError
| ZeroDivisionError
| IndexError
| KeyError
| KeyboardInterrupt
| OtherException (name : string)
| OtherBaseException (name : string).

(** [isinstance(e, Exception)] *)
Definition is_Exception (e : exn) : bool :=
  match e with
  | KeyboardInterrupt | OtherBaseException _ => false
  | _ => true
  end.

Inductive outcome (A : Type) : Type :=
| Ret (a : A)
| Raise (e : exn).
Arguments Ret {A} a.
Arguments Raise {A} e.

(** ** Dictionary keys

    Two keys name the same entry of a [dict] when they are equal in
    Python's sense: [True == 1 == 1.0], and the comparison of an [int] with
    a [float] is exact.  [canon] maps a hashable value to a representative
    of its equality class and an unhashable one ([list], [dict]) to
    [None]. *)
Inductive ckey : Type :=
| KNone
| KStr (s : string)
| KNum (m e : Z)      (* the number m * 2^e, m odd, or m = e = 0 *)
| KInf (neg : bool)
| KNaN.               (* json's NaN constant is one object *)

Fixpoint strip2 (p : positive) (e : Z) : positive * Z :=
  match p with
  | xO q => strip2 q (e + 1)
  | _ => (p, e)
  end.

Definition dyadic (m e : Z) : ckey :=
  match m with
  | Z0 => KNum 0 0
  | Zpos p => let (q, e') := strip2 p e in KNum (Zpos q) e'
  | Zneg p => let (q, e') := strip2 p e in KNum (Zneg q) e'
  end.

Definition canon (v : pyval) : option ckey :=
  match v with
  | PNone => Some KNone
  | PBool b => Some (dyadic (if b then 1 else 0) 0)
  | PInt n => Some (dyadic n 0)
  | PFloat (S754_zero _) => Some (KNum 0 0)
  | PFloat (S754_infinity s) => Some (KInf s)
  | PFloat S754_nan => Some KNaN
  | PFloat (S754_finite s m e) => Some (dyadic (if s then Zneg m else Zpos m) e)
  | PStr s => Some (KStr s)
  | PList _ | PDict _ => None
  end.

Definition ckey_eq_dec (a b : ckey) : {a = b} + {a <> b}.
Proof.
  decide equality; solve [apply string_dec | apply Z.eq_dec | apply bool_dec].
Defined.

Definition hashable (v : pyval) : bool :=
  match canon v with Some _ => true | None => false end.

(** [k1 == k2] as a dictionary compares two keys. *)
Definition key_eqb (k1 k2 : pyval) : bool :=
  match canon k1, canon k2 with
  | Some a, Some b => if ckey_eq_dec a b then true else false
  | _, _ => false
  end.

(** ** The builtin [int]

    [int(s)] for a string strips white space, takes an optional sign and
    reads decimal digits, single underscores allowed between digits; more
    digits than [sys.get_int_max_str_digits()] are refused.  Text is ASCII
    here: other characters are rejected (CPython also takes the decimal
    digits and spaces of other scripts). *)
Definition is_space (c : ascii) : bool :=
  let n := N_of_ascii c in
  (((9 <=? n) && (n <=? 13)) || (n =? 32))%N.

Definition digit_of (c : ascii) : option Z :=
  let n := N_of_ascii c in
  if ((48 <=? n) && (n <=? 57))%N then Some (Z.of_N n - 48) else None.

Fixpoint lstrip (s : string) : string :=
  match s with
  | String c s' => if is_space c then lstrip s' else s
  | EmptyString => s
  end.

Fixpoint rstrip (s : string) : string :=
  match s with
  | EmptyString => EmptyString
  | String c s' =>
      match rstrip s' with
      | EmptyString => if is_space c then EmptyString else String c EmptyString
      | r => String c r
      end
  end.

Definition strip (s : string) : string := rstrip (lstrip s).

(** The default of [sys.get_int_max_str_digits()]. *)
Definition int_max_str_digits : nat := 4300.

(** The digits after the sign: the value read and the number of digits.
    [after_digit] tells whether the previous character was a digit, which
    an underscore and the end both require. *)
Fixpoint int_digits (s : string) (acc : Z) (digits : nat) (after_digit : bool)
  : option (Z * nat) :=
  match s with
  | EmptyString => if after_digit then Some (acc, digits) else None
  | String c s' =>
      match digit_of c with
      | Some d => int_digits s' (10 * acc + d) (S digits) true
      | None =>
          if (Ascii.eqb c "_" && after_digit)%bool
          then int_digits s' acc digits false
          else None
      end
  end.

Definition int_magnitude (s : string) : option Z :=
  match int_digits s 0 0 false with
  | Some (n, digits) => if (digits <=? int_max_str_digits)%nat then Some n else None
  | None => None
  end.

Definition int_of_str (s : string) : option Z :=
  match strip s with
  | String "-" s' => option_map Z.opp (int_magnitude s')
  | String "+" s' => int_magnitude s'
  | s' => int_magnitude s'
  end.

(** [int(v)]: truncation towards zero for a float. *)
Definition py_int (v : pyval) : outcome Z :=
  match v with
  | PBool b => Ret (if b then 1 else 0)
  | PInt n => Ret n
  | PFloat (S754_zero _) => Ret 0
  | PFloat (S754_infinity _) => Raise OverflowError
  | PFloat S754_nan => Raise ValueError
  | PFloat (S754_finite s m e) =>
      let a := match e with
               | Zneg p => Z.shiftr (Zpos m) (Zpos p)
               | _ => Z.shiftl (Zpos m) e
               end in
      Ret (if s then - a else a)
  | PStr s => match int_of_str s with Some n => Ret n | None => Raise ValueError end
  | PNone | PList _ | PDict _ => Raise TypeError
  end.

(** The values on which [py_int] is [int]: all but the strings that hold a
    character outside ASCII, which [py_int] rejects and [int] may read. *)
Fixpoint ascii_text (s : string) : bool :=
  match s with
  | EmptyString => true
  | String c s' => (N_of_ascii c <? 128)%N && ascii_text s'
  end.

Definition ascii_key (k : pyval) : bool :=
  match k with
  | PStr s => ascii_text s
  | _ => true
  end.

(** ** Floating point: binary64

    Python's [float] is IEEE 754 binary64, round to nearest even;
    [SpecFloat] gives the operations with [prec = 53] and [emax = 1024]. *)
Definition fmul : spec_float -> spec_float -> spec_float := SFmul 53 1024.
Definition fadd : spec_float -> spec_float -> spec_float := SFadd 53 1024.

(** [float(n)] for an [int]: correctly rounded, [OverflowError] beyond the
    range. *)
Definition float_of_int (n : Z) : outcome spec_float :=
  match binary_normalize 53 1024 n 0 false with
  | S754_infinity _ => Raise OverflowError
  | x => Ret x
  end.

(** [a / b] on two [int]s: the exact quotient, correctly rounded. *)
Definition int_truediv (a b : Z) : outcome spec_float :=
  match b, a with
  | Z0, _ => Raise ZeroDivisionError
  | _, Z0 => Ret (S754_zero (b <? 0))
  | _, _ =>
      match SFdiv 53 1024 (S754_finite (a <? 0) (Z.to_pos (Z.abs a)) 0)
                          (S754_finite (b <? 0) (Z.to_pos (Z.abs b)) 0) with
      | S754_infinity _ => Raise OverflowError
      | q => Ret q
      end
  end.

(** [q * 100] with [q] a float: the [int] is converted first. *)
Definition float_times_int (q : spec_float) (n : Z) : outcome spec_float :=
  match float_of_int n with
  | Ret x => Ret (fmul q x)
  | Raise e => Raise e
  end.

(** [n + x] with [n] an [int] and [x] a float. *)
Definition int_plus_float (n : Z) (x : spec_float) : outcome spec_float :=
  match float_of_int n with
  | Ret y => Ret (fadd y x)
  | Raise e => Raise e
  end.

(** [n / d] rounded to the nearest integer, ties to even ([0 <= n], [0 < d]). *)
Definition div_half_even (n d : Z) : Z :=
  let q := n / d in
  match 2 * (n mod d) ?= d with
  | Lt => q
  | Gt => q + 1
  | Eq => if Z.even q then q else q + 1
  end.

(** The magnitude [m * 2^e] in tenths, rounded half to even on its exact
    value, as the [.1f] conversion does. *)
Definition tenths (m : positive) (e : Z) : Z :=
  match e with
  | Zneg p => div_half_even (10 * Zpos m) (2 ^ Zpos p)
  | _ => 10 * Zpos m * 2 ^ e
  end.

Definition decimal (n : Z) : string :=
  NilZero.string_of_uint (N.to_uint (Z.to_N n)).

Definition sign_str (s : bool) : string := if s then "-" else "".

(** [f"{x:.1f}"] *)
Definition format_1f (x : spec_float) : string :=
  match x with
  | S754_nan => "nan"
  | S754_infinity s => (sign_str s ++ "inf")%string
  | S754_zero s => (sign_str s ++ "0.0")%string
  | S754_finite s m e =>
      let t := tenths m e in
      (sign_str s ++ decimal (t / 10) ++ "." ++ decimal (t mod 10))%string
  end.

(** ** Dictionaries

    A [dict] keeps its items in insertion order; a lookup finds the item
    whose key equals the given one, and a store replaces the value of that
    item in place (the stored key object stays) or appends a new item. *)
Fixpoint dict_find {V : Type} (k : pyval) (d : list (pyval * V)) : option V :=
  match d with
  | [] => None
  | (k0, v) :: d' => if key_eqb k0 k then Some v else dict_find k d'
  end.

Fixpoint dict_set {V : Type} (k : pyval) (v : V) (d : list (pyval * V))
  : list (pyval * V) :=
  match d with
  | [] => [(k, v)]
  | (k0, v0) :: d' =>
      if key_eqb k0 k then (k0, v) :: d' else (k0, v0) :: dict_set k v d'
  end.

(** The item of a JSON object's [dict] under a key, and
    [d.get(key, default)]. *)
Fixpoint json_find (key : string) (items : list (string * pyval)) : option pyval :=
  match items with
  | [] => None
  | (k, v) :: items' => if String.eqb k key then Some v else json_find key items'
  end.

Definition json_get (key : string) (default : pyval) (items : list (string * pyval))
  : pyval :=
  match json_find key items with
  | Some v => v
  | None => default
  end.

(** ** The globals of the module *)

(** [defaultdict(int)]: the counts of one season, by author. *)
Definition counts : Type := list (pyval * Z).

(** [defaultdict(lambda: defaultdict(int))] *)
Definition table : Type := list (pyval * counts).

(** The calls made on the matplotlib axes [ax] and on [plt]. *)
Inductive plot_call : Type :=
| AxClear
| AxBar (x : list pyval) (height bottom : list Z) (color label : string)
| AxText (x : pyval) (y : spec_float) (s : string) (color : string)
| AxSetXlabel (s : string)
| AxSetYlabel (s : string)
| AxSetTitle (s : string)
| AxSetXticks (ticks : list pyval)
| AxSetXticklabels (labels : list pyval) (rotation : Z) (ha : string)
| AxLegend
| PltTightLayout
| PltDraw
| PltPause.            (* plt.pause(0.01) *)

Inductive level : Type := DEBUG | INFO | WARNING | ERROR.

(** One constructor per [logger] call of the module. *)
Inductive log_text : Type :=
| KafkaTopic (topic : string)
| KafkaGroupId (group_id : string)
| RawMessage (message : string)
| ProcessedJSON (message_dict : pyval)
| MessageReceived (author season : pyval)
| UpdatedSeasonCounts (t : table)
| ChartUpdated (message : string)
| ExpectedDict (got : pyval)
| InvalidJSON (message : string)
| ErrorProcessing (e : exn)
| StartConsumer
| ConsumerTopicGroup (topic group_id : string)
| PollingMessages (topic : string)
| ReceivedAt (offset : Z) (message : string)
| Interrupted
| ErrorConsuming (e : exn)
| ConsumerClosed (topic : string)
| EndConsumer (topic group_id : string).

Record world : Type := mkWorld {
  season_counts : table;
  chart : list plot_call;            (* calls on [ax] and [plt], oldest first *)
  logged : list (level * log_text);  (* records given to [logger], oldest first *)
  closed : nat                       (* calls of [consumer.close()] *)
}.

Definition initial : world := mkWorld [] [] [] 0.

(** ** State and exceptions *)

Definition M (A : Type) : Type := world -> outcome A * world.

Definition ret {A : Type} (a : A) : M A := fun w => (Ret a, w).

Definition raise {A : Type} (e : exn) : M A := fun w => (Raise e, w).

Definition bind {A B : Type} (m : M A) (k : A -> M B) : M B :=
  fun w => match m w with
           | (Ret a, w') => k a w'
           | (Raise e, w') => (Raise e, w')
           end.

Notation "x <- m ;; k" := (bind m (fun x => k))
  (at level 61, m at next level, right associativity).
Notation "m ;; k" := (bind m (fun _ => k))
  (at level 61, right associativity).

(** [try: body  except ...: handler]; the handler re-raises what no clause
    catches. *)
Definition try_except {A : Type} (body : M A) (handler : exn -> M A) : M A :=
  fun w => match body w with
           | (Ret a, w') => (Ret a, w')
           | (Raise e, w') => handler e w'
           end.

(** [try: body  finally: final] *)
Definition try_finally {A : Type} (body : M A) (final : M unit) : M A :=
  fun w => match body w with
           | (r, w') => match final w' with
                        | (Ret _, w'') => (r, w'')
                        | (Raise e, w'') => (Raise e, w'')
                        end
           end.

Definition lift {A : Type} (r : outcome A) : M A := fun w => (r, w).

Definition get_counts : M table := fun w => (Ret (season_counts w), w).

Definition put_counts (t : table) : M unit :=
  fun w => (Ret tt, mkWorld t (chart w) (logged w) (closed w)).

(** A call on [ax] or [plt] that returns, a call of [logger], and
    [consumer.close()].  (A call that the plotting library may refuse is
    [issue], below.) *)
Definition plot (c : plot_call) : M unit :=
  fun w => (Ret tt, mkWorld (season_counts w) (chart w ++ [c]) (logged w) (closed w)).

Definition logger (l : level) (t : log_text) : M unit :=
  fun w => (Ret tt, mkWorld (season_counts w) (chart w) (logged w ++ [(l, t)]) (closed w)).

Definition consumer_close : M unit :=
  fun w => (Ret tt, mkWorld (season_counts w) (chart w) (logged w) (S (closed w))).

(** [[f x for x in l]], the element expression having effects. *)
Fixpoint list_comp {A B : Type} (f : A -> M B) (l : list A) : M (list B) :=
  match l with
  | x :: rest =>
      head <- f x ;;
      tail <- list_comp f rest ;;
      ret (head :: tail)
  | [] => ret []
  end.

(** A [for] loop that rebinds one local variable. *)
Fixpoint foldM {A S : Type} (body : S -> A -> M S) (l : list A) (s : S) : M S :=
  match l with
  | [] => ret s
  | x :: l' => s' <- body s x ;; foldM body l' s'
  end.

Fixpoint for_each {A : Type} (l : list A) (body : A -> M unit) : M unit :=
  match l with
  | [] => ret tt
  | x :: l' => body x ;; for_each l' body
  end.

(** [l[i]] *)
Definition index {A : Type} (l : list A) (i : nat) : M A :=
  match nth_error l i with
  | Some x => ret x
  | None => raise IndexError
  end.

Fixpoint enumerate_from {A : Type} (i : nat) (l : list A) : list (nat * A) :=
  match l with
  | [] => []
  | x :: l' => (i, x) :: enumerate_from (S i) l'
  end.

Definition enumerate {A : Type} (l : list A) : list (nat * A) := enumerate_from 0 l.

(** ** [sorted(keys, key=int)]

    The keys are computed first, in order, and the first failure is the
    exception raised; the sort is stable. *)
Fixpoint int_keys (l : list pyval) : outcome (list (Z * pyval)) :=
  match l with
  | [] => Ret []
  | k :: l' =>
      match py_int k with
      | Raise e => Raise e
      | Ret n =>
          match int_keys l' with
          | Ret r => Ret ((n, k) :: r)
          | Raise e => Raise e
          end
      end
  end.

Fixpoint insert_keyed (x : Z * pyval) (l : list (Z * pyval)) : list (Z * pyval) :=
  match l with
  | [] => [x]
  | y :: l' => if fst x <=? fst y then x :: l else y :: insert_keyed x l'
  end.

Definition sort_keyed (l : list (Z * pyval)) : list (Z * pyval) :=
  fold_right insert_keyed [] l.

Definition sorted_by_int (l : list pyval) : outcome (list pyval) :=
  match int_keys l with
  | Ret kl => Ret (map snd (sort_keyed kl))
  | Raise e => Raise e
  end.

(** ** The table *)

(** [season_counts[season]]: a missing season is created, empty, at the end. *)
Definition season_counts_getitem (season : pyval) : M counts :=
  if hashable season then
    t <- get_counts ;;
    match dict_find season t with
    | Some inner => ret inner
    | None => put_counts (t ++ [(season, [])]) ;; ret []
    end
  else raise TypeError.

(** [inner.get(author, 0)] *)
Definition counts_get (author : pyval) (inner : counts) : Z :=
  match dict_find author inner with
  | Some n => n
  | None => 0
  end.

(** [season_counts[season][author] += 1].  The inner dictionary is fetched
    (and created when missing) before the author is hashed; the store goes
    to that same dictionary, which the table holds under [season]. *)
Definition increment (season author : pyval) : M unit :=
  inner <- season_counts_getitem season ;;
  if hashable author then
    t <- get_counts ;;
    put_counts (dict_set season (dict_set author (counts_get author inner + 1) inner) t)
  else raise TypeError.

(** [sum(inner.values())] *)
Definition sum_values (inner : counts) : Z := fold_left Z.add (map snd inner) 0.

(** [d[k]] on a plain [dict]. *)
Definition dict_getitem {V : Type} (d : list (pyval * V)) (k : pyval) : M V :=
  if hashable k then
    match dict_find k d with
    | Some v => ret v
    | None => raise KeyError
    end
  else raise TypeError.

(** ** [update_chart] *)

Definition author_colors : list (string * string) :=
  [("Homer", "yellow"); ("Bart", "red"); ("Marge", "blue");
   ("Lisa", "black"); ("Maggie", "pink")].

(** The percentage label of one segment: lines 53 to 56. *)
Definition draw_label (sorted_seasons : list pyval) (totals : list (pyval * Z))
    (bottom_counts : list Z) (author : string) (ic : nat * Z) : M unit :=
  let (i, count) := ic in
  if 0 <? count then
    season <- index sorted_seasons i ;;
    total <- dict_getitem totals season ;;
    q <- lift (int_truediv count total) ;;
    percentage <- lift (float_times_int q 100) ;;
    let text_color :=
      if existsb (String.eqb author) ["Homer"; "Maggie"] then "black" else "white" in
    x <- index sorted_seasons i ;;
    bottom <- index bottom_counts i ;;
    half <- lift (int_truediv count 2) ;;
    y <- lift (int_plus_float bottom half) ;;
    plot (AxText x y (format_1f percentage ++ "%")%string text_color)
  else ret tt.

(** One turn of the loop over [author_colors.items()]: lines 49 to 58; the
    result is the new [bottom_counts]. *)
Definition draw_author (sorted_seasons : list pyval) (totals : list (pyval * Z))
    (bottom_counts : list Z) (item : string * string) : M (list Z) :=
  let (author, color) := item in
  author_message_counts <-
    list_comp (fun season => inner <- season_counts_getitem season ;;
                        ret (counts_get (PStr author) inner)) sorted_seasons ;;
  plot (AxBar sorted_seasons author_message_counts bottom_counts color author) ;;
  for_each (enumerate author_message_counts)
           (draw_label sorted_seasons totals bottom_counts author) ;;
  ret (map (fun bc => fst bc + snd bc) (combine bottom_counts author_message_counts)).

(** Lines 44 to 68: the drawing, once the seasons are sorted. *)
Definition draw_chart (sorted_seasons : list pyval) : M unit :=
  let bottom_counts := repeat 0 (List.length sorted_seasons) in
  total_messages_per_season <-
    foldM (fun d season => inner <- season_counts_getitem season ;;
                           ret (dict_set season (sum_values inner) d))
          sorted_seasons [] ;;
  _ <- foldM (draw_author sorted_seasons total_messages_per_season)
             author_colors bottom_counts ;;
  plot (AxSetXlabel "Seasons") ;;
  plot (AxSetYlabel "Message Counts") ;;
  plot (AxSetTitle "The Simpsons Most Memorable Leader (Seasons 1-30)") ;;
  plot (AxSetXticks sorted_seasons) ;;
  plot (AxSetXticklabels sorted_seasons 45 "right") ;;
  plot AxLegend ;;
  plot PltTightLayout ;;
  plot PltDraw ;;
  plot PltPause.

Definition update_chart : M unit :=
  plot AxClear ;;
  t <- get_counts ;;
  sorted_seasons <- lift (sorted_by_int (map fst t)) ;;
  draw_chart sorted_seasons.

(** ** [process_message] and [main] *)

(** A message envelope of the consumer. *)
Record message : Type := mkMessage { value : string; offset : Z }.

(** What one pull on the consumer gives: a message, or an exception. *)
Inductive pulled : Type :=
| Yield (m : message)
| Throw (e : exn).

Section Consumer.

(** [json.loads] and [os.getenv] are the standard library's. *)
Variable json_loads : string -> outcome pyval.
Variable os_getenv : string -> option string.

Definition getenv (name default : string) : string :=
  match os_getenv name with
  | Some v => v
  | None => default
  end.

Definition get_kafka_topic : M string :=
  let topic := getenv "BUZZ_TOPIC" "unknown_topic" in
  logger INFO (KafkaTopic topic) ;;
  ret topic.

Definition get_kafka_consumer_group_id : M string :=
  let group_id := getenv "BUZZ_CONSUMER_GROUP_ID" "default_group" in
  logger INFO (KafkaGroupId group_id) ;;
  ret group_id.

Definition process_message (message : string) : M unit :=
  try_except
    (logger DEBUG (RawMessage message) ;;
     message_dict <- lift (json_loads message) ;;
     logger INFO (ProcessedJSON message_dict) ;;
     match message_dict with
     | PDict items =>
         let author := json_get "author" (PStr "unknown") items in
         let season := json_get "season" (PStr "unknown") items in
         logger INFO (MessageReceived author season) ;;
         increment season author ;;
         t <- get_counts ;;
         logger INFO (UpdatedSeasonCounts t) ;;
         update_chart ;;
         logger INFO (ChartUpdated message)
     | _ => logger ERROR (ExpectedDict message_dict)
     end)
    (fun e =>
       match e with
       | JSONDecodeError => logger ERROR (InvalidJSON message)
       | _ => if is_Exception e then logger ERROR (ErrorProcessing e) else raise e
       end).

(** [for message in consumer: ...].  The consumer is the list of what its
    successive pulls give; the end of the list is the end of the stream. *)
Fixpoint consume (consumer : list pulled) : M unit :=
  match consumer with
  | [] => ret tt
  | Throw e :: _ => raise e
  | Yield m :: rest =>
      let message_str := value m in
      logger DEBUG (ReceivedAt (offset m) message_str) ;;
      process_message message_str ;;
      consume rest
  end.

Definition main (consumer : list pulled) : M unit :=
  logger INFO StartConsumer ;;
  topic <- get_kafka_topic ;;
  group_id <- get_kafka_consumer_group_id ;;
  logger INFO (ConsumerTopicGroup topic group_id) ;;
  logger INFO (PollingMessages topic) ;;
  try_finally
    (try_except (consume consumer)
       (fun e =>
          match e with
          | KeyboardInterrupt => logger WARNING Interrupted
          | _ => if is_Exception e then logger ERROR (ErrorConsuming e) else raise e
          end))
    (consumer_close ;;
     logger INFO (ConsumerClosed topic)) ;;
  logger INFO (EndConsumer topic group_id).

End Consumer.

(** ** The table as the specification reads it *)

(** The count of a (season, author) pair; an absent pair counts zero. *)
Definition count (t : table) (season author : pyval) : Z :=
  match dict_find season t with
  | Some inner => counts_get author inner
  | None => 0
  end.

(** Every stored count is non-negative. *)
Definition nonneg (t : table) : Prop :=
  Forall (fun entry => Forall (fun kv => 0 <= snd kv) (snd entry)) t.

(** The table after [season_counts[season][author] += 1] has run on [t],
    whether it completed or raised. *)
Definition incremented (season author : pyval) (t : table) : table :=
  season_counts (snd (increment season author (mkWorld t [] [] 0))).

Definition has_int (k : pyval) : Prop := exists n, py_int k = Ret n.

(** [a] sorts before or with [b]. *)
Definition int_le (a b : pyval) : Prop :=
  exists x y, py_int a = Ret x /\ py_int b = Ret y /\ x <= y.

Definition keyed_le (a b : Z * pyval) : Prop := fst a <= fst b.

(** ** Invariants of computations

    [preserves I m]: started in a world where [I] holds, [m] ends, normally
    or by an exception, in a world where [I] holds. *)
Definition preserves {A : Type} (I : world -> Prop) (m : M A) : Prop :=
  forall w, I w -> I (snd (m w)).

Definition with_counts (t : table) (w : world) : world :=
  mkWorld t (chart w) (logged w) (closed w).

Definition with_log (l : level) (x : log_text) (w : world) : world :=
  mkWorld (season_counts w) (chart w) (logged w ++ [(l, x)]) (closed w).

Definition with_calls (cs : list plot_call) (w : world) : world :=
  mkWorld (season_counts w) (chart w ++ cs) (logged w) (closed w).

(** The world in which the loop of [main] starts: the five records logged
    before it. *)
Definition before_loop (os_getenv : string -> option string) (w : world) : world :=
  let topic := getenv os_getenv "BUZZ_TOPIC" "unknown_topic" in
  let group_id := getenv os_getenv "BUZZ_CONSUMER_GROUP_ID" "default_group" in
  with_log INFO (PollingMessages topic)
    (with_log INFO (ConsumerTopicGroup topic group_id)
       (with_log INFO (KafkaGroupId group_id)
          (with_log INFO (KafkaTopic topic)
             (with_log INFO StartConsumer w)))).

(** The season and the author a decoded object gives. *)
Definition season_of (items : list (string * pyval)) : pyval :=
  json_get "season" (PStr "unknown") items.

Definition author_of (items : list (string * pyval)) : pyval :=
  json_get "author" (PStr "unknown") items.

(** ** The renderer as a function of the table

    [update_chart] reads the table and calls the plotting library; run on
    a world that holds the table and nothing else, it gives its result and
    the calls it makes. *)
Definition blank (t : table) : world := mkWorld t [] [] 0.

Definition run {A : Type} (m : M A) (t : table) : outcome A * list plot_call :=
  (fst (m (blank t)), chart (snd (m (blank t)))).

(** [m] on any world that holds the table [t] does what [run m t] says and
    nothing more. *)
Definition reads_only {A : Type} (m : M A) (t : table) : Prop :=
  forall w, season_counts w = t -> m w = (fst (run m t), with_calls (snd (run m t)) w).

(** Sequencing of a result with the calls made so far. *)
Definition then_ {A B : Type} (r : outcome A * list plot_call)
    (k : A -> outcome B * list plot_call) : outcome B * list plot_call :=
  match fst r with
  | Ret a => (fst (k a), snd r ++ snd (k a))
  | Raise e => (Raise e, snd r)
  end.

(** The labels of the bars among plotting calls. *)
Definition bar_labels (cs : list plot_call) : list string :=
  flat_map (fun c => match c with AxBar _ _ _ _ label => [label] | _ => [] end) cs.

(** The total of a season, and the label of a segment: the percentage
    [count / total * 100] printed with one decimal. *)
Definition season_total (t : table) (season : pyval) : Z :=
  match dict_find season t with
  | Some inner => sum_values inner
  | None => 0
  end.

Definition percentage_label (n total : Z) : outcome string :=
  match int_truediv n total with
  | Ret q =>
      match float_times_int q 100 with
      | Ret percentage => Ret (format_1f percentage ++ "%")%string
      | Raise e => Raise e
      end
  | Raise e => Raise e
  end.

(** The counts of a season; none for a season the table lacks. *)
Definition lookup (t : table) (season : pyval) : counts :=
  match dict_find season t with
  | Some inner => inner
  | None => []
  end.

(** [season] is a key of the table, as a read of [season_counts[season]]
    finds it. *)
Definition present (t : table) (season : pyval) : Prop :=
  hashable season = true /\ exists inner, dict_find season t = Some inner.

(** The heights of an author's segments, one per season: the count, zero
    when absent. *)
Definition heights (t : table) (seasons : list pyval) (author : string) : list Z :=
  map (fun season => count t season (PStr author)) seasons.

(** The dictionary [total_messages_per_season] and the calls that finish a
    chart (lines 60 to 68). *)
Definition totals_of (t : table) (seasons : list pyval) : list (pyval * Z) :=
  fold_left (fun d season => dict_set season (sum_values (lookup t season)) d) seasons [].

Definition chart_finish (sorted_seasons : list pyval) : list plot_call :=
  [AxSetXlabel "Seasons"; AxSetYlabel "Message Counts";
   AxSetTitle "The Simpsons Most Memorable Leader (Seasons 1-30)";
   AxSetXticks sorted_seasons; AxSetXticklabels sorted_seasons 45 "right";
   AxLegend; PltTightLayout; PltDraw; PltPause].

(** ** Sample payloads

    An excerpt of [json.loads]: the texts used in the examples, each with
    the value [json.loads] gives for it; every other text is taken as
    undecodable. *)
Definition quoted (s : string) : string :=
  (String (ascii_of_nat 34) s ++ String (ascii_of_nat 34) EmptyString)%string.

(** [{"author": "Homer", "season": "1"}] *)
Definition text_homer_1 : string :=
  ("{" ++ quoted "author" ++ ": " ++ quoted "Homer" ++ ", "
       ++ quoted "season" ++ ": " ++ quoted "1" ++ "}")%string.

(** [{"author": "Ned", "season": "2"}] *)
Definition text_ned_2 : string :=
  ("{" ++ quoted "author" ++ ": " ++ quoted "Ned" ++ ", "
       ++ quoted "season" ++ ": " ++ quoted "2" ++ "}")%string.

(** [{"author": "Bart", "season": "1"}] *)
Definition text_bart_1 : string :=
  ("{" ++ quoted "author" ++ ": " ++ quoted "Bart" ++ ", "
       ++ quoted "season" ++ ": " ++ quoted "1" ++ "}")%string.

(** [{"author": "Bart"}] *)
Definition text_bart : string :=
  ("{" ++ quoted "author" ++ ": " ++ quoted "Bart" ++ "}")%string.

(** [{"season": [1]}] *)
Definition text_list_season : string :=
  ("{" ++ quoted "season" ++ ": [1]}")%string.

(** [{"author": "Homer", "season": 7}] *)
Definition text_homer_number : string :=
  ("{" ++ quoted "author" ++ ": " ++ quoted "Homer" ++ ", "
       ++ quoted "season" ++ ": 7}")%string.

(** [[1, 2]] *)
Definition text_array : string := "[1, 2]".

Definition sample_loads (s : string) : outcome pyval :=
  if String.eqb s text_homer_1
  then Ret (PDict [("author", PStr "Homer"); ("season", PStr "1")])
  else if String.eqb s text_ned_2
  then Ret (PDict [("author", PStr "Ned"); ("season", PStr "2")])
  else if String.eqb s text_bart_1
  then Ret (PDict [("author", PStr "Bart"); ("season", PStr "1")])
  else if String.eqb s text_bart
  then Ret (PDict [("author", PStr "Bart")])
  else if String.eqb s text_list_season
  then Ret (PDict [("season", PList [PInt 1])])
  else if String.eqb s text_homer_number
  then Ret (PDict [("author", PStr "Homer"); ("season", PInt 7)])
  else if String.eqb s text_array
  then Ret (PList [PInt 1; PInt 2])
  else Raise JSONDecodeError.

Definition no_env (name : string) : option string := None.

(** A table with a season of the default name. *)
Definition table_1_unknown : table :=
  [(PStr "1", [(PStr "Homer", 1)]); (PStr "unknown", [(PStr "Bart", 1)])].

(** A table whose seasons were first seen in the order "2", "10", "1". *)
Definition table_2_10_1 : table :=
  [(PStr "2", [(PStr "Homer", 1)]);
   (PStr "10", [(PStr "Bart", 2)]);
   (PStr "1", [(PStr "Homer", 3); (PStr "Bart", 1)])].

(** The texts of the labels among plotting calls. *)
Definition label_texts (cs : list plot_call) : list string :=
  flat_map (fun c => match c with AxText _ _ s _ => [s] | _ => [] end) cs.

(** The percentage of [n] in [total] in tenths of a percent, as the label
    prints it. *)
Definition percent_tenths (n total : Z) : option Z :=
  match int_truediv n total with
  | Ret q =>
      match float_times_int q 100 with
      | Ret (S754_finite false m e) => Some (tenths m e)
      | _ => None
      end
  | Raise _ => None
  end.

(** The printed percentage is within a twentieth of a percent of
    [100 * n / total]. *)
Definition rounds_to_tenth (n total : Z) : bool :=
  match percent_tenths n total with
  | Some T => 2 * Z.abs (T * total - 1000 * n) <=? total
  | None => false
  end.

Definition rounds_up_to (bound : nat) : bool :=
  forallb (fun total =>
             forallb (fun n => rounds_to_tenth (Z.of_nat n) (Z.of_nat total))
                     (seq 1 total))
          (seq 1 bound).

(** Season "1" with three messages of Homer and one of Bart. *)
Definition table_homer3_bart1 : table :=
  [(PStr "1", [(PStr "Homer", 3); (PStr "Bart", 1)])].

(** * The draft variant, and the code around the claims

    [consumers/draft_project_consumer_valenti.py] differs from the module
    above in its [update_chart]: the seasons are taken in the order of the
    table, no label is drawn, the ticks are not set and the title is
    another one.  Its [process_message] and [main] read the same, and call
    that renderer.  (Its global [author_counts] is never read or written.) *)

Module Draft.

(** One turn of the loop over [author_colors.items()]: lines 43 to 45. *)
Definition draw_author (seasons : list pyval) (bottom_counts : list Z)
    (item : string * string) : M (list Z) :=
  let (author, color) := item in
  author_message_counts <-
    list_comp (fun season => inner <- season_counts_getitem season ;;
                             ret (counts_get (PStr author) inner)) seasons ;;
  plot (AxBar seasons author_message_counts bottom_counts color author) ;;
  ret (map (fun bc => fst bc + snd bc) (combine bottom_counts author_message_counts)).

(** Lines 39 to 55: the drawing, once the seasons are listed.  (The list
    [bars] of line 40 is appended to and never read.) *)
Definition draw_chart (seasons : list pyval) : M unit :=
  let bottom_counts := repeat 0 (List.length seasons) in
  _ <- foldM (draw_author seasons) author_colors bottom_counts ;;
  plot (AxSetXlabel "Seasons") ;;
  plot (AxSetYlabel "Message Counts") ;;
  plot (AxSetTitle "Message Counts by Season and Author") ;;
  plot (AxSetXticklabels seasons 45 "right") ;;
  plot AxLegend ;;
  plot PltTightLayout ;;
  plot PltDraw ;;
  plot PltPause.

Definition update_chart : M unit :=
  plot AxClear ;;
  t <- get_counts ;;
  draw_chart (map fst t).

(** The calls that finish a chart of the draft (lines 46 to 55). *)
Definition chart_finish (seasons : list pyval) : list plot_call :=
  [AxSetXlabel "Seasons"; AxSetYlabel "Message Counts";
   AxSetTitle "Message Counts by Season and Author";
   AxSetXticklabels seasons 45 "right";
   AxLegend; PltTightLayout; PltDraw; PltPause].

Section Consumer.

Variable json_loads : string -> outcome pyval.
Variable os_getenv : string -> option string.

Definition process_message (message : string) : M unit :=
  try_except
    (logger DEBUG (RawMessage message) ;;
     message_dict <- lift (json_loads message) ;;
     logger INFO (ProcessedJSON message_dict) ;;
     match message_dict with
     | PDict items =>
         let author := json_get "author" (PStr "unknown") items in
         let season := json_get "season" (PStr "unknown") items in
         logger INFO (MessageReceived author season) ;;
         increment season author ;;
         t <- get_counts ;;
         logger INFO (UpdatedSeasonCounts t) ;;
         update_chart ;;
         logger INFO (ChartUpdated message)
     | _ => logger ERROR (ExpectedDict message_dict)
     end)
    (fun e =>
       match e with
       | JSONDecodeError => logger ERROR (InvalidJSON message)
       | _ => if is_Exception e then logger ERROR (ErrorProcessing e) else raise e
       end).

Fixpoint consume (consumer : list pulled) : M unit :=
  match consumer with
  | [] => ret tt
  | Throw e :: _ => raise e
  | Yield m :: rest =>
      let message_str := value m in
      logger DEBUG (ReceivedAt (offset m) message_str) ;;
      process_message message_str ;;
      consume rest
  end.

Definition main (consumer : list pulled) : M unit :=
  logger INFO StartConsumer ;;
  topic <- get_kafka_topic os_getenv ;;
  group_id <- get_kafka_consumer_group_id os_getenv ;;
  logger INFO (ConsumerTopicGroup topic group_id) ;;
  logger INFO (PollingMessages topic) ;;
  try_finally
    (try_except (consume consumer)
       (fun e =>
          match e with
          | KeyboardInterrupt => logger WARNING Interrupted
          | _ => if is_Exception e then logger ERROR (ErrorConsuming e) else raise e
          end))
    (consumer_close ;;
     logger INFO (ConsumerClosed topic)) ;;
  logger INFO (EndConsumer topic group_id).

End Consumer.

End Draft.

(** ** The handler and the loop over any renderer

    Both modules have the same [process_message] and [main] around their
    own [update_chart]. *)
Section AnyRenderer.

Variable render : M unit.
Variable json_loads : string -> outcome pyval.
Variable os_getenv : string -> option string.

Definition process_message_with (message : string) : M unit :=
  try_except
    (logger DEBUG (RawMessage message) ;;
     message_dict <- lift (json_loads message) ;;
     logger INFO (ProcessedJSON message_dict) ;;
     match message_dict with
     | PDict items =>
         let author := json_get "author" (PStr "unknown") items in
         let season := json_get "season" (PStr "unknown") items in
         logger INFO (MessageReceived author season) ;;
         increment season author ;;
         t <- get_counts ;;
         logger INFO (UpdatedSeasonCounts t) ;;
         render ;;
         logger INFO (ChartUpdated message)
     | _ => logger ERROR (ExpectedDict message_dict)
     end)
    (fun e =>
       match e with
       | JSONDecodeError => logger ERROR (InvalidJSON message)
       | _ => if is_Exception e then logger ERROR (ErrorProcessing e) else raise e
       end).

Fixpoint consume_with (consumer : list pulled) : M unit :=
  match consumer with
  | [] => ret tt
  | Throw e :: _ => raise e
  | Yield m :: rest =>
      let message_str := value m in
      logger DEBUG (ReceivedAt (offset m) message_str) ;;
      process_message_with message_str ;;
      consume_with rest
  end.

Definition main_with (consumer : list pulled) : M unit :=
  logger INFO StartConsumer ;;
  topic <- get_kafka_topic os_getenv ;;
  group_id <- get_kafka_consumer_group_id os_getenv ;;
  logger INFO (ConsumerTopicGroup topic group_id) ;;
  logger INFO (PollingMessages topic) ;;
  try_finally
    (try_except (consume_with consumer)
       (fun e =>
          match e with
          | KeyboardInterrupt => logger WARNING Interrupted
          | _ => if is_Exception e then logger ERROR (ErrorConsuming e) else raise e
          end))
    (consumer_close ;;
     logger INFO (ConsumerClosed topic)) ;;
  logger INFO (EndConsumer topic group_id).

End AnyRenderer.

(** ** The handler, case by case *)

(** The [except] clauses of [process_message] (lines 88 to 91). *)
Definition handle (message : string) (e : exn) : M unit :=
  match e with
  | JSONDecodeError => logger ERROR (InvalidJSON message)
  | _ => if is_Exception e then logger ERROR (ErrorProcessing e) else raise e
  end.

(** The records a decoded object leaves before the increment. *)
Definition received (message : string) (items : list (string * pyval)) (w : world)
  : world :=
  with_log INFO (MessageReceived (author_of items) (season_of items))
    (with_log INFO (ProcessedJSON (PDict items))
       (with_log DEBUG (RawMessage message) w)).

(** Every key of the table can be hashed, as the keys of a [dict] can. *)
Definition well_keyed (t : table) : Prop :=
  Forall (fun k => hashable k = true) (map fst t).

(** ** The stack of segments

    [below t season before]: the height reached in a season by the
    segments of the authors [before], and the list of these heights over
    the seasons. *)
Definition below (t : table) (season : pyval) (before : list string) : Z :=
  fold_right (fun author s => count t season (PStr author) + s) 0 before.

Definition stacked (t : table) (seasons : list pyval) (before : list string) : list Z :=
  map (fun season => below t season before) seasons.

(** The colour of a label (line 54). *)
Definition text_color (author : string) : string :=
  if existsb (String.eqb author) ["Homer"; "Maggie"] then "black" else "white".

(** The ordinate of a label: [bottom + count / 2] (line 56). *)
Definition label_height (bottom n : Z) : outcome spec_float :=
  match int_truediv n 2 with
  | Ret half => int_plus_float bottom half
  | Raise e => Raise e
  end.

(** The bars of the authors [items] over [seasons], each on the stack of
    the authors [before] and of those drawn before it. *)
Fixpoint bars (t : table) (seasons : list pyval) (before : list string)
    (items : list (string * string)) : list plot_call :=
  match items with
  | [] => []
  | (author, color) :: rest =>
      AxBar seasons (heights t seasons author) (stacked t seasons before) color author
      :: bars t seasons (before ++ [author]) rest
  end.

(** No author of the mapping has a positive count in a season of the
    table. *)
Definition no_segment (t : table) : Prop :=
  forall author season,
    In author (map fst author_colors) -> In season (map fst t) ->
    count t season (PStr author) <= 0.

(** ** The stream as the loop sees it *)

(** The messages the loop hands to [process_message]: those pulled before
    the consumer raises, up to one whose decoding raises what the handler
    lets through. *)
Fixpoint consumed (json_loads : string -> outcome pyval) (consumer : list pulled)
  : list message :=
  match consumer with
  | Yield m :: rest =>
      m :: match json_loads (value m) with
           | Raise e => if is_Exception e then consumed json_loads rest else []
           | Ret _ => consumed json_loads rest
           end
  | _ => []
  end.



(** The calls a message adds to the chart: those of the render, when the
    increment completes. *)
Definition charted (render : M unit) (json_loads : string -> outcome pyval)
    (message : string) (t : table) : list plot_call :=
  match json_loads message with
  | Ret (PDict items) =>
      if hashable (season_of items) && hashable (author_of items)
      then snd (run render (incremented (season_of items) (author_of items) t))
      else []
  | _ => []
  end.

(** The table after a message. *)
Definition tabled (json_loads : string -> outcome pyval) (message : string) (t : table)
  : table :=
  match json_loads message with
  | Ret (PDict items) => incremented (season_of items) (author_of items) t
  | _ => t
  end.

(** The [except] clauses of [main] (lines 107 to 110). *)
Definition handle_loop (e : exn) : M unit :=
  match e with
  | KeyboardInterrupt => logger WARNING Interrupted
  | _ => if is_Exception e then logger ERROR (ErrorConsuming e) else raise e
  end.

Definition with_close (w : world) : world :=
  mkWorld (season_counts w) (chart w) (logged w) (S (closed w)).


(** A key of the table is one that [int] rejects. *)
Definition unsortable (t : table) : Prop :=
  exists k e, In k (map fst t) /\ ascii_key k = true /\ py_int k = Raise e.



(** How the loop ends, and the table it leaves. *)
Fixpoint stream_result (json_loads : string -> outcome pyval) (consumer : list pulled)
  : outcome unit :=
  match consumer with
  | [] => Ret tt
  | Throw e :: _ => Raise e
  | Yield m :: rest =>
      match json_loads (value m) with
      | Raise e => if is_Exception e then stream_result json_loads rest else Raise e
      | Ret _ => stream_result json_loads rest
      end
  end.

Fixpoint stream_table (json_loads : string -> outcome pyval) (consumer : list pulled)
    (t : table) : table :=
  match consumer with
  | Yield m :: rest =>
      match json_loads (value m) with
      | Raise e => if is_Exception e then stream_table json_loads rest t else t
      | Ret _ => stream_table json_loads rest (tabled json_loads (value m) t)
      end
  | _ => t
  end.

(** [{"author": [1], "season": "5"}] *)
Definition text_list_author : string :=
  ("{" ++ quoted "author" ++ ": [1], " ++ quoted "season" ++ ": " ++ quoted "5" ++ "}")%string.

(** [sample_loads] with one more text. *)
Definition more_loads (s : string) : outcome pyval :=
  if String.eqb s text_list_author
  then Ret (PDict [("author", PList [PInt 1]); ("season", PStr "5")])
  else sample_loads s.


(** The bars among plotting calls. *)
Definition only_bars (cs : list plot_call) : list plot_call :=
  filter (fun c => match c with AxBar _ _ _ _ _ => true | _ => false end) cs.

(** * The plotting library as it is: a call may raise

    [plot] is a call that returns.  What a call of matplotlib does is not
    the program's to decide: [ax.bar] refuses seasons that mix text and
    numbers, and a keyboard interrupt may arrive during [plt.pause].  A
    [library] gives the outcome of a call after the calls made before it,
    and [issue] is the call: it is made, then it returns or raises.  The
    renderers below are those of the two modules, with their calls on
    [ax] and [plt] going through [call]. *)
Definition library : Type := list plot_call -> plot_call -> outcome unit.

Definition issue (lib : library) (c : plot_call) : M unit :=
  fun w => (lib (chart w) c, with_calls [c] w).

(** The library that accepts every call, one that refuses the bars and one
    that is interrupted in [plt.pause]. *)
Definition obliging : library := fun _ _ => Ret tt.

Definition refusing_bars : library :=
  fun _ c => match c with
             | AxBar _ _ _ _ _ => Raise TypeError
             | _ => Ret tt
             end.

Definition interrupted : library :=
  fun _ c => match c with
             | PltPause => Raise KeyboardInterrupt
             | _ => Ret tt
             end.

Definition returns (lib : library) : Prop := forall history c, lib history c = Ret tt.

(** Between [w] and [w'] the last call made raised [e]. *)
Definition raised_by (lib : library) (w w' : world) (e : exn) : Prop :=
  exists made c,
    chart w' = chart w ++ made ++ [c] /\ lib (chart w ++ made) c = Raise e.

Module Lib.

Section Calls.

Variable call : plot_call -> M unit.

(** Lines 53 to 56. *)
Definition draw_label (sorted_seasons : list pyval) (totals : list (pyval * Z))
    (bottom_counts : list Z) (author : string) (ic : nat * Z) : M unit :=
  let (i, count) := ic in
  if 0 <? count then
    season <- index sorted_seasons i ;;
    total <- dict_getitem totals season ;;
    q <- lift (int_truediv count total) ;;
    percentage <- lift (float_times_int q 100) ;;
    let text_color :=
      if existsb (String.eqb author) ["Homer"; "Maggie"] then "black" else "white" in
    x <- index sorted_seasons i ;;
    bottom <- index bottom_counts i ;;
    half <- lift (int_truediv count 2) ;;
    y <- lift (int_plus_float bottom half) ;;
    call (AxText x y (format_1f percentage ++ "%")%string text_color)
  else ret tt.

(** Lines 49 to 58. *)
Definition draw_author (sorted_seasons : list pyval) (totals : list (pyval * Z))
    (bottom_counts : list Z) (item : string * string) : M (list Z) :=
  let (author, color) := item in
  author_message_counts <-
    list_comp (fun season => inner <- season_counts_getitem season ;;
                        ret (counts_get (PStr author) inner)) sorted_seasons ;;
  call (AxBar sorted_seasons author_message_counts bottom_counts color author) ;;
  for_each (enumerate author_message_counts)
           (draw_label sorted_seasons totals bottom_counts author) ;;
  ret (map (fun bc => fst bc + snd bc) (combine bottom_counts author_message_counts)).

(** Lines 44 to 68. *)
Definition draw_chart (sorted_seasons : list pyval) : M unit :=
  let bottom_counts := repeat 0 (List.length sorted_seasons) in
  total_messages_per_season <-
    foldM (fun d season => inner <- season_counts_getitem season ;;
                           ret (dict_set season (sum_values inner) d))
          sorted_seasons [] ;;
  _ <- foldM (draw_author sorted_seasons total_messages_per_season)
             author_colors bottom_counts ;;
  call (AxSetXlabel "Seasons") ;;
  call (AxSetYlabel "Message Counts") ;;
  call (AxSetTitle "The Simpsons Most Memorable Leader (Seasons 1-30)") ;;
  call (AxSetXticks sorted_seasons) ;;
  call (AxSetXticklabels sorted_seasons 45 "right") ;;
  call AxLegend ;;
  call PltTightLayout ;;
  call PltDraw ;;
  call PltPause.

(** [update_chart] of [project_consumer_valenti.py], lines 40 to 68. *)
Definition update_chart : M unit :=
  call AxClear ;;
  t <- get_counts ;;
  sorted_seasons <- lift (sorted_by_int (map fst t)) ;;
  draw_chart sorted_seasons.

End Calls.

Module Draft.

Section Calls.

Variable call : plot_call -> M unit.

(** Lines 43 to 45 of the draft. *)
Definition draw_author (seasons : list pyval) (bottom_counts : list Z)
    (item : string * string) : M (list Z) :=
  let (author, color) := item in
  author_message_counts <-
    list_comp (fun season => inner <- season_counts_getitem season ;;
                             ret (counts_get (PStr author) inner)) seasons ;;
  call (AxBar seasons author_message_counts bottom_counts color author) ;;
  ret (map (fun bc => fst bc + snd bc) (combine bottom_counts author_message_counts)).

(** Lines 39 to 55 of the draft. *)
Definition draw_chart (seasons : list pyval) : M unit :=
  let bottom_counts := repeat 0 (List.length seasons) in
  _ <- foldM (draw_author seasons) author_colors bottom_counts ;;
  call (AxSetXlabel "Seasons") ;;
  call (AxSetYlabel "Message Counts") ;;
  call (AxSetTitle "Message Counts by Season and Author") ;;
  call (AxSetXticklabels seasons 45 "right") ;;
  call AxLegend ;;
  call PltTightLayout ;;
  call PltDraw ;;
  call PltPause.

(** [update_chart] of the draft, lines 34 to 55. *)
Definition update_chart : M unit :=
  call AxClear ;;
  t <- get_counts ;;
  draw_chart (map fst t).

End Calls.

End Draft.

End Lib.

(** ** A run with the library, from the run in which every call returns

    The calls [cs], made one after the other after [history], until one
    raises: what was raised, if anything, and the calls made. *)
Fixpoint cut (lib : library) (history cs : list plot_call) : option exn * list plot_call :=
  match cs with
  | [] => (None, [])
  | c :: rest =>
      match lib history c with
      | Ret _ => (fst (cut lib (history ++ [c]) rest), c :: snd (cut lib (history ++ [c]) rest))
      | Raise e => (Some e, [c])
      end
  end.

Definition cut_run {A : Type} (lib : library) (w : world)
    (r : outcome A * list plot_call) : outcome A * world :=
  match fst (cut lib (chart w) (snd r)) with
  | None => (fst r, with_calls (snd r) w)
  | Some e => (Raise e, with_calls (snd (cut lib (chart w) (snd r))) w)
  end.

(** [m'] with the library does what [m] does where every call returns, up
    to the first call that raises. *)
Definition follows {A : Type} (lib : library) (m' m : M A) (t : table) : Prop :=
  forall w, season_counts w = t -> m' w = cut_run lib w (run m t).

(** [m] reads the table and makes no call. *)
Definition quiet {A : Type} (m : M A) (t : table) : Prop :=
  reads_only m t /\ snd (run m t) = [].

(** * Properties *)

Example py_int_10 : py_int (PStr " +1_0 ") = Ret 10.
Proof. reflexivity. Qed.

Example py_int_unknown : py_int (PStr "unknown") = Raise ValueError.
Proof. reflexivity. Qed.

Example py_int_trailing_underscore : py_int (PStr "1_") = Raise ValueError.
Proof. reflexivity. Qed.

Example py_int_space_after_sign : py_int (PStr "+ 1") = Raise ValueError.
Proof. reflexivity. Qed.

Example py_int_leading_zeros : py_int (PStr "0_07") = Ret 7.
Proof. reflexivity. Qed.

Example label_three_quarters :
  match int_truediv 3 4 with
  | Ret q => match float_times_int q 100 with Ret x => format_1f x | Raise _ => "" end
  | Raise _ => ""
  end = "75.0".
Proof. reflexivity. Qed.

Example sorted_is_stable :
  sorted_by_int [PStr "2"; PStr "01"; PStr "1"; PStr " 1"]
  = Ret [PStr "01"; PStr "1"; PStr " 1"; PStr "2"].
Proof. reflexivity. Qed.

Example sorted_2_10_1 :
  sorted_by_int [PStr "2"; PStr "10"; PStr "1"] = Ret [PStr "1"; PStr "2"; PStr "10"].
Proof. reflexivity. Qed.

(** ** Keys and dictionaries *)

Lemma key_eqb_true_iff (a b : pyval) :
  key_eqb a b = true <-> exists c, canon a = Some c /\ canon b = Some c.
Proof.
  unfold key_eqb. destruct (canon a) as [ca|], (canon b) as [cb|].
  - destruct (ckey_eq_dec ca cb) as [->|N]; split.
    + intros _. eauto.
    + reflexivity.
    + discriminate.
    + intros (c & E1 & E2). congruence.
  - split; [discriminate | intros (c & _ & E); discriminate].
  - split; [discriminate | intros (c & E & _); discriminate].
  - split; [discriminate | intros (c & E & _); discriminate].
Qed.

Lemma key_eqb_refl (k : pyval) : hashable k = true -> key_eqb k k = true.
Proof.
  unfold hashable. intros H. apply key_eqb_true_iff.
  destruct (canon k) as [c|]; [eauto | discriminate].
Qed.

Lemma key_eqb_sym (a b : pyval) : key_eqb a b = key_eqb b a.
Proof.
  destruct (key_eqb a b) eqn:E1, (key_eqb b a) eqn:E2; try reflexivity.
  - apply key_eqb_true_iff in E1 as (c & Ha & Hb).
    assert (key_eqb b a = true) by (apply key_eqb_true_iff; eauto). congruence.
  - apply key_eqb_true_iff in E2 as (c & Ha & Hb).
    assert (key_eqb a b = true) by (apply key_eqb_true_iff; eauto). congruence.
Qed.

Lemma key_eqb_trans (a b c : pyval) :
  key_eqb a b = true -> key_eqb b c = key_eqb a c.
Proof.
  intros H. apply key_eqb_true_iff in H as (x & Ha & Hb).
  unfold key_eqb. rewrite Ha, Hb. reflexivity.
Qed.

Lemma dict_find_set {V : Type} (k k' : pyval) (v : V) (d : list (pyval * V)) :
  dict_find k (dict_set k' v d) = if key_eqb k' k then Some v else dict_find k d.
Proof.
  induction d as [|[k0 v0] d IH]; simpl.
  - reflexivity.
  - destruct (key_eqb k0 k') eqn:E0; simpl.
    + rewrite <- (key_eqb_trans _ _ k E0). destruct (key_eqb k' k); reflexivity.
    + destruct (key_eqb k0 k) eqn:E1.
      * destruct (key_eqb k' k) eqn:E2; [|reflexivity].
        rewrite key_eqb_sym in E2. rewrite (key_eqb_trans _ _ k' E1) in E2.
        congruence.
      * exact IH.
Qed.

Lemma dict_find_app_none {V : Type} (k k' : pyval) (v : V) (d : list (pyval * V)) :
  dict_find k' d = None ->
  dict_find k (d ++ [(k', v)]) = if key_eqb k' k then Some v else dict_find k d.
Proof.
  induction d as [|[k0 v0] d IH]; simpl; intros H.
  - reflexivity.
  - destruct (key_eqb k0 k') eqn:E0; [discriminate|].
    destruct (key_eqb k0 k) eqn:E1.
    + destruct (key_eqb k' k) eqn:E2; [|reflexivity].
      rewrite key_eqb_sym in E2. rewrite (key_eqb_trans _ _ k' E1) in E2.
      congruence.
    + apply IH, H.
Qed.

Lemma dict_find_in {V : Type} (k : pyval) (d : list (pyval * V)) :
  hashable k = true -> In k (map fst d) -> exists v, dict_find k d = Some v.
Proof.
  intros Hk. induction d as [|[k0 v0] d IH]; simpl; intros Hin.
  - contradiction.
  - destruct (key_eqb k0 k) eqn:E; [eauto|].
    destruct Hin as [->|Hin]; [|auto].
    rewrite key_eqb_refl in E by assumption. discriminate.
Qed.

(** ** The numeric sort *)

Lemma py_int_hashable (k : pyval) (n : Z) : py_int k = Ret n -> hashable k = true.
Proof.
  destruct k as [| b | z | x | s | xs | items]; simpl; try discriminate; try reflexivity.
  destruct x; reflexivity.
Qed.

Lemma int_keys_ret (l : list pyval) (kl : list (Z * pyval)) :
  int_keys l = Ret kl ->
  map snd kl = l /\ Forall (fun p => py_int (snd p) = Ret (fst p)) kl.
Proof.
  revert kl. induction l as [|k l IH]; simpl; intros kl H.
  - injection H as <-. split; constructor.
  - destruct (py_int k) as [n|e] eqn:Ek; [|discriminate].
    destruct (int_keys l) as [r|e] eqn:El; [|discriminate].
    injection H as <-. destruct (IH r eq_refl) as [IH1 IH2].
    split; simpl; [congruence | constructor; assumption].
Qed.

Lemma int_keys_total (l : list pyval) :
  Forall has_int l -> exists kl, int_keys l = Ret kl.
Proof.
  induction 1 as [|k l [n Hn] _ [kl IH]]; simpl.
  - eauto.
  - rewrite Hn, IH. eauto.
Qed.

Lemma int_keys_raise (l : list pyval) (e : exn) :
  int_keys l = Raise e -> exists k, In k l /\ py_int k = Raise e.
Proof.
  induction l as [|k l IH]; simpl; intros H.
  - discriminate.
  - destruct (py_int k) as [n|e'] eqn:Ek.
    + destruct (int_keys l) as [r|e'']; [discriminate|].
      injection H as ->. destruct (IH eq_refl) as (k' & Hin & Hk'). eauto.
    + injection H as ->. eauto.
Qed.

Lemma int_keys_bad (l : list pyval) (k : pyval) (e : exn) :
  In k l -> py_int k = Raise e -> exists e', int_keys l = Raise e'.
Proof.
  induction l as [|k0 l IH]; simpl; intros Hin Hk.
  - contradiction.
  - destruct (py_int k0) as [n|e0] eqn:E0; [|eauto].
    destruct Hin as [->|Hin]; [congruence|].
    destruct (IH Hin Hk) as [e' ->]. eauto.
Qed.

Lemma insert_keyed_perm (x : Z * pyval) (l : list (Z * pyval)) :
  Permutation (x :: l) (insert_keyed x l).
Proof.
  induction l as [|y l IH]; simpl.
  - reflexivity.
  - destruct (fst x <=? fst y).
    + reflexivity.
    + rewrite perm_swap. constructor. exact IH.
Qed.

Lemma sort_keyed_perm (l : list (Z * pyval)) : Permutation l (sort_keyed l).
Proof.
  induction l as [|x l IH]; simpl.
  - constructor.
  - rewrite <- insert_keyed_perm. constructor. exact IH.
Qed.

Lemma insert_keyed_sorted (x : Z * pyval) (l : list (Z * pyval)) :
  StronglySorted keyed_le l -> StronglySorted keyed_le (insert_keyed x l).
Proof.
  induction 1 as [|y l Hs IH Hy]; simpl.
  - repeat constructor.
  - destruct (fst x <=? fst y) eqn:E.
    + apply Z.leb_le in E. constructor; [constructor; assumption|].
      constructor; [exact E|].
      eapply Forall_impl; [|exact Hy]. unfold keyed_le. intros; lia.
    + apply Z.leb_gt in E. constructor; [exact IH|].
      rewrite <- insert_keyed_perm. constructor; [unfold keyed_le; lia | exact Hy].
Qed.

Lemma sort_keyed_sorted (l : list (Z * pyval)) : StronglySorted keyed_le (sort_keyed l).
Proof.
  induction l as [|x l IH]; simpl.
  - constructor.
  - apply insert_keyed_sorted, IH.
Qed.

Lemma keyed_sorted_int_le (kl : list (Z * pyval)) :
  Forall (fun p => py_int (snd p) = Ret (fst p)) kl ->
  StronglySorted keyed_le kl -> StronglySorted int_le (map snd kl).
Proof.
  intros Hk Hs. induction Hs as [|y l Hs IH Hy]; simpl.
  - constructor.
  - inversion Hk as [|? ? Hy' Hl']; subst. constructor; [auto|].
    rewrite Forall_map. rewrite Forall_forall in *.
    intros z Hz. exists (fst y), (fst z).
    split; [exact Hy' | split; [apply Hl', Hz | apply Hy, Hz]].
Qed.

(** The sort returns the keys in ascending order of their integers, or
    raises what [int] raised on the first key it rejects. *)
Lemma sorted_by_int_ret (l l' : list pyval) :
  sorted_by_int l = Ret l' ->
  Permutation l l' /\ StronglySorted int_le l' /\ Forall has_int l.
Proof.
  unfold sorted_by_int. destruct (int_keys l) as [kl|e] eqn:E; [|discriminate].
  intros H. injection H as <-. destruct (int_keys_ret _ _ E) as [Hm Hf].
  split; [|split].
  - rewrite <- Hm at 1. apply Permutation_map, sort_keyed_perm.
  - apply keyed_sorted_int_le; [|apply sort_keyed_sorted].
    rewrite Forall_forall in *. intros p Hp. apply Hf.
    eapply Permutation_in; [symmetry; apply sort_keyed_perm | exact Hp].
  - rewrite <- Hm. rewrite Forall_map. eapply Forall_impl; [|exact Hf].
    intros p Hp. exists (fst p). exact Hp.
Qed.

Lemma sorted_by_int_total (l : list pyval) :
  Forall has_int l -> exists l', sorted_by_int l = Ret l'.
Proof.
  intros H. destruct (int_keys_total l H) as [kl E].
  unfold sorted_by_int. rewrite E. eauto.
Qed.

Lemma sorted_by_int_bad (l : list pyval) (k : pyval) (e : exn) :
  In k l -> py_int k = Raise e ->
  exists e' k', sorted_by_int l = Raise e' /\ In k' l /\ py_int k' = Raise e'.
Proof.
  intros Hin Hk. destruct (int_keys_bad l k e Hin Hk) as [e' E].
  destruct (int_keys_raise l e' E) as (k' & Hin' & Hk').
  exists e', k'. unfold sorted_by_int. rewrite E. auto.
Qed.

(** ** Invariants kept by computations *)

Section Preserves.

Variable I : world -> Prop.

Lemma preserves_ret {A : Type} (a : A) : preserves I (ret a).
Proof. intros w H. exact H. Qed.

Lemma preserves_raise {A : Type} (e : exn) : preserves I (@raise A e).
Proof. intros w H. exact H. Qed.

Lemma preserves_lift {A : Type} (r : outcome A) : preserves I (lift r).
Proof. intros w H. exact H. Qed.

Lemma preserves_get_counts : preserves I get_counts.
Proof. intros w H. exact H. Qed.

Lemma preserves_bind {A B : Type} (m : M A) (k : A -> M B) :
  preserves I m -> (forall a, preserves I (k a)) -> preserves I (bind m k).
Proof.
  intros Hm Hk w H. unfold bind. specialize (Hm w H).
  destruct (m w) as [[a|e] w']; simpl in *.
  - apply Hk, Hm.
  - exact Hm.
Qed.

Lemma preserves_try_except {A : Type} (body : M A) (handler : exn -> M A) :
  preserves I body -> (forall e, preserves I (handler e)) ->
  preserves I (try_except body handler).
Proof.
  intros Hm Hk w H. unfold try_except. specialize (Hm w H).
  destruct (body w) as [[a|e] w']; simpl in *.
  - exact Hm.
  - apply Hk, Hm.
Qed.

Lemma preserves_try_finally {A : Type} (body : M A) (final : M unit) :
  preserves I body -> preserves I final -> preserves I (try_finally body final).
Proof.
  intros Hm Hf w H. unfold try_finally. specialize (Hm w H).
  destruct (body w) as [r w']; simpl in *. specialize (Hf w' Hm).
  destruct (final w') as [[u|e] w'']; exact Hf.
Qed.

Lemma preserves_list_comp {A B : Type} (f : A -> M B) (l : list A) :
  (forall x, In x l -> preserves I (f x)) -> preserves I (list_comp f l).
Proof.
  induction l as [|x l IH]; simpl; intros Hf.
  - apply preserves_ret.
  - apply preserves_bind; [auto|]. intros y.
    apply preserves_bind; [auto|]. intros ys. apply preserves_ret.
Qed.

Lemma preserves_foldM {A S : Type} (body : S -> A -> M S) (l : list A) (s : S) :
  (forall s x, In x l -> preserves I (body s x)) -> preserves I (foldM body l s).
Proof.
  revert s. induction l as [|x l IH]; simpl; intros s Hf.
  - apply preserves_ret.
  - apply preserves_bind; [auto|]. intros s'. apply IH. auto.
Qed.

Lemma preserves_for_each {A : Type} (l : list A) (body : A -> M unit) :
  (forall x, In x l -> preserves I (body x)) -> preserves I (for_each l body).
Proof.
  induction l as [|x l IH]; simpl; intros Hf.
  - apply preserves_ret.
  - apply preserves_bind; [auto|]. intros _. auto.
Qed.

Lemma preserves_index {A : Type} (l : list A) (i : nat) : preserves I (index l i).
Proof. unfold index. destruct (nth_error l i); intros w H; exact H. Qed.

Lemma preserves_dict_getitem {V : Type} (d : list (pyval * V)) (k : pyval) :
  preserves I (dict_getitem d k).
Proof.
  unfold dict_getitem. destruct (hashable k); [|intros w H; exact H].
  destruct (dict_find k d); intros w H; exact H.
Qed.

(** The renderer keeps what its plotting calls and its reads of the table
    keep. *)
Hypothesis I_plot : forall c, preserves I (plot c).

Lemma preserves_draw_label sorted_seasons totals bottom_counts author ic :
  preserves I (draw_label sorted_seasons totals bottom_counts author ic).
Proof.
  unfold draw_label. destruct ic as [i n]. destruct (0 <? n); [|apply preserves_ret].
  repeat (apply preserves_bind; [|intros ?]);
    auto using preserves_index, preserves_dict_getitem, preserves_lift.
Qed.

Lemma preserves_draw_author sorted_seasons totals bottom_counts item :
  (forall k, In k sorted_seasons -> preserves I (season_counts_getitem k)) ->
  preserves I (draw_author sorted_seasons totals bottom_counts item).
Proof.
  intros Hget. unfold draw_author. destruct item as [author color].
  apply preserves_bind; [|intros counts_].
  { apply preserves_list_comp. intros k Hk.
    apply preserves_bind; [auto | intros ?; apply preserves_ret]. }
  apply preserves_bind; [apply I_plot | intros _].
  apply preserves_bind; [|intros _; apply preserves_ret].
  apply preserves_for_each. intros ic _. apply preserves_draw_label.
Qed.

Lemma preserves_draw_chart sorted_seasons :
  (forall k, In k sorted_seasons -> preserves I (season_counts_getitem k)) ->
  preserves I (draw_chart sorted_seasons).
Proof.
  intros Hget. unfold draw_chart.
  apply preserves_bind; [|intros totals].
  { apply preserves_foldM. intros d k Hk.
    apply preserves_bind; [auto | intros ?; apply preserves_ret]. }
  apply preserves_bind; [|intros _].
  { apply preserves_foldM. intros b item _. apply preserves_draw_author, Hget. }
  repeat (apply preserves_bind; [apply I_plot | intros _]). apply I_plot.
Qed.

End Preserves.

(** A read [season_counts[k]] of a season the table has. *)
Lemma season_counts_getitem_present (k : pyval) (inner : counts) (w : world) :
  dict_find k (season_counts w) = Some inner ->
  hashable k = true ->
  season_counts_getitem k w = (Ret inner, w).
Proof.
  intros Hf Hk. unfold season_counts_getitem, bind, get_counts, ret.
  rewrite Hk, Hf. reflexivity.
Qed.

(** Rendering never changes the table: [update_chart] only reads seasons
    that are keys of [season_counts]. *)
Lemma update_chart_counts (w : world) :
  season_counts (snd (update_chart w)) = season_counts w.
Proof.
  unfold update_chart, bind, plot, get_counts, lift. cbn [season_counts].
  destruct (sorted_by_int (map fst (season_counts w))) as [sorted|e] eqn:E;
    [|reflexivity].
  destruct (sorted_by_int_ret _ _ E) as (Hperm & _ & Hint).
  apply (preserves_draw_chart (fun w' => season_counts w' = season_counts w));
    [intros c w' H; exact H | | reflexivity].
  intros k Hk w' H.
  assert (Hin : In k (map fst (season_counts w)))
    by (eapply Permutation_in; [symmetry; exact Hperm | exact Hk]).
  rewrite Forall_forall in Hint. destruct (Hint k Hin) as [n Hn].
  apply py_int_hashable in Hn.
  destruct (dict_find_in k (season_counts w) Hn Hin) as [inner Hf].
  rewrite (season_counts_getitem_present k inner); [exact H | congruence | exact Hn].
Qed.

(** ** The increment *)

(** The increment touches the table only, and what it does to the table
    and how it ends depend on the table only. *)
Lemma increment_eq (season author : pyval) (w : world) :
  increment season author w =
  (fst (increment season author (mkWorld (season_counts w) [] [] 0)),
   with_counts (incremented season author (season_counts w)) w).
Proof.
  unfold incremented, increment, season_counts_getitem, with_counts.
  destruct w as [t c l n]. cbn [season_counts chart logged closed].
  destruct (hashable season); [|reflexivity].
  unfold bind, get_counts, put_counts, ret, raise. cbn [season_counts chart logged closed].
  destruct (dict_find season t) as [inner|]; destruct (hashable author); reflexivity.
Qed.

Lemma increment_returns (season author : pyval) (w : world) :
  hashable season = true -> hashable author = true ->
  fst (increment season author w) = Ret tt.
Proof.
  intros Hs Ha. unfold increment, season_counts_getitem. rewrite Hs.
  unfold bind, get_counts, put_counts, ret.
  destruct (dict_find season (season_counts w)); cbn; rewrite Ha; reflexivity.
Qed.

Lemma dict_find_key_eqb {V : Type} (k k' : pyval) (d : list (pyval * V)) :
  key_eqb k k' = true -> dict_find k d = dict_find k' d.
Proof.
  intros H. induction d as [|[k0 v0] d IH]; simpl; [reflexivity|].
  rewrite (key_eqb_sym k0 k), (key_eqb_sym k0 k'), <- (key_eqb_trans k' k k0).
  - rewrite IH. reflexivity.
  - rewrite key_eqb_sym. exact H.
Qed.

Lemma counts_get_set (a a' : pyval) (n : Z) (inner : counts) :
  counts_get a' (dict_set a n inner) = if key_eqb a a' then n else counts_get a' inner.
Proof.
  unfold counts_get. rewrite dict_find_set. destruct (key_eqb a a'); reflexivity.
Qed.

Lemma counts_get_key_eqb (a a' : pyval) (inner : counts) :
  key_eqb a a' = true -> counts_get a inner = counts_get a' inner.
Proof. intros H. unfold counts_get. rewrite (dict_find_key_eqb a a' inner H). reflexivity. Qed.

(** What the completed increment does to the counts. *)
Lemma count_incremented (season author s a : pyval) (t : table) :
  hashable season = true -> hashable author = true ->
  count (incremented season author t) s a =
  count t s a + (if key_eqb season s && key_eqb author a then 1 else 0).
Proof.
  intros Hs Ha. unfold incremented, increment, season_counts_getitem.
  rewrite Hs. unfold bind, get_counts, put_counts, ret.
  cbn [season_counts chart logged closed snd fst].
  destruct (dict_find season t) as [inner|] eqn:Hf; cbn [season_counts snd]; rewrite Ha;
    cbn [season_counts snd]; unfold count.
  - rewrite dict_find_set. destruct (key_eqb season s) eqn:Es; cbn [andb].
    + rewrite <- (dict_find_key_eqb season s t Es), Hf, counts_get_set.
      destruct (key_eqb author a) eqn:Ea.
      * rewrite (counts_get_key_eqb author a inner Ea). reflexivity.
      * lia.
    + lia.
  - rewrite dict_find_set. destruct (key_eqb season s) eqn:Es; cbn [andb].
    + rewrite <- (dict_find_key_eqb season s t Es), Hf, counts_get_set.
      destruct (key_eqb author a); reflexivity.
    + rewrite dict_find_app_none by exact Hf. rewrite Es. lia.
Qed.

(** An increment that raises leaves every count as it was (it may have
    created the season, empty). *)
Lemma count_incremented_raise (season author s a : pyval) (t : table) :
  hashable season = false \/ hashable author = false ->
  count (incremented season author t) s a = count t s a.
Proof.
  intros H. unfold incremented, increment, season_counts_getitem.
  destruct (hashable season) eqn:Hs; [|reflexivity].
  destruct H as [H|Ha]; [discriminate|].
  unfold bind, get_counts, put_counts, ret, raise.
  cbn [season_counts chart logged closed snd fst].
  destruct (dict_find season t) as [inner|] eqn:Hf; cbn [season_counts snd]; rewrite Ha;
    cbn [season_counts snd]; [reflexivity|].
  unfold count. rewrite dict_find_app_none by exact Hf.
  destruct (key_eqb season s) eqn:Es; [|reflexivity].
  rewrite <- (dict_find_key_eqb season s t Es), Hf. reflexivity.
Qed.

Lemma dict_find_Forall {V : Type} (P : V -> Prop) (k : pyval) (v : V)
    (d : list (pyval * V)) :
  Forall (fun e => P (snd e)) d -> dict_find k d = Some v -> P v.
Proof.
  induction 1 as [|[k0 v0] d Hh _ IH]; simpl; [discriminate|].
  destruct (key_eqb k0 k); [|exact IH]. intros E. injection E as <-. exact Hh.
Qed.

Lemma dict_set_Forall {V : Type} (P : V -> Prop) (k : pyval) (v : V)
    (d : list (pyval * V)) :
  Forall (fun e => P (snd e)) d -> P v -> Forall (fun e => P (snd e)) (dict_set k v d).
Proof.
  induction 1 as [|[k0 v0] d Hh Ht IH]; simpl; intros Hv.
  - repeat constructor. exact Hv.
  - destruct (key_eqb k0 k); constructor; auto.
Qed.

Lemma counts_get_nonneg (a : pyval) (inner : counts) :
  Forall (fun kv => 0 <= snd kv) inner -> 0 <= counts_get a inner.
Proof.
  intros H. unfold counts_get. destruct (dict_find a inner) as [n|] eqn:E; [|lia].
  exact (dict_find_Forall (fun n => 0 <= n) a n inner H E).
Qed.

Lemma nonneg_incremented (season author : pyval) (t : table) :
  nonneg t -> nonneg (incremented season author t).
Proof.
  unfold nonneg. intros H. unfold incremented, increment, season_counts_getitem.
  destruct (hashable season); [|exact H].
  unfold bind, get_counts, put_counts, ret, raise.
  cbn [season_counts chart logged closed snd fst].
  assert (Hnew : Forall (fun entry : pyval * counts =>
                           Forall (fun kv => 0 <= snd kv) (snd entry))
                        (t ++ [(season, [])])).
  { apply Forall_app. split; [exact H | repeat constructor]. }
  destruct (dict_find season t) as [inner|] eqn:Hf; cbn [season_counts snd];
    destruct (hashable author); cbn [season_counts snd]; try assumption.
  - assert (Hi : Forall (fun kv => 0 <= snd kv) inner)
      by exact (dict_find_Forall (fun i => Forall (fun kv => 0 <= snd kv) i) _ _ _ H Hf).
    apply (dict_set_Forall (fun i => Forall (fun kv : pyval * Z => 0 <= snd kv) i)); [exact H|].
    apply (dict_set_Forall (fun n => 0 <= n)); [exact Hi|].
    pose proof (counts_get_nonneg author inner Hi). lia.
  - apply (dict_set_Forall (fun i => Forall (fun kv : pyval * Z => 0 <= snd kv) i));
      [exact Hnew|].
    apply (dict_set_Forall (fun n => 0 <= n)); [constructor | cbn; lia].
Qed.

(** ** The message handler *)

Arguments update_chart : simpl never.
Arguments increment : simpl never.

(** The exception classes [int] raises. *)
Lemma py_int_raise (k : pyval) (e : exn) :
  py_int k = Raise e -> e = ValueError \/ e = TypeError \/ e = OverflowError.
Proof.
  destruct k as [| b | z | x | s | xs | items]; simpl; intros H;
    try discriminate; try (injection H as <-; auto).
  - destruct x; try discriminate; injection H as <-; auto.
  - destruct (int_of_str s); [discriminate | injection H as <-; auto].
Qed.

Section Handler.

Variable json_loads : string -> outcome pyval.

(** The table after a message: the increment of a decoded object, run
    once, and nothing else. *)
Lemma process_message_counts (message : string) (w : world) :
  season_counts (snd (process_message json_loads message w)) =
  match json_loads message with
  | Ret (PDict items) =>
      incremented (season_of items) (author_of items) (season_counts w)
  | _ => season_counts w
  end.
Proof.
  unfold process_message, try_except, bind, logger, lift.
  destruct (json_loads message) as [v|e] eqn:E; cbn.
  2: { destruct e; reflexivity. }
  destruct v as [| b | z | x | s | xs | items]; try reflexivity.
  fold (season_of items) (author_of items).
  rewrite increment_eq. cbn.
  destruct (fst (increment _ _ _)) as [[]|e]; cbn.
  2: { destruct e; reflexivity. }
  match goal with |- context [update_chart ?w1] =>
    pose proof (update_chart_counts w1) as Hu;
    destruct (update_chart w1) as [[[]|e] w2] end; cbn in *.
  - exact Hu.
  - destruct e; exact Hu.
Qed.

(** A message is answered by an exception only when the exception is not
    an [Exception]. *)
Lemma process_message_raise (message : string) (w : world) (e : exn) :
  fst (process_message json_loads message w) = Raise e -> is_Exception e = false.
Proof.
  unfold process_message, try_except.
  match goal with |- context [bind ?a ?b w] => destruct (bind a b w) as [[[]|e'] w'] end.
  - discriminate.
  - destruct e'; cbn; intros H; try discriminate; injection H as <-; reflexivity.
Qed.

End Handler.

(** ** What the handler and the loop keep

    An invariant that no plotting call, no log record and no store into
    the table breaks holds throughout [process_message] and the loop. *)
Section Frame.

Variable I : world -> Prop.
Hypothesis I_plot : forall c, preserves I (plot c).
Hypothesis I_logger : forall l x, preserves I (logger l x).
Hypothesis I_put_counts : forall t, preserves I (put_counts t).

Lemma preserves_season_counts_getitem (k : pyval) :
  preserves I (season_counts_getitem k).
Proof.
  unfold season_counts_getitem. destruct (hashable k); [|apply preserves_raise].
  apply preserves_bind; [apply preserves_get_counts | intros t].
  destruct (dict_find k t); [apply preserves_ret|].
  apply preserves_bind; [apply I_put_counts | intros _; apply preserves_ret].
Qed.

Lemma preserves_increment (season author : pyval) :
  preserves I (increment season author).
Proof.
  unfold increment.
  apply preserves_bind; [apply preserves_season_counts_getitem | intros inner].
  destruct (hashable author); [|apply preserves_raise].
  apply preserves_bind; [apply preserves_get_counts | intros t; apply I_put_counts].
Qed.

Lemma preserves_update_chart : preserves I update_chart.
Proof.
  unfold update_chart.
  apply preserves_bind; [apply I_plot | intros _].
  apply preserves_bind; [apply preserves_get_counts | intros t].
  apply preserves_bind; [apply preserves_lift | intros sorted].
  apply preserves_draw_chart; [exact I_plot|].
  intros k _. apply preserves_season_counts_getitem.
Qed.

Variable json_loads : string -> outcome pyval.

Lemma preserves_process_message (message : string) :
  preserves I (process_message json_loads message).
Proof.
  unfold process_message. apply preserves_try_except.
  - apply preserves_bind; [apply I_logger | intros _].
    apply preserves_bind; [apply preserves_lift | intros v].
    apply preserves_bind; [apply I_logger | intros _].
    destruct v; try apply I_logger.
    apply preserves_bind; [apply I_logger | intros _].
    apply preserves_bind; [apply preserves_increment | intros _].
    apply preserves_bind; [apply preserves_get_counts | intros t].
    apply preserves_bind; [apply I_logger | intros _].
    apply preserves_bind; [apply preserves_update_chart | intros _].
    apply I_logger.
  - intros e. destruct e; cbn [is_Exception];
      first [apply I_logger | apply preserves_raise].
Qed.

Lemma preserves_consume (consumer : list pulled) :
  preserves I (consume json_loads consumer).
Proof.
  induction consumer as [|[m|e] rest IH]; simpl.
  - apply preserves_ret.
  - apply preserves_bind; [apply I_logger | intros _].
    apply preserves_bind; [apply preserves_process_message | intros _; exact IH].
  - apply preserves_raise.
Qed.

End Frame.

(** Neither the handler nor the loop closes the consumer. *)
Lemma consume_closed (json_loads : string -> outcome pyval)
    (consumer : list pulled) (w : world) :
  closed (snd (consume json_loads consumer w)) = closed w.
Proof.
  apply (preserves_consume (fun w' => closed w' = closed w));
    try (intros; intros w' H; exact H). reflexivity.
Qed.

(** ** The renderer reads the table and plots *)

Lemma with_calls_nil (w : world) : with_calls [] w = w.
Proof. destruct w. unfold with_calls. cbn. rewrite app_nil_r. reflexivity. Qed.

Lemma with_calls_app (a b : list plot_call) (w : world) :
  with_calls b (with_calls a w) = with_calls (a ++ b) w.
Proof. unfold with_calls. cbn. rewrite app_assoc. reflexivity. Qed.

Lemma reads_only_ret {A : Type} (a : A) (t : table) : reads_only (ret a) t.
Proof. intros w _. unfold run, ret. cbn. rewrite with_calls_nil. reflexivity. Qed.

Lemma reads_only_raise {A : Type} (e : exn) (t : table) : reads_only (@raise A e) t.
Proof. intros w _. unfold run, raise. cbn. rewrite with_calls_nil. reflexivity. Qed.

Lemma reads_only_lift {A : Type} (r : outcome A) (t : table) : reads_only (lift r) t.
Proof. intros w _. unfold run, lift. cbn. rewrite with_calls_nil. reflexivity. Qed.

Lemma reads_only_plot (c : plot_call) (t : table) : reads_only (plot c) t.
Proof. intros w _. reflexivity. Qed.

Lemma reads_only_get_counts (t : table) : reads_only get_counts t.
Proof.
  intros w H. unfold run, get_counts. cbn [fst snd blank season_counts chart].
  rewrite with_calls_nil. subst t. reflexivity.
Qed.

Lemma reads_only_index {A : Type} (l : list A) (i : nat) (t : table) :
  reads_only (index l i) t.
Proof.
  unfold index. destruct (nth_error l i); [apply reads_only_ret | apply reads_only_raise].
Qed.

Lemma reads_only_dict_getitem {V : Type} (d : list (pyval * V)) (k : pyval) (t : table) :
  reads_only (dict_getitem d k) t.
Proof.
  unfold dict_getitem. destruct (hashable k); [|apply reads_only_raise].
  destruct (dict_find k d); [apply reads_only_ret | apply reads_only_raise].
Qed.

Lemma reads_only_season_counts_getitem (k : pyval) (inner : counts) (t : table) :
  dict_find k t = Some inner -> hashable k = true ->
  reads_only (season_counts_getitem k) t /\
  run (season_counts_getitem k) t = (Ret inner, []).
Proof.
  intros Hf Hk. split.
  - intros w H. unfold run.
    rewrite (season_counts_getitem_present k inner (blank t)) by assumption.
    rewrite (season_counts_getitem_present k inner w) by (try rewrite H; assumption).
    cbn. rewrite with_calls_nil. reflexivity.
  - unfold run. rewrite (season_counts_getitem_present k inner (blank t)) by assumption.
    reflexivity.
Qed.

Lemma run_plot (c : plot_call) (t : table) : run (plot c) t = (Ret tt, [c]).
Proof. reflexivity. Qed.

Lemma run_bind {A B : Type} (m : M A) (k : A -> M B) (t : table) :
  reads_only m t -> (forall a, reads_only (k a) t) ->
  run (bind m k) t = then_ (run m t) (fun a => run (k a) t).
Proof.
  intros Hm Hk. unfold run at 1, bind. rewrite (Hm (blank t) eq_refl).
  unfold then_. destruct (fst (run m t)) as [a|e]; cbn [fst snd].
  - rewrite (Hk a (with_calls (snd (run m t)) (blank t)) eq_refl). reflexivity.
  - reflexivity.
Qed.

Lemma reads_only_bind {A B : Type} (m : M A) (k : A -> M B) (t : table) :
  reads_only m t -> (forall a, reads_only (k a) t) -> reads_only (bind m k) t.
Proof.
  intros Hm Hk w H. rewrite run_bind by assumption.
  unfold bind, then_. rewrite (Hm w H).
  destruct (fst (run m t)) as [a|e]; cbn [fst snd].
  - rewrite (Hk a (with_calls (snd (run m t)) w)) by exact H.
    rewrite with_calls_app. reflexivity.
  - reflexivity.
Qed.

Lemma reads_only_list_comp {A B : Type} (f : A -> M B) (l : list A) (t : table) :
  (forall x, In x l -> reads_only (f x) t) -> reads_only (list_comp f l) t.
Proof.
  induction l as [|x l IH]; simpl; intros Hf.
  - apply reads_only_ret.
  - apply reads_only_bind; [auto|]. intros y.
    apply reads_only_bind; [auto|]. intros ys. apply reads_only_ret.
Qed.

Lemma reads_only_foldM {A S : Type} (body : S -> A -> M S) (l : list A) (s : S)
    (t : table) :
  (forall s x, In x l -> reads_only (body s x) t) -> reads_only (foldM body l s) t.
Proof.
  revert s. induction l as [|x l IH]; simpl; intros s Hf.
  - apply reads_only_ret.
  - apply reads_only_bind; [auto|]. intros s'. apply IH. auto.
Qed.

Lemma reads_only_for_each {A : Type} (l : list A) (body : A -> M unit) (t : table) :
  (forall x, In x l -> reads_only (body x) t) -> reads_only (for_each l body) t.
Proof.
  induction l as [|x l IH]; simpl; intros Hf.
  - apply reads_only_ret.
  - apply reads_only_bind; [auto|]. intros _. auto.
Qed.

Lemma count_lookup (t : table) (season author : pyval) :
  count t season author = counts_get author (lookup t season).
Proof. unfold count, lookup. destruct (dict_find season t); reflexivity. Qed.

Lemma season_total_lookup (t : table) (season : pyval) :
  season_total t season = sum_values (lookup t season).
Proof. unfold season_total, lookup. destruct (dict_find season t); reflexivity. Qed.

Lemma present_getitem (t : table) (k : pyval) :
  present t k ->
  reads_only (season_counts_getitem k) t /\
  run (season_counts_getitem k) t = (Ret (lookup t k), []).
Proof.
  intros [Hk [inner Hf]]. unfold lookup. rewrite Hf.
  apply reads_only_season_counts_getitem; assumption.
Qed.

(** A read of a season followed by a pure computation. *)
Lemma read_season {B : Type} (f : counts -> B) (t : table) (k : pyval) :
  present t k ->
  reads_only (inner <- season_counts_getitem k ;; ret (f inner)) t /\
  run (inner <- season_counts_getitem k ;; ret (f inner)) t = (Ret (f (lookup t k)), []).
Proof.
  intros Hp. destruct (present_getitem t k Hp) as [Hr He]. split.
  - apply reads_only_bind; [exact Hr | intros; apply reads_only_ret].
  - rewrite run_bind by (try exact Hr; intros; apply reads_only_ret).
    rewrite He. reflexivity.
Qed.

Lemma run_list_comp_reads {B : Type} (f : pyval -> counts -> B) (t : table)
    (seasons : list pyval) :
  Forall (present t) seasons ->
  reads_only (list_comp (fun season => inner <- season_counts_getitem season ;;
                                  ret (f season inner)) seasons) t /\
  run (list_comp (fun season => inner <- season_counts_getitem season ;;
                           ret (f season inner)) seasons) t =
  (Ret (map (fun season => f season (lookup t season)) seasons), []).
Proof.
  induction 1 as [|k l Hk Hl [IHr IHe]]; simpl.
  - split; [apply reads_only_ret | reflexivity].
  - destruct (read_season (f k) t k Hk) as [Hr He].
    assert (Hrest : forall y : B,
      reads_only (ys <- list_comp (fun season => inner <- season_counts_getitem season ;;
                                            ret (f season inner)) l ;; ret (y :: ys)) t)
      by (intros y; apply reads_only_bind; [exact IHr | intros; apply reads_only_ret]).
    split.
    + apply reads_only_bind; [exact Hr | exact Hrest].
    + rewrite run_bind by (try exact Hr; exact Hrest). rewrite He.
      unfold then_. cbn [fst snd].
      rewrite run_bind by (try exact IHr; intros; apply reads_only_ret).
      rewrite IHe. reflexivity.
Qed.

Lemma run_foldM_reads {S : Type} (f : S -> pyval -> counts -> S) (t : table)
    (seasons : list pyval) (s : S) :
  Forall (present t) seasons ->
  reads_only (foldM (fun d season => inner <- season_counts_getitem season ;;
                                     ret (f d season inner)) seasons s) t /\
  run (foldM (fun d season => inner <- season_counts_getitem season ;;
                              ret (f d season inner)) seasons s) t =
  (Ret (fold_left (fun d season => f d season (lookup t season)) seasons s), []).
Proof.
  intros H. revert s. induction H as [|k l Hk Hl IH]; simpl; intros s.
  - split; [apply reads_only_ret | reflexivity].
  - destruct (read_season (f s k) t k Hk) as [Hr He]. split.
    + apply reads_only_bind; [exact Hr | intros s'; apply IH].
    + rewrite run_bind by (try exact Hr; intros s'; apply IH). rewrite He.
      unfold then_. cbn [fst snd]. rewrite (proj2 (IH _)). reflexivity.
Qed.

(** A loop whose turns only plot: every call comes from a turn, and a loop
    that completes has completed each turn. *)
Lemma run_for_each_in {A : Type} (l : list A) (body : A -> M unit) (t : table)
    (c : plot_call) :
  (forall x, In x l -> reads_only (body x) t) ->
  In c (snd (run (for_each l body) t)) ->
  exists x, In x l /\ In c (snd (run (body x) t)).
Proof.
  induction l as [|x l IH]; cbn [for_each]; intros Hr Hin.
  - contradiction.
  - assert (Hx : reads_only (body x) t) by (apply Hr; left; reflexivity).
    assert (Hl : forall y, In y l -> reads_only (body y) t)
      by (intros y Hy; apply Hr; right; exact Hy).
    rewrite run_bind in Hin by (try exact Hx; intros; apply reads_only_for_each, Hl).
    unfold then_ in Hin. destruct (fst (run (body x) t)) as [[]|e]; cbn [snd] in Hin.
    + apply in_app_or in Hin as [Hin|Hin].
      * exists x. split; [left; reflexivity | exact Hin].
      * destruct (IH Hl Hin) as (y & Hy & Hc).
        exists y. split; [right; exact Hy | exact Hc].
    + exists x. split; [left; reflexivity | exact Hin].
Qed.

Lemma run_for_each_ret {A : Type} (l : list A) (body : A -> M unit) (t : table) :
  (forall x, In x l -> reads_only (body x) t) ->
  fst (run (for_each l body) t) = Ret tt ->
  forall x, In x l ->
    fst (run (body x) t) = Ret tt /\
    incl (snd (run (body x) t)) (snd (run (for_each l body) t)).
Proof.
  induction l as [|x l IH]; cbn [for_each]; intros Hr Hret y Hy.
  - contradiction.
  - assert (Hx : reads_only (body x) t) by (apply Hr; left; reflexivity).
    assert (Hl : forall z, In z l -> reads_only (body z) t)
      by (intros z Hz; apply Hr; right; exact Hz).
    rewrite run_bind in * by (try exact Hx; intros; apply reads_only_for_each, Hl).
    unfold then_ in *. destruct (fst (run (body x) t)) as [[]|e] eqn:Ex;
      cbn [fst snd] in *; [|discriminate].
    destruct Hy as [<-|Hy].
    + split; [exact Ex | apply incl_appl, incl_refl].
    + destruct (IH Hl Hret y Hy) as [H1 H2].
      split; [exact H1 | apply incl_appr, H2].
Qed.

Lemma enumerate_from_in {A : Type} (l : list A) (n i : nat) (x : A) :
  In (i, x) (enumerate_from n l) <-> (n <= i)%nat /\ nth_error l (i - n) = Some x.
Proof.
  revert n. induction l as [|y l IH]; simpl; intros n.
  - split; [contradiction|]. intros [_ H]. destruct (i - n)%nat; discriminate.
  - rewrite IH. split.
    + intros [E|[Hle Hn]].
      * injection E as <- <-. rewrite Nat.sub_diag. split; [lia | reflexivity].
      * split; [lia|]. replace (i - n)%nat with (S (i - S n)) by lia. exact Hn.
    + intros [Hle Hn]. destruct (i - n)%nat as [|j] eqn:Ej.
      * left. injection Hn as <-. f_equal. lia.
      * right. split; [lia|]. replace (i - S n)%nat with j by lia. exact Hn.
Qed.

Lemma enumerate_in {A : Type} (l : list A) (i : nat) (x : A) :
  In (i, x) (enumerate l) <-> nth_error l i = Some x.
Proof.
  unfold enumerate. rewrite enumerate_from_in, Nat.sub_0_r.
  split; [intros [_ H]; exact H | intros H; split; [lia | exact H]].
Qed.

(** ** The labels and the bars *)

Arguments int_truediv : simpl never.
Arguments float_times_int : simpl never.
Arguments int_plus_float : simpl never.
Arguments format_1f : simpl never.

Lemma reads_only_draw_label sorted_seasons totals bottom_counts author ic (t : table) :
  reads_only (draw_label sorted_seasons totals bottom_counts author ic) t.
Proof.
  unfold draw_label. destruct ic as [i n]. destruct (0 <? n); [|apply reads_only_ret].
  repeat (apply reads_only_bind; [|intros ?]);
    auto using reads_only_index, reads_only_dict_getitem, reads_only_lift, reads_only_plot.
Qed.

(** A label is drawn for a positive count only; its text is the percentage
    of the count in the season's total. *)
Lemma draw_label_calls sorted_seasons totals bottom_counts author (i : nat) (n : Z)
    (t : table) (c : plot_call) :
  In c (snd (run (draw_label sorted_seasons totals bottom_counts author (i, n)) t)) ->
  exists x y s color total,
    c = AxText x y s color /\ 0 < n /\ nth_error sorted_seasons i = Some x /\
    dict_find x totals = Some total /\ percentage_label n total = Ret s.
Proof.
  unfold run, draw_label. destruct (0 <? n) eqn:En; [|intros []].
  apply Z.ltb_lt in En.
  unfold bind, index, dict_getitem, lift, plot, ret, raise, percentage_label.
  destruct (nth_error sorted_seasons i) as [x|] eqn:Ex; cbn; [|intros []].
  destruct (hashable x); cbn; [|intros []].
  destruct (dict_find x totals) as [total|] eqn:Et; cbn; [|intros []].
  destruct (int_truediv n total) as [q|e] eqn:Eq; cbn; [|intros []].
  destruct (float_times_int q 100) as [p|e] eqn:Ep; cbn; [|intros []].
  destruct (nth_error bottom_counts i) as [b|]; cbn; [|intros []].
  destruct (int_truediv n 2) as [h|e]; cbn; [|intros []].
  destruct (int_plus_float b h) as [y|e]; cbn; [|intros []].
  intros [<-|[]]. exists x, y, (format_1f p ++ "%")%string.
  eexists. exists total. rewrite Eq, Ep. repeat split; try reflexivity; assumption.
Qed.

Lemma draw_label_ret sorted_seasons totals bottom_counts author (i : nat) (n : Z)
    (t : table) :
  fst (run (draw_label sorted_seasons totals bottom_counts author (i, n)) t) = Ret tt ->
  0 < n ->
  exists x y s color total,
    snd (run (draw_label sorted_seasons totals bottom_counts author (i, n)) t)
      = [AxText x y s color] /\
    nth_error sorted_seasons i = Some x /\
    dict_find x totals = Some total /\ percentage_label n total = Ret s.
Proof.
  unfold run, draw_label. intros H Hn. apply Z.ltb_lt in Hn. rewrite Hn in *.
  revert H.
  unfold bind, index, dict_getitem, lift, plot, ret, raise, percentage_label.
  destruct (nth_error sorted_seasons i) as [x|] eqn:Ex; cbn; [|discriminate].
  destruct (hashable x); cbn; [|discriminate].
  destruct (dict_find x totals) as [total|] eqn:Et; cbn; [|discriminate].
  destruct (int_truediv n total) as [q|e] eqn:Eq; cbn; [|discriminate].
  destruct (float_times_int q 100) as [p|e] eqn:Ep; cbn; [|discriminate].
  destruct (nth_error bottom_counts i) as [b|]; cbn; [|discriminate].
  destruct (int_truediv n 2) as [h|e]; cbn; [|discriminate].
  destruct (int_plus_float b h) as [y|e]; cbn; [|discriminate].
  intros _. exists x, y, (format_1f p ++ "%")%string.
  eexists. exists total. rewrite Eq, Ep. repeat split; try reflexivity; assumption.
Qed.

Lemma run_foldM_in {A S : Type} (body : S -> A -> M S) (l : list A) (s : S)
    (t : table) (c : plot_call) :
  (forall s x, In x l -> reads_only (body s x) t) ->
  In c (snd (run (foldM body l s) t)) ->
  exists s' x, In x l /\ In c (snd (run (body s' x) t)).
Proof.
  revert s. induction l as [|x l IH]; cbn [foldM]; intros s Hr Hin.
  - contradiction.
  - assert (Hx : forall s, reads_only (body s x) t) by (intros; apply Hr; left; reflexivity).
    assert (Hl : forall s y, In y l -> reads_only (body s y) t)
      by (intros s0 y Hy; apply Hr; right; exact Hy).
    rewrite run_bind in Hin by (try apply Hx; intros; apply reads_only_foldM, Hl).
    unfold then_ in Hin. destruct (fst (run (body s x) t)) as [s1|e]; cbn [snd] in Hin.
    + apply in_app_or in Hin as [Hin|Hin].
      * exists s, x. split; [left; reflexivity | exact Hin].
      * destruct (IH s1 Hl Hin) as (s' & y & Hy & Hc).
        exists s', y. split; [right; exact Hy | exact Hc].
    + exists s, x. split; [left; reflexivity | exact Hin].
Qed.

Lemma run_foldM_ret {A S : Type} (body : S -> A -> M S) (l : list A) (s s1 : S)
    (t : table) :
  (forall s x, In x l -> reads_only (body s x) t) ->
  fst (run (foldM body l s) t) = Ret s1 ->
  forall x, In x l ->
    exists s' s'', fst (run (body s' x) t) = Ret s'' /\
                   incl (snd (run (body s' x) t)) (snd (run (foldM body l s) t)).
Proof.
  revert s. induction l as [|x l IH]; cbn [foldM]; intros s Hr Hret y Hy.
  - contradiction.
  - assert (Hx : forall s, reads_only (body s x) t) by (intros; apply Hr; left; reflexivity).
    assert (Hl : forall s z, In z l -> reads_only (body s z) t)
      by (intros s0 z Hz; apply Hr; right; exact Hz).
    rewrite run_bind in * by (try apply Hx; intros; apply reads_only_foldM, Hl).
    unfold then_ in *. destruct (fst (run (body s x) t)) as [s2|e] eqn:Ex;
      cbn [fst snd] in *; [|discriminate].
    destruct Hy as [<-|Hy].
    + exists s, s2. split; [exact Ex | apply incl_appl, incl_refl].
    + destruct (IH s2 Hl Hret y Hy) as (s' & s'' & H1 & H2).
      exists s', s''. split; [exact H1 | apply incl_appr, H2].
Qed.

(** One author: the bar, then the labels of the positive segments. *)
Lemma draw_author_run sorted_seasons totals bottom_counts author color (t : table) :
  Forall (present t) sorted_seasons ->
  reads_only (draw_author sorted_seasons totals bottom_counts (author, color)) t /\
  run (draw_author sorted_seasons totals bottom_counts (author, color)) t =
  then_ (Ret tt, [AxBar sorted_seasons (heights t sorted_seasons author)
                        bottom_counts color author])
    (fun _ =>
       then_ (run (for_each (enumerate (heights t sorted_seasons author))
                            (draw_label sorted_seasons totals bottom_counts author)) t)
         (fun _ => (Ret (map (fun bc => fst bc + snd bc)
                             (combine bottom_counts (heights t sorted_seasons author))),
                    []))).
Proof.
  intros Hp. unfold draw_author.
  destruct (run_list_comp_reads (fun _ inner => counts_get (PStr author) inner)
              t sorted_seasons Hp) as [Hr He].
  assert (Hh : map (fun season => counts_get (PStr author) (lookup t season)) sorted_seasons
               = heights t sorted_seasons author)
    by (unfold heights; apply map_ext; intros; symmetry; apply count_lookup).
  rewrite Hh in He.
  assert (Hlabels : forall l, reads_only
            (for_each l (draw_label sorted_seasons totals bottom_counts author)) t)
    by (intros l; apply reads_only_for_each; intros; apply reads_only_draw_label).
  assert (Hrest : forall amc, reads_only
            (plot (AxBar sorted_seasons amc bottom_counts color author) ;;
             for_each (enumerate amc)
                      (draw_label sorted_seasons totals bottom_counts author) ;;
             ret (map (fun bc => fst bc + snd bc) (combine bottom_counts amc))) t).
  { intros amc. apply reads_only_bind; [apply reads_only_plot | intros _].
    apply reads_only_bind; [apply Hlabels | intros _; apply reads_only_ret]. }
  split.
  - apply reads_only_bind; [exact Hr | exact Hrest].
  - rewrite run_bind by (try exact Hr; exact Hrest). rewrite He.
    unfold then_ at 1. cbn [fst snd app].
    rewrite run_bind
      by first [ apply reads_only_plot
               | intros _; apply reads_only_bind;
                 [apply Hlabels | intros _; apply reads_only_ret] ].
    rewrite run_plot. f_equal.
    unfold then_ at 1 3. cbn [fst snd].
    rewrite run_bind by (try apply Hlabels; intros _; apply reads_only_ret).
    reflexivity.
Qed.

Lemma bar_labels_app (a b : list plot_call) :
  bar_labels (a ++ b) = bar_labels a ++ bar_labels b.
Proof. unfold bar_labels. apply flat_map_app. Qed.

Lemma bar_labels_texts (l : list plot_call) :
  (forall c, In c l -> exists x y s color, c = AxText x y s color) ->
  bar_labels l = [].
Proof.
  induction l as [|c l IH]; intros H; [reflexivity|].
  destruct (H c (or_introl eq_refl)) as (x & y & s & color & ->).
  cbn. apply IH. intros c' Hc'. apply H. right. exact Hc'.
Qed.

Lemma labels_calls sorted_seasons totals bottom_counts author (t : table)
    (c : plot_call) :
  In c (snd (run (for_each (enumerate (heights t sorted_seasons author))
                           (draw_label sorted_seasons totals bottom_counts author)) t)) ->
  exists x y s color total,
    c = AxText x y s color /\ In x sorted_seasons /\
    0 < count t x (PStr author) /\ dict_find x totals = Some total /\
    percentage_label (count t x (PStr author)) total = Ret s.
Proof.
  intros Hin.
  apply run_for_each_in in Hin; [|intros; apply reads_only_draw_label].
  destruct Hin as ([i n] & Hen & Hc). apply enumerate_in in Hen.
  apply draw_label_calls in Hc as (x & y & s & color & total & -> & Hn & Hx & Ht & Hl).
  unfold heights in Hen. rewrite nth_error_map, Hx in Hen. injection Hen as <-.
  exists x, y, s, color, total. repeat split; try assumption.
  eapply nth_error_In, Hx.
Qed.

Lemma labels_ret sorted_seasons totals bottom_counts author (t : table) (x : pyval) :
  fst (run (for_each (enumerate (heights t sorted_seasons author))
                     (draw_label sorted_seasons totals bottom_counts author)) t) = Ret tt ->
  In x sorted_seasons -> 0 < count t x (PStr author) ->
  exists y s color total,
    In (AxText x y s color)
       (snd (run (for_each (enumerate (heights t sorted_seasons author))
                           (draw_label sorted_seasons totals bottom_counts author)) t)) /\
    dict_find x totals = Some total /\
    percentage_label (count t x (PStr author)) total = Ret s.
Proof.
  intros Hret Hx Hn. apply In_nth_error in Hx as [i Hi].
  assert (Hen : In (i, count t x (PStr author))
                   (enumerate (heights t sorted_seasons author))).
  { apply enumerate_in. unfold heights. rewrite nth_error_map, Hi. reflexivity. }
  destruct (run_for_each_ret _ _ t
              (fun ic _ => reads_only_draw_label _ _ _ _ ic t) Hret _ Hen) as [Hr Hincl].
  destruct (draw_label_ret _ _ _ _ _ _ _ Hr Hn)
    as (x' & y & s & color & total & Hcalls & Hx' & Ht & Hl).
  assert (x' = x) by congruence. subst x'.
  exists y, s, color, total. repeat split; try assumption.
  apply Hincl. rewrite Hcalls. left. reflexivity.
Qed.

(** The calls of one author. *)
Lemma draw_author_calls sorted_seasons totals bottom_counts author color (t : table)
    (c : plot_call) :
  Forall (present t) sorted_seasons ->
  In c (snd (run (draw_author sorted_seasons totals bottom_counts (author, color)) t)) ->
  c = AxBar sorted_seasons (heights t sorted_seasons author) bottom_counts color author \/
  exists x y s color' total,
    c = AxText x y s color' /\ In x sorted_seasons /\
    0 < count t x (PStr author) /\ dict_find x totals = Some total /\
    percentage_label (count t x (PStr author)) total = Ret s.
Proof.
  intros Hp. rewrite (proj2 (draw_author_run _ totals bottom_counts author color t Hp)).
  unfold then_. cbn [fst snd app]. intros [<-|Hin]; [left; reflexivity | right].
  destruct (fst (run (for_each _ _) t)); cbn [snd] in Hin;
    [rewrite app_nil_r in Hin|]; eapply labels_calls, Hin.
Qed.

Lemma draw_author_bar_labels sorted_seasons totals bottom_counts author color (t : table) :
  Forall (present t) sorted_seasons ->
  bar_labels (snd (run (draw_author sorted_seasons totals bottom_counts
                                    (author, color)) t)) = [author].
Proof.
  intros Hp. rewrite (proj2 (draw_author_run _ totals bottom_counts author color t Hp)).
  unfold then_. cbn [fst snd app bar_labels flat_map]. f_equal.
  apply bar_labels_texts. intros c Hin.
  destruct (fst (run (for_each _ _) t)); cbn [snd] in Hin;
    [rewrite app_nil_r in Hin|];
    apply labels_calls in Hin as (x & y & s & color' & _ & -> & _); eauto.
Qed.

Lemma draw_author_ret sorted_seasons totals bottom_counts author color (t : table)
    (b' : list Z) (x : pyval) :
  Forall (present t) sorted_seasons ->
  fst (run (draw_author sorted_seasons totals bottom_counts (author, color)) t) = Ret b' ->
  In x sorted_seasons -> 0 < count t x (PStr author) ->
  exists y s color' total,
    In (AxText x y s color')
       (snd (run (draw_author sorted_seasons totals bottom_counts (author, color)) t)) /\
    dict_find x totals = Some total /\
    percentage_label (count t x (PStr author)) total = Ret s.
Proof.
  intros Hp. rewrite (proj2 (draw_author_run _ totals bottom_counts author color t Hp)).
  unfold then_. cbn [fst snd app]. intros Hret Hx Hn.
  destruct (fst (run (for_each _ _) t)) as [[]|e] eqn:El; cbn [fst snd] in *;
    [|discriminate].
  destruct (labels_ret _ totals bottom_counts author t x El Hx Hn)
    as (y & s & color' & total & Hin & Ht & Hl).
  exists y, s, color', total. repeat split; try assumption.
  right. rewrite app_nil_r. exact Hin.
Qed.

(** The loop over the authors: one bar per author, in the order of
    [author_colors], up to the author at which an exception stops it. *)
Lemma draw_authors_bars sorted_seasons totals (t : table)
    (items : list (string * string)) (b : list Z) :
  Forall (present t) sorted_seasons ->
  (exists rest,
     map fst items =
     bar_labels (snd (run (foldM (draw_author sorted_seasons totals) items b) t)) ++ rest) /\
  (forall b', fst (run (foldM (draw_author sorted_seasons totals) items b) t) = Ret b' ->
     bar_labels (snd (run (foldM (draw_author sorted_seasons totals) items b) t))
     = map fst items).
Proof.
  intros Hp. revert b. induction items as [|[author color] items IH]; intros b.
  - split; [exists []; reflexivity | reflexivity].
  - cbn [foldM map fst].
    assert (Hr : forall s item, reads_only (draw_author sorted_seasons totals s item) t)
      by (intros s [a c]; apply draw_author_run, Hp).
    rewrite run_bind by (try apply Hr; intros; apply reads_only_foldM; intros; apply Hr).
    unfold then_.
    pose proof (draw_author_bar_labels _ totals b author color t Hp) as Hb.
    destruct (fst (run (draw_author _ _ b (author, color)) t)) as [b1|e];
      cbn [fst snd].
    + rewrite bar_labels_app, Hb. destruct (IH b1) as [[rest Hrest] Hret]. split.
      * exists rest. cbn. f_equal. exact Hrest.
      * intros b' Hb'. cbn. f_equal. eapply Hret, Hb'.
    + rewrite Hb. split; [exists (map fst items); reflexivity | discriminate].
Qed.

(** ** The whole chart *)

Lemma totals_find (t : table) (x : pyval) (v : Z) (seasons : list pyval)
    (d0 : list (pyval * Z)) :
  dict_find x (fold_left (fun d season => dict_set season (sum_values (lookup t season)) d)
                         seasons d0) = Some v ->
  v = season_total t x \/ dict_find x d0 = Some v.
Proof.
  revert d0. induction seasons as [|s l IH]; cbn [fold_left]; intros d0 H.
  - right. exact H.
  - destruct (IH _ H) as [Hv|Hv]; [left; exact Hv|].
    rewrite dict_find_set in Hv. destruct (key_eqb s x) eqn:E; [|right; exact Hv].
    left. injection Hv as <-. rewrite season_total_lookup. unfold lookup.
    rewrite (dict_find_key_eqb s x t E). reflexivity.
Qed.

Lemma totals_of_find (t : table) (x : pyval) (v : Z) (seasons : list pyval) :
  dict_find x (totals_of t seasons) = Some v -> v = season_total t x.
Proof.
  intros H. destruct (totals_find t x v seasons [] H) as [Hv|Hv];
    [exact Hv | discriminate].
Qed.

Lemma present_sorted (t : table) (sorted_seasons : list pyval) :
  sorted_by_int (map fst t) = Ret sorted_seasons -> Forall (present t) sorted_seasons.
Proof.
  intros E. destruct (sorted_by_int_ret _ _ E) as (Hperm & _ & Hint).
  rewrite Forall_forall in *. intros k Hk.
  assert (Hin : In k (map fst t))
    by (eapply Permutation_in; [symmetry; exact Hperm | exact Hk]).
  destruct (Hint k Hin) as [n Hn]. apply py_int_hashable in Hn.
  split; [exact Hn | apply dict_find_in; assumption].
Qed.

Lemma draw_chart_run (sorted_seasons : list pyval) (t : table) :
  Forall (present t) sorted_seasons ->
  reads_only (draw_chart sorted_seasons) t /\
  run (draw_chart sorted_seasons) t =
  then_ (run (foldM (draw_author sorted_seasons (totals_of t sorted_seasons))
                    author_colors (repeat 0 (List.length sorted_seasons))) t)
        (fun _ => (Ret tt, chart_finish sorted_seasons)).
Proof.
  intros Hp. unfold draw_chart.
  destruct (run_foldM_reads (fun d season inner => dict_set season (sum_values inner) d)
              t sorted_seasons [] Hp) as [Hr He].
  fold (totals_of t sorted_seasons) in He.
  assert (Hauthors : forall totals b,
            reads_only (foldM (draw_author sorted_seasons totals) author_colors b) t).
  { intros totals b. apply reads_only_foldM. intros s [a c] _.
    apply draw_author_run, Hp. }
  assert (Hfinish : reads_only
            (plot (AxSetXlabel "Seasons") ;;
             plot (AxSetYlabel "Message Counts") ;;
             plot (AxSetTitle "The Simpsons Most Memorable Leader (Seasons 1-30)") ;;
             plot (AxSetXticks sorted_seasons) ;;
             plot (AxSetXticklabels sorted_seasons 45 "right") ;;
             plot AxLegend ;; plot PltTightLayout ;; plot PltDraw ;; plot PltPause) t).
  { repeat (apply reads_only_bind; [apply reads_only_plot | intros _]).
    apply reads_only_plot. }
  assert (Hrest : forall totals, reads_only
            (_ <- foldM (draw_author sorted_seasons totals) author_colors
                        (repeat 0 (List.length sorted_seasons)) ;;
             plot (AxSetXlabel "Seasons") ;;
             plot (AxSetYlabel "Message Counts") ;;
             plot (AxSetTitle "The Simpsons Most Memorable Leader (Seasons 1-30)") ;;
             plot (AxSetXticks sorted_seasons) ;;
             plot (AxSetXticklabels sorted_seasons 45 "right") ;;
             plot AxLegend ;; plot PltTightLayout ;; plot PltDraw ;; plot PltPause) t).
  { intros totals. apply reads_only_bind; [apply Hauthors | intros _; exact Hfinish]. }
  split.
  - apply reads_only_bind; [exact Hr | exact Hrest].
  - rewrite run_bind by (try exact Hr; exact Hrest). rewrite He.
    unfold then_ at 1. cbn [fst snd app].
    rewrite run_bind by (try apply Hauthors; intros _; exact Hfinish).
    match goal with |- (fst ?X, snd ?X) = _ => rewrite <- (surjective_pairing X) end.
    reflexivity.
Qed.

Lemma update_chart_unfold (w : world) :
  update_chart w =
  match sorted_by_int (map fst (season_counts w)) with
  | Ret sorted_seasons => draw_chart sorted_seasons (with_calls [AxClear] w)
  | Raise e => (Raise e, with_calls [AxClear] w)
  end.
Proof.
  unfold update_chart, bind, plot, get_counts, lift, with_calls.
  cbn [season_counts chart logged closed fst snd].
  destruct (sorted_by_int (map fst (season_counts w))); reflexivity.
Qed.

Lemma update_chart_run (t : table) :
  run update_chart t =
  match sorted_by_int (map fst t) with
  | Ret sorted_seasons =>
      then_ (Ret tt, [AxClear]) (fun _ => run (draw_chart sorted_seasons) t)
  | Raise e => (Raise e, [AxClear])
  end.
Proof.
  unfold run at 1. rewrite update_chart_unfold. cbn [blank season_counts].
  destruct (sorted_by_int (map fst t)) as [sorted|e] eqn:E; [|reflexivity].
  destruct (draw_chart_run sorted t (present_sorted t sorted E)) as [Hr _].
  rewrite (Hr (with_calls [AxClear] (blank t)) eq_refl). reflexivity.
Qed.

(** On any world, [update_chart] does what it does on the table alone: it
    reads the table and adds plotting calls. *)
Lemma update_chart_reads (t : table) : reads_only update_chart t.
Proof.
  intros w H. rewrite update_chart_run, update_chart_unfold. rewrite H.
  destruct (sorted_by_int (map fst t)) as [sorted|e] eqn:E; [|reflexivity].
  destruct (draw_chart_run sorted t (present_sorted t sorted E)) as [Hr _].
  rewrite (Hr (with_calls [AxClear] w) H). unfold then_. cbn [fst snd].
  rewrite with_calls_app. reflexivity.
Qed.

(** * The claims of the specification *)

Lemma dyadic_num (m e : Z) : exists m' e', dyadic m e = KNum m' e'.
Proof.
  destruct m as [|p|p]; cbn; [eauto | |]; destruct (strip2 p e); eauto.
Qed.

Lemma key_eqb_str_inv (s : string) (k : pyval) :
  key_eqb (PStr s) k = true -> k = PStr s.
Proof.
  intros H. apply key_eqb_true_iff in H as (c & Hs & Hk). cbn in Hs.
  injection Hs as <-.
  destruct k as [| b | z | x | s' | xs | items]; cbn in Hk; try discriminate.
  - destruct (dyadic_num (if b then 1 else 0) 0) as (m' & e' & E). congruence.
  - destruct (dyadic_num z 0) as (m' & e' & E). congruence.
  - destruct x as [s0 | s0 | | s0 m e]; try discriminate.
    destruct (dyadic_num (if s0 then Z.neg m else Z.pos m) e) as (m' & e' & E).
    congruence.
  - congruence.
Qed.

Lemma json_get_some (key : string) (default v : pyval) (items : list (string * pyval)) :
  json_find key items = Some v -> json_get key default items = v.
Proof. unfold json_get. intros ->. reflexivity. Qed.

Lemma json_get_none (key : string) (default : pyval) (items : list (string * pyval)) :
  json_find key items = None -> json_get key default items = default.
Proof. unfold json_get. intros ->. reflexivity. Qed.

(** C1.  A payload that decodes to an object with string fields [author = A]
    and [season = S] raises the count of [(S, A)] by exactly one, and the
    count of every other (season, author) pair stays what it was. *)
Theorem process_message_increments_one
    (json_loads : string -> outcome pyval) (message : string)
    (items : list (string * pyval)) (A S : string) (w : world) :
  json_loads message = Ret (PDict items) ->
  json_find "author" items = Some (PStr A) ->
  json_find "season" items = Some (PStr S) ->
  let w' := snd (process_message json_loads message w) in
  count (season_counts w') (PStr S) (PStr A)
    = count (season_counts w) (PStr S) (PStr A) + 1 /\
  forall season author, (season, author) <> (PStr S, PStr A) ->
    count (season_counts w') season author = count (season_counts w) season author.
Proof.
  intros Hl Ha Hs w'. subst w'. rewrite process_message_counts, Hl.
  unfold season_of, author_of.
  rewrite (json_get_some _ _ _ _ Ha), (json_get_some _ _ _ _ Hs). split.
  - rewrite count_incremented by reflexivity.
    rewrite !key_eqb_refl by reflexivity. reflexivity.
  - intros season author Hne. rewrite count_incremented by reflexivity.
    destruct (key_eqb (PStr S) season) eqn:E1; cbn [andb]; [|lia].
    destruct (key_eqb (PStr A) author) eqn:E2; [|lia].
    apply key_eqb_str_inv in E1, E2. subst. contradiction.
Qed.

Lemma process_message_increments_one_witness :
  let w' := snd (process_message sample_loads text_homer_1 initial) in
  count (season_counts w') (PStr "1") (PStr "Homer")
    = count (season_counts initial) (PStr "1") (PStr "Homer") + 1 /\
  forall season author, (season, author) <> (PStr "1", PStr "Homer") ->
    count (season_counts w') season author = count (season_counts initial) season author.
Proof.
  apply (process_message_increments_one sample_loads text_homer_1
           [("author", PStr "Homer"); ("season", PStr "1")] "Homer" "1" initial);
    reflexivity.
Defined.

(** The handler on a decoded object whose season and author are hashable:
    the records logged and the table when [update_chart] is reached. *)
Lemma process_message_object
    (json_loads : string -> outcome pyval) (message : string)
    (items : list (string * pyval)) (w : world) :
  json_loads message = Ret (PDict items) ->
  hashable (season_of items) = true -> hashable (author_of items) = true ->
  let t' := incremented (season_of items) (author_of items) (season_counts w) in
  let w1 :=
    with_log INFO (UpdatedSeasonCounts t')
      (with_counts t'
         (with_log INFO (MessageReceived (author_of items) (season_of items))
            (with_log INFO (ProcessedJSON (PDict items))
               (with_log DEBUG (RawMessage message) w)))) in
  process_message json_loads message w =
  match run update_chart t' with
  | (Ret _, cs) => (Ret tt, with_log INFO (ChartUpdated message) (with_calls cs w1))
  | (Raise e, cs) =>
      match e with
      | JSONDecodeError => (Ret tt, with_log ERROR (InvalidJSON message) (with_calls cs w1))
      | _ => if is_Exception e
             then (Ret tt, with_log ERROR (ErrorProcessing e) (with_calls cs w1))
             else (Raise e, with_calls cs w1)
      end
  end.
Proof.
  intros Hl Hs Ha t' w1.
  unfold process_message, try_except, bind at 1, logger at 1.
  cbn [fst snd]. unfold bind at 1, lift. rewrite Hl.
  unfold bind at 1, logger at 1. unfold bind at 1, logger at 1.
  fold (season_of items) (author_of items).
  unfold bind at 1. rewrite increment_eq, increment_returns by assumption.
  unfold bind at 1, get_counts. cbn [fst snd with_counts season_counts].
  unfold bind at 1, logger at 1. unfold bind at 1.
  match goal with |- context [update_chart ?w0] =>
    change w0 with w1; rewrite (update_chart_reads t' w1 eq_refl) end.
  destruct (run update_chart t') as [[[]|e] cs]; cbn [fst snd].
  - reflexivity.
  - destruct e; reflexivity.
Qed.

(** C2, counterexample.  The payload [{"season": [1]}] decodes to an
    object that lacks the author; the season it carries is a list, which
    cannot be a dictionary key: the increment raises [TypeError], the
    handler logs it and drops the message, and no count changes. *)
Lemma missing_author_list_season_dropped :
  let items := [("season", PList [PInt 1])] in
  let r := process_message sample_loads text_list_season initial in
  sample_loads text_list_season = Ret (PDict items) /\
  json_find "author" items = None /\
  author_of items = PStr "unknown" /\
  season_counts (snd r) = [] /\
  (forall season author, count (season_counts (snd r)) season author = 0) /\
  logged (snd r) =
    [(DEBUG, RawMessage text_list_season);
     (INFO, ProcessedJSON (PDict items));
     (INFO, MessageReceived (PStr "unknown") (PList [PInt 1]));
     (ERROR, ErrorProcessing TypeError)].
Proof.
  cbv zeta. repeat split; reflexivity.
Qed.

(** C2, amended.  A payload that decodes to an object lacking the author
    or the season, and whose field that is present, if any, is hashable (a
    string, a number, a boolean or null, not an array or an object), gets
    the string "unknown" for each missing field, and the increment is
    applied to that (season, author) pair. *)
Theorem missing_field_defaults_unknown
    (json_loads : string -> outcome pyval) (message : string)
    (items : list (string * pyval)) (w : world) :
  json_loads message = Ret (PDict items) ->
  json_find "author" items = None \/ json_find "season" items = None ->
  (forall v, json_find "author" items = Some v -> hashable v = true) ->
  (forall v, json_find "season" items = Some v -> hashable v = true) ->
  let w' := snd (process_message json_loads message w) in
  (json_find "author" items = None -> author_of items = PStr "unknown") /\
  (json_find "season" items = None -> season_of items = PStr "unknown") /\
  count (season_counts w') (season_of items) (author_of items)
    = count (season_counts w) (season_of items) (author_of items) + 1 /\
  In (INFO, MessageReceived (author_of items) (season_of items)) (logged w').
Proof.
  intros Hl _ Ha Hs w'.
  assert (Ha' : hashable (author_of items) = true).
  { unfold author_of, json_get. destruct (json_find "author" items); [auto | reflexivity]. }
  assert (Hs' : hashable (season_of items) = true).
  { unfold season_of, json_get. destruct (json_find "season" items); [auto | reflexivity]. }
  repeat split.
  - apply json_get_none.
  - apply json_get_none.
  - subst w'. rewrite process_message_counts, Hl.
    rewrite count_incremented by assumption.
    rewrite !key_eqb_refl by assumption. reflexivity.
  - subst w'. rewrite (process_message_object json_loads message items w Hl Hs' Ha').
    destruct (run update_chart _) as [[[]|e] cs]; [|destruct e];
      cbn; rewrite ?in_app_iff; cbn; tauto.
Qed.

Lemma missing_field_defaults_unknown_witness :
  let items := [("author", PStr "Bart")] in
  let w' := snd (process_message sample_loads text_bart initial) in
  (json_find "author" items = None -> author_of items = PStr "unknown") /\
  (json_find "season" items = None -> season_of items = PStr "unknown") /\
  count (season_counts w') (season_of items) (author_of items)
    = count (season_counts initial) (season_of items) (author_of items) + 1 /\
  In (INFO, MessageReceived (author_of items) (season_of items)) (logged w').
Proof.
  apply (missing_field_defaults_unknown sample_loads text_bart
           [("author", PStr "Bart")] initial).
  - reflexivity.
  - right. reflexivity.
  - intros v H. injection H as <-. reflexivity.
  - intros v H. discriminate H.
Defined.



(** C4.  A text that decodes to a value other than an object (an array or
    a scalar) is answered by the "Expected a dictionary" error record; the
    handler returns and [season_counts] is exactly what it was. *)
Theorem non_object_is_logged_and_dropped
    (json_loads : string -> outcome pyval) (message : string) (v : pyval) (w : world) :
  json_loads message = Ret v ->
  (forall items, v <> PDict items) ->
  process_message json_loads message w =
    (Ret tt, with_log ERROR (ExpectedDict v)
               (with_log INFO (ProcessedJSON v)
                  (with_log DEBUG (RawMessage message) w))) /\
  season_counts (snd (process_message json_loads message w)) = season_counts w.
Proof.
  intros Hl Hv. unfold process_message, try_except, bind, logger, lift.
  cbn [fst snd]. rewrite Hl.
  destruct v as [| b | z | x | s | xs | items]; try (split; reflexivity).
  destruct (Hv items eq_refl).
Qed.

Lemma non_object_is_logged_and_dropped_witness :
  process_message sample_loads text_array initial =
    (Ret tt, with_log ERROR (ExpectedDict (PList [PInt 1; PInt 2]))
               (with_log INFO (ProcessedJSON (PList [PInt 1; PInt 2]))
                  (with_log DEBUG (RawMessage text_array) initial))) /\
  season_counts (snd (process_message sample_loads text_array initial))
    = season_counts initial.
Proof.
  apply (non_object_is_logged_and_dropped sample_loads text_array
           (PList [PInt 1; PInt 2]) initial).
  - reflexivity.
  - intros items H. discriminate H.
Defined.

(** ** What a render draws *)

Lemma reads_only_draw_authors sorted_seasons totals (t : table) :
  Forall (present t) sorted_seasons ->
  forall s item, reads_only (draw_author sorted_seasons totals s item) t.
Proof. intros Hp s [a c]. apply draw_author_run, Hp. Qed.

(** Every call of a render whose sort succeeded: the clearing, a bar or a
    label of an author of [author_colors], or a finishing call. *)
Lemma update_chart_calls (t : table) (sorted_seasons : list pyval) (c : plot_call) :
  sorted_by_int (map fst t) = Ret sorted_seasons ->
  In c (snd (run update_chart t)) ->
  c = AxClear \/ In c (chart_finish sorted_seasons) \/
  exists author color,
    In (author, color) author_colors /\
    ((exists b, c = AxBar sorted_seasons (heights t sorted_seasons author) b color author) \/
     exists x y s color',
       c = AxText x y s color' /\ In x sorted_seasons /\
       0 < count t x (PStr author) /\
       percentage_label (count t x (PStr author)) (season_total t x) = Ret s).
Proof.
  intros E. pose proof (present_sorted t _ E) as Hp.
  rewrite update_chart_run, E. unfold then_ at 1. cbn [fst snd app].
  intros [<-|Hin]; [left; reflexivity | right].
  rewrite (proj2 (draw_chart_run _ t Hp)) in Hin. unfold then_ in Hin.
  assert (Hauthors : forall c,
    In c (snd (run (foldM (draw_author sorted_seasons (totals_of t sorted_seasons))
                          author_colors (repeat 0 (List.length sorted_seasons))) t)) ->
    exists author color,
      In (author, color) author_colors /\
      ((exists b, c = AxBar sorted_seasons (heights t sorted_seasons author) b color author) \/
       exists x y s color',
         c = AxText x y s color' /\ In x sorted_seasons /\
         0 < count t x (PStr author) /\
         percentage_label (count t x (PStr author)) (season_total t x) = Ret s)).
  { intros c' Hc'.
    apply run_foldM_in in Hc' as (b & [author color] & Hitem & Hc');
      [|intros; apply reads_only_draw_authors, Hp].
    exists author, color. split; [exact Hitem|].
    apply draw_author_calls in Hc' as [->|(x & y & s & color' & total & -> & Hx & Hn & Ht & Hl)];
      [left; eauto | right | exact Hp].
    apply totals_of_find in Ht. subst total.
    exists x, y, s, color'. auto. }
  destruct (fst (run (foldM _ _ _) t)); cbn [snd] in Hin.
  - apply in_app_or in Hin as [Hin|Hin]; [right; apply Hauthors, Hin | left; exact Hin].
  - right. apply Hauthors, Hin.
Qed.

(** A render that completes has labelled every positive segment of every
    author of [author_colors]. *)
Lemma update_chart_complete (t : table) (sorted_seasons : list pyval)
    (author color : string) (x : pyval) :
  sorted_by_int (map fst t) = Ret sorted_seasons ->
  fst (run update_chart t) = Ret tt ->
  In (author, color) author_colors -> In x sorted_seasons ->
  0 < count t x (PStr author) ->
  exists y s color',
    In (AxText x y s color') (snd (run update_chart t)) /\
    percentage_label (count t x (PStr author)) (season_total t x) = Ret s.
Proof.
  intros E. pose proof (present_sorted t _ E) as Hp.
  rewrite update_chart_run, E. unfold then_ at 1 2. cbn [fst snd app].
  rewrite (proj2 (draw_chart_run _ t Hp)). unfold then_.
  destruct (fst (run (foldM _ _ _) t)) as [b|e] eqn:Ef; cbn [fst snd]; [|discriminate].
  intros _ Hitem Hx Hn.
  destruct (run_foldM_ret _ _ _ _ t
              (fun s item _ => reads_only_draw_authors _ _ t Hp s item) Ef _ Hitem)
    as (b1 & b2 & Hret & Hincl).
  destruct (draw_author_ret _ _ _ _ _ t b2 x Hp Hret Hx Hn)
    as (y & s & color' & total & Hin & Ht & Hl).
  apply totals_of_find in Ht. subst total.
  exists y, s, color'. split; [|exact Hl].
  right. apply in_or_app. left. apply Hincl, Hin.
Qed.

(** The first bar of a render whose sort succeeded is Homer's, over the
    sorted seasons, from the bottom. *)
Lemma update_chart_first_bar (t : table) (sorted_seasons : list pyval) :
  sorted_by_int (map fst t) = Ret sorted_seasons ->
  exists rest,
    snd (run update_chart t) =
    AxClear :: AxBar sorted_seasons (heights t sorted_seasons "Homer")
                     (repeat 0 (List.length sorted_seasons)) "yellow" "Homer" :: rest.
Proof.
  intros E. pose proof (present_sorted t _ E) as Hp.
  rewrite update_chart_run, E. unfold then_ at 1. cbn [fst snd app].
  rewrite (proj2 (draw_chart_run _ t Hp)).
  remember (tl author_colors) as others.
  change author_colors with (("Homer", "yellow") :: tl author_colors).
  rewrite <- Heqothers. cbn [foldM].
  rewrite run_bind
    by first [ apply reads_only_draw_authors, Hp
             | intros; apply reads_only_foldM; intros; apply reads_only_draw_authors, Hp ].
  rewrite (proj2 (draw_author_run _ _ _ "Homer" "yellow" t Hp)).
  unfold then_. cbn [fst snd app].
  repeat match goal with
         | |- context [match ?r with Ret _ => _ | Raise _ => _ end] => destruct r
         end; cbn [fst snd app]; eexists; reflexivity.
Qed.

(** On a snapshot that holds the group key "unknown", which has no integer
    value, the render enumerates nothing: it clears the axes and raises
    [ValueError] at the sort, before any bar or tick. *)
Example unknown_season_is_not_enumerated :
  sorted_by_int (map fst table_1_unknown) = Raise ValueError /\
  update_chart (blank table_1_unknown)
  = (Raise ValueError, with_calls [AxClear] (blank table_1_unknown)).
Proof. vm_compute. split; reflexivity. Qed.

(** C5.  For every snapshot whose group keys all have an integer value
    under [int], the render enumerates the keys in ascending order of the
    key interpreted as an integer: the sort succeeds, and the bars and the
    ticks are laid over a sorted permutation of the keys.  Keys first seen
    in the order "2", "10", "1" are rendered as "1", "2", "10", not in
    lexicographic order. *)
Theorem seasons_rendered_in_numeric_order (w : world) :
  (Forall has_int (map fst (season_counts w)) ->
   exists sorted_seasons rest,
     Permutation (map fst (season_counts w)) sorted_seasons /\
     StronglySorted int_le sorted_seasons /\
     snd (update_chart w) =
       with_calls
         (AxClear ::
          AxBar sorted_seasons (heights (season_counts w) sorted_seasons "Homer")
                (repeat 0 (List.length sorted_seasons)) "yellow" "Homer" :: rest) w /\
     (forall x h b color label,
        In (AxBar x h b color label) rest -> x = sorted_seasons) /\
     (forall ticks, In (AxSetXticks ticks) rest -> ticks = sorted_seasons)) /\
  (forall inner2 inner10 inner1 : counts,
     sorted_by_int (map fst [(PStr "2", inner2); (PStr "10", inner10); (PStr "1", inner1)])
     = Ret [PStr "1"; PStr "2"; PStr "10"]).
Proof.
  split; [|reflexivity].
  intros Hint. destruct (sorted_by_int_total _ Hint) as [sorted E].
  destruct (sorted_by_int_ret _ _ E) as (Hperm & Hsorted & _).
  destruct (update_chart_first_bar _ _ E) as [rest Hrest].
  exists sorted, rest. repeat split; try assumption.
  - rewrite (update_chart_reads (season_counts w) w eq_refl). cbn [snd].
    rewrite Hrest. reflexivity.
  - intros x h b color label Hin.
    assert (Hc : In (AxBar x h b color label) (snd (run update_chart (season_counts w))))
      by (rewrite Hrest; right; right; exact Hin).
    apply (update_chart_calls _ _ _ E) in Hc
      as [Hc|[Hc|(a & c & _ & [[b' Hc]|(x' & y & s & c' & Hc & _)])]];
      try discriminate Hc.
    + cbn in Hc. repeat (destruct Hc as [Hc|Hc]; [discriminate Hc|]). contradiction.
    + injection Hc as -> _ _ _ _. reflexivity.
  - intros ticks Hin.
    assert (Hc : In (AxSetXticks ticks) (snd (run update_chart (season_counts w))))
      by (rewrite Hrest; right; right; exact Hin).
    apply (update_chart_calls _ _ _ E) in Hc
      as [Hc|[Hc|(a & c & _ & [[b' Hc]|(x' & y & s & c' & Hc & _)])]];
      try discriminate Hc.
    cbn in Hc. repeat (destruct Hc as [Hc|Hc]; [try discriminate Hc|]);
      try contradiction.
    injection Hc as ->. reflexivity.
Qed.

Lemma seasons_rendered_in_numeric_order_witness :
  exists sorted_seasons rest,
    Permutation (map fst table_2_10_1) sorted_seasons /\
    StronglySorted int_le sorted_seasons /\
    snd (update_chart (blank table_2_10_1)) =
      with_calls
        (AxClear ::
         AxBar sorted_seasons (heights table_2_10_1 sorted_seasons "Homer")
               (repeat 0 (List.length sorted_seasons)) "yellow" "Homer" :: rest)
        (blank table_2_10_1) /\
    (forall x h b color label,
       In (AxBar x h b color label) rest -> x = sorted_seasons) /\
    (forall ticks, In (AxSetXticks ticks) rest -> ticks = sorted_seasons).
Proof.
  apply (proj1 (seasons_rendered_in_numeric_order (blank table_2_10_1))).
  repeat constructor; eexists; reflexivity.
Defined.

Example render_2_10_1 :
  bar_labels (snd (run update_chart table_2_10_1))
    = ["Homer"; "Bart"; "Marge"; "Lisa"; "Maggie"] /\
  In (AxSetXticks [PStr "1"; PStr "2"; PStr "10"]) (snd (run update_chart table_2_10_1)).
Proof. vm_compute. split; [reflexivity | tauto]. Qed.

Lemma rounds_up_to_100 : rounds_up_to 100 = true.
Proof. vm_compute. reflexivity. Qed.

Lemma append_assoc (a b c : string) : ((a ++ b) ++ c = a ++ (b ++ c))%string.
Proof. induction a as [|x a IH]; cbn; [reflexivity | rewrite IH; reflexivity]. Qed.

Lemma percentage_label_tenths (n total T : Z) :
  percent_tenths n total = Some T ->
  percentage_label n total
  = Ret (decimal (T / 10) ++ "." ++ decimal (T mod 10) ++ "%")%string.
Proof.
  unfold percent_tenths, percentage_label.
  destruct (int_truediv n total) as [q|e]; [|discriminate].
  destruct (float_times_int q 100) as [[s|s| |s m e]|e']; try discriminate.
  destruct s; [discriminate|]. intros H. injection H as <-.
  unfold format_1f, sign_str. cbn [String.append].
  rewrite !append_assoc. reflexivity.
Qed.

Lemma rounds_up_to_spec (bound : nat) (n total : Z) :
  rounds_up_to bound = true ->
  0 < n <= total -> total <= Z.of_nat bound ->
  exists T,
    percentage_label n total
    = Ret (decimal (T / 10) ++ "." ++ decimal (T mod 10) ++ "%")%string /\
    2 * Z.abs (T * total - 1000 * n) <= total.
Proof.
  unfold rounds_up_to. intros H Hn Ht.
  rewrite forallb_forall in H.
  specialize (H (Z.to_nat total)). rewrite forallb_forall in H.
  assert (H1 : In (Z.to_nat total) (seq 1 bound)) by (apply in_seq; lia).
  assert (H2 : In (Z.to_nat n) (seq 1 (Z.to_nat total))) by (apply in_seq; lia).
  specialize (H H1 (Z.to_nat n) H2). rewrite !Z2Nat.id in H by lia.
  unfold rounds_to_tenth in H.
  destruct (percent_tenths n total) as [T|] eqn:E; [|discriminate].
  exists T. split; [apply percentage_label_tenths, E | apply Z.leb_le, H].
Qed.

(** For counts up to 100 the printed percentage is [100 * n / total] within
    a twentieth of a percent. *)
Lemma percentage_label_rounds (n total : Z) :
  0 < n <= total -> total <= 100 ->
  exists T,
    percentage_label n total
    = Ret (decimal (T / 10) ++ "." ++ decimal (T mod 10) ++ "%")%string /\
    2 * Z.abs (T * total - 1000 * n) <= total.
Proof.
  intros Hn Ht. apply (rounds_up_to_spec 100); [exact rounds_up_to_100 | exact Hn | exact Ht].
Qed.

(** C6.  Every label a render draws belongs to a segment of positive
    count, and its text is the percentage [count / total * 100] of the
    count in the total of the season, printed with one decimal and a
    percent sign; a render that completes has labelled every such segment.
    Three messages of Homer and one of Bart in a season give the labels
    75.0% and 25.0%; for totals up to 100 the printed number is within a
    twentieth of a percent of [100 * count / total]. *)
Theorem labels_are_percentages (w : world) :
  (exists cs,
     snd (update_chart w) = with_calls cs w /\
     (forall x y s color,
        In (AxText x y s color) cs ->
        exists author,
          In author (map fst author_colors) /\
          0 < count (season_counts w) x (PStr author) /\
          percentage_label (count (season_counts w) x (PStr author))
                           (season_total (season_counts w) x) = Ret s) /\
     (fst (update_chart w) = Ret tt ->
      forall author x,
        In author (map fst author_colors) -> In x (map fst (season_counts w)) ->
        0 < count (season_counts w) x (PStr author) ->
        exists y s color,
          In (AxText x y s color) cs /\
          percentage_label (count (season_counts w) x (PStr author))
                           (season_total (season_counts w) x) = Ret s)) /\
  label_texts (snd (run update_chart table_homer3_bart1)) = ["75.0%"; "25.0%"] /\
  percentage_label 3 4 = Ret "75.0%" /\
  percentage_label 1 4 = Ret "25.0%" /\
  (forall n total,
     0 < n <= total -> total <= 100 ->
     exists T,
       percentage_label n total
       = Ret (decimal (T / 10) ++ "." ++ decimal (T mod 10) ++ "%")%string /\
       2 * Z.abs (T * total - 1000 * n) <= total).
Proof.
  split; [|split; [|split; [|split]];
            [vm_compute; reflexivity .. | exact percentage_label_rounds]].
  exists (snd (run update_chart (season_counts w))).
  rewrite (update_chart_reads (season_counts w) w eq_refl). cbn [fst snd].
  split; [reflexivity|].
  destruct (sorted_by_int (map fst (season_counts w))) as [sorted|e] eqn:E.
  - split.
    + intros x y s color Hin.
      apply (update_chart_calls _ _ _ E) in Hin
        as [Hc|[Hc|(a & c & Hitem & [[b' Hc]|(x' & y' & s' & c' & Hc & _ & Hn & Hl)])]];
        try discriminate Hc.
      * cbn in Hc. repeat (destruct Hc as [Hc|Hc]; [discriminate Hc|]). contradiction.
      * injection Hc as <- _ <- _. exists a. repeat split; try assumption.
        apply (in_map fst) in Hitem. exact Hitem.
    + intros Hret author x Ha Hx Hn.
      apply in_map_iff in Ha as ([a c] & <- & Hitem).
      destruct (sorted_by_int_ret _ _ E) as (Hperm & _ & _).
      apply (update_chart_complete _ _ a c x E Hret Hitem); [|exact Hn].
      eapply Permutation_in; [exact Hperm | exact Hx].
  - rewrite update_chart_run, E. cbn [fst snd]. split.
    + intros x y s color [Hc|[]]. discriminate Hc.
    + discriminate.
Qed.

Lemma labels_are_percentages_witness :
  exists cs y s color,
    snd (update_chart (blank table_homer3_bart1))
      = with_calls cs (blank table_homer3_bart1) /\
    In (AxText (PStr "1") y s color) cs /\
    percentage_label 3 4 = Ret s.
Proof.
  destruct (proj1 (labels_are_percentages (blank table_homer3_bart1)))
    as (cs & Hcs & _ & Hcomplete).
  destruct (Hcomplete eq_refl "Homer" (PStr "1")) as (y & s & color & Hin & Hs).
  - left. reflexivity.
  - left. reflexivity.
  - reflexivity.
  - exists cs, y, s, color. split; [exact Hcs | split; [exact Hin | exact Hs]].
Defined.

(** C7.  However the loop over the consumer ends (the stream is exhausted,
    a pull raises [KeyboardInterrupt], a pull or the handler raises
    anything else), [consumer.close()] has been called exactly once when
    [main] ends.  [main] returns normally when the loop ended by
    exhaustion, by [KeyboardInterrupt] or by an [Exception]; anything else
    the loop raised goes on, after the close. *)
Theorem main_closes_consumer_once (json_loads : string -> outcome pyval)
    (os_getenv : string -> option string) (consumer : list pulled) (w : world) :
  let loop := consume json_loads consumer (before_loop os_getenv w) in
  let r := main json_loads os_getenv consumer w in
  closed (snd r) = S (closed w) /\
  (fst loop = Ret tt -> fst r = Ret tt) /\
  (fst loop = Raise KeyboardInterrupt -> fst r = Ret tt) /\
  (forall e, fst loop = Raise e -> is_Exception e = true -> fst r = Ret tt) /\
  (forall e, fst loop = Raise e -> is_Exception e = false -> e <> KeyboardInterrupt ->
             fst r = Raise e).
Proof.
  cbv zeta.
  unfold main, get_kafka_topic, get_kafka_consumer_group_id, try_finally, try_except,
    bind, logger, ret, consumer_close.
  cbn [fst snd season_counts chart logged closed].
  change (mkWorld (season_counts w) (chart w) _ (closed w))
    with (before_loop os_getenv w).
  pose proof (consume_closed json_loads consumer (before_loop os_getenv w)) as Hc.
  change (closed (before_loop os_getenv w)) with (closed w) in Hc.
  destruct (consume json_loads consumer (before_loop os_getenv w)) as [[[]|e] w1];
    cbn [fst snd season_counts chart logged closed] in *.
  - split; [congruence|]. repeat split; intros; first [reflexivity | discriminate].
  - split;
      [destruct e; cbn [fst snd season_counts chart logged closed is_Exception raise];
       congruence|].
    split; [discriminate|]. split; [|split].
    + intros H. injection H as ->. reflexivity.
    + intros e' H He. injection H as <-. destruct e; try discriminate He; reflexivity.
    + intros e' H He Hk. injection H as <-.
      destruct e; try discriminate He; [contradiction | reflexivity].
Qed.

Lemma main_closes_consumer_once_witness :
  let r := main sample_loads no_env
             [Yield (mkMessage text_homer_1 0); Throw KeyboardInterrupt] initial in
  closed (snd r) = 1%nat /\ fst r = Ret tt.
Proof.
  pose proof (main_closes_consumer_once sample_loads no_env
                [Yield (mkMessage text_homer_1 0); Throw KeyboardInterrupt] initial)
    as (Hclosed & _ & Hinterrupt & _).
  split; [exact Hclosed | apply Hinterrupt; reflexivity].
Defined.

(** The three ways the loop ends, on sample streams. *)
Example main_on_exhaustion :
  let r := main sample_loads no_env
             [Yield (mkMessage text_homer_1 0); Yield (mkMessage text_ned_2 1)] initial in
  fst r = Ret tt /\ closed (snd r) = 1%nat.
Proof. vm_compute. split; reflexivity. Qed.

Example main_on_interrupt :
  let r := main sample_loads no_env
             [Yield (mkMessage text_homer_1 0); Throw KeyboardInterrupt;
              Yield (mkMessage text_ned_2 1)] initial in
  fst r = Ret tt /\ closed (snd r) = 1%nat /\
  In (WARNING, Interrupted) (logged (snd r)).
Proof. vm_compute. repeat split; tauto. Qed.

Example main_on_error :
  let r := main sample_loads no_env [Throw (OtherException "KafkaError")] initial in
  fst r = Ret tt /\ closed (snd r) = 1%nat /\
  In (ERROR, ErrorConsuming (OtherException "KafkaError")) (logged (snd r)).
Proof. vm_compute. repeat split; tauto. Qed.

(** Two messages of Homer and one of Bart in season "1": the counts and the
    labels of the last render. *)
Example homer_homer_bart :
  let r := main sample_loads no_env
             [Yield (mkMessage text_homer_1 0); Yield (mkMessage text_homer_1 1);
              Yield (mkMessage text_bart_1 2)] initial in
  season_counts (snd r) = [(PStr "1", [(PStr "Homer", 2); (PStr "Bart", 1)])] /\
  label_texts (snd (run update_chart (season_counts (snd r)))) = ["66.7%"; "33.3%"] /\
  closed (snd r) = 1%nat.
Proof. vm_compute. repeat split. Qed.

(** ** The invariant of the table *)




(** The counts after a message: those before, with at most one pair raised
    by one. *)
Lemma process_message_count (json_loads : string -> outcome pyval)
    (message : string) (w : world) :
  (forall s a, count (season_counts (snd (process_message json_loads message w))) s a
               = count (season_counts w) s a) \/
  exists season author,
    forall s a, count (season_counts (snd (process_message json_loads message w))) s a
                = count (season_counts w) s a
                  + (if key_eqb season s && key_eqb author a then 1 else 0).
Proof.
  rewrite process_message_counts.
  destruct (json_loads message) as [[| | | | | |items]|e]; try (left; reflexivity).
  destruct (hashable (season_of items)) eqn:Hs;
    [destruct (hashable (author_of items)) eqn:Ha|].
  - right. exists (season_of items), (author_of items). intros s a.
    apply count_incremented; assumption.
  - left. intros s a. apply count_incremented_raise. right. exact Ha.
  - left. intros s a. apply count_incremented_raise. left. exact Hs.
Qed.

(** ** Bars, and a render that fails at the sort *)

Lemma update_chart_bars (t : table) :
  (exists rest,
     map fst author_colors = bar_labels (snd (run update_chart t)) ++ rest) /\
  (fst (run update_chart t) = Ret tt ->
   bar_labels (snd (run update_chart t)) = map fst author_colors).
Proof.
  rewrite update_chart_run.
  destruct (sorted_by_int (map fst t)) as [sorted|e] eqn:E.
  - pose proof (present_sorted t _ E) as Hp.
    unfold then_ at 1 2 3. cbn [fst snd app].
    rewrite (proj2 (draw_chart_run _ t Hp)). unfold then_.
    destruct (draw_authors_bars sorted (totals_of t sorted) t author_colors
                (repeat 0 (List.length sorted)) Hp) as [[rest Hrest] Hret].
    destruct (fst (run (foldM _ _ _) t)) as [b|e] eqn:Ef; cbn [fst snd].
    + change (bar_labels (AxClear :: ?l)) with (bar_labels l).
      rewrite bar_labels_app. change (bar_labels (chart_finish sorted)) with (@nil string).
      rewrite app_nil_r, (Hret b eq_refl). split; [exists []|]; auto using app_nil_r.
    + change (bar_labels (AxClear :: ?l)) with (bar_labels l).
      split; [exists rest; exact Hrest | discriminate].
  - cbn [fst snd]. split; [exists (map fst author_colors); reflexivity | discriminate].
Qed.

Lemma update_chart_bar_authors (t : table) (x : list pyval) (h b : list Z)
    (color label : string) :
  In (AxBar x h b color label) (snd (run update_chart t)) ->
  In (label, color) author_colors /\ h = heights t x label.
Proof.
  intros Hin. destruct (sorted_by_int (map fst t)) as [sorted|e] eqn:E.
  - destruct (update_chart_calls t sorted _ E Hin)
      as [Hc|[Hc|(a & c & Hitem & [[b' Hc]|(x' & y & s & c' & Hc & _)])]];
      try discriminate Hc.
    + cbn in Hc. repeat (destruct Hc as [Hc|Hc]; [discriminate Hc|]). contradiction.
    + injection Hc as Hx Hh _ Hcol Hlab. subst x h color label.
      split; [exact Hitem | reflexivity].
  - rewrite update_chart_run, E in Hin. destruct Hin as [Hc|[]]. discriminate Hc.
Qed.

(** The chart after a decoded object with hashable fields: the calls of
    one render of the incremented table, added to the chart. *)
Lemma process_message_chart
    (json_loads : string -> outcome pyval) (message : string)
    (items : list (string * pyval)) (w : world) :
  json_loads message = Ret (PDict items) ->
  hashable (season_of items) = true -> hashable (author_of items) = true ->
  chart (snd (process_message json_loads message w)) =
  chart w ++ snd (run update_chart
                    (incremented (season_of items) (author_of items) (season_counts w))).
Proof.
  intros Hl Hs Ha. rewrite (process_message_object json_loads message items w Hl Hs Ha).
  destruct (run update_chart _) as [[[]|e] cs]; [|destruct e]; reflexivity.
Qed.

(** C9.  A render draws one bar per author of [author_colors], in the
    order of the mapping, each with the colour the mapping gives and the
    author's counts as heights, up to the author at which an exception
    stops it, and all of them when it completes; no bar is drawn for any
    other author.  A message of an author outside the mapping still raises
    that author's count by one, and no bar of the render that follows
    carries the author's name. *)
Theorem only_mapped_authors_are_drawn
    (json_loads : string -> outcome pyval) (message : string)
    (items : list (string * pyval)) (A S : string) (w : world) :
  (exists cs,
     snd (update_chart w) = with_calls cs w /\
     (exists rest, map fst author_colors = bar_labels cs ++ rest) /\
     (fst (update_chart w) = Ret tt -> bar_labels cs = map fst author_colors) /\
     (forall x h b color label,
        In (AxBar x h b color label) cs ->
        In (label, color) author_colors /\ h = heights (season_counts w) x label)) /\
  (json_loads message = Ret (PDict items) ->
   json_find "author" items = Some (PStr A) ->
   json_find "season" items = Some (PStr S) ->
   ~ In A (map fst author_colors) ->
   let w' := snd (process_message json_loads message w) in
   count (season_counts w') (PStr S) (PStr A)
     = count (season_counts w) (PStr S) (PStr A) + 1 /\
   exists cs,
     chart w' = chart w ++ cs /\
     forall x h b color, ~ In (AxBar x h b color A) cs).
Proof.
  split.
  - exists (snd (run update_chart (season_counts w))).
    rewrite (update_chart_reads (season_counts w) w eq_refl). cbn [fst snd].
    split; [reflexivity|].
    destruct (update_chart_bars (season_counts w)) as [Hpre Hret].
    split; [exact Hpre|]. split; [exact Hret|]. apply update_chart_bar_authors.
  - intros Hl Ha Hs Hout w'. subst w'. split.
    + rewrite process_message_counts, Hl. unfold season_of, author_of.
      rewrite (json_get_some _ _ _ _ Ha), (json_get_some _ _ _ _ Hs).
      rewrite count_incremented by reflexivity.
      rewrite !key_eqb_refl by reflexivity. reflexivity.
    + eexists. split.
      * apply (process_message_chart json_loads message items w Hl);
          unfold season_of, author_of;
          rewrite ?(json_get_some _ _ _ _ Ha), ?(json_get_some _ _ _ _ Hs); reflexivity.
      * intros x h b color Hin. apply update_chart_bar_authors in Hin as [Hin _].
        apply Hout. apply (in_map fst) in Hin. exact Hin.
Qed.

Lemma only_mapped_authors_are_drawn_witness :
  let w' := snd (process_message sample_loads text_ned_2 initial) in
  count (season_counts w') (PStr "2") (PStr "Ned")
    = count (season_counts initial) (PStr "2") (PStr "Ned") + 1 /\
  exists cs,
    chart w' = chart initial ++ cs /\
    forall x h b color, ~ In (AxBar x h b color "Ned") cs.
Proof.
  apply (proj2 (only_mapped_authors_are_drawn sample_loads text_ned_2
                  [("author", PStr "Ned"); ("season", PStr "2")] "Ned" "2" initial));
    try reflexivity.
  cbn. intros H. repeat (destruct H as [H|H]; [discriminate H|]). exact H.
Defined.

Lemma dict_set_key_in {V : Type} (k : pyval) (v : V) (d : list (pyval * V)) :
  hashable k = true ->
  exists k', In k' (map fst (dict_set k v d)) /\ key_eqb k' k = true.
Proof.
  intros Hk. induction d as [|[k0 v0] d (k' & Hin & Heq)]; cbn.
  - exists k. split; [left; reflexivity | apply key_eqb_refl, Hk].
  - destruct (key_eqb k0 k) eqn:E; cbn.
    + exists k0. split; [left; reflexivity | exact E].
    + exists k'. split; [right; exact Hin | exact Heq].
Qed.

Lemma incremented_has_season (season author : pyval) (t : table) :
  hashable season = true -> hashable author = true ->
  exists k, In k (map fst (incremented season author t)) /\ key_eqb k season = true.
Proof.
  intros Hs Ha. unfold incremented, increment, season_counts_getitem.
  rewrite Hs. unfold bind, get_counts, put_counts, ret.
  cbn [season_counts chart logged closed snd fst].
  destruct (dict_find season t); cbn [season_counts snd]; rewrite Ha;
    cbn [season_counts snd]; apply dict_set_key_in, Hs.
Qed.

(** C10, counterexample.  A season given as the JSON number 7 is a group
    key that is not a decimal-integer string, and the render completes: the
    chart is drawn and the message is logged as charted.  And where the
    render does fail, on the key "unknown", the chart does not stay as it
    was: the axes have been cleared before the sort raises. *)
Lemma number_season_renders_unknown_season_clears :
  (let r := process_message sample_loads text_homer_number initial in
   fst r = Ret tt /\
   season_counts (snd r) = [(PInt 7, [(PStr "Homer", 1)])] /\
   In (AxBar [PInt 7] [1] [0] "yellow" "Homer") (chart (snd r)) /\
   In PltDraw (chart (snd r)) /\
   In (INFO, ChartUpdated text_homer_number) (logged (snd r))) /\
  (let w := snd (process_message sample_loads text_homer_1 initial) in
   let r := process_message sample_loads text_bart w in
   chart (snd r) = chart w ++ [AxClear] /\
   chart (snd r) <> chart w).
Proof.
  vm_compute. repeat split; try tauto. discriminate.
Qed.

(** C10, amended.  When, after the increment of a decoded object, the
    table has a group key that [int] rejects, a key within ASCII, where
    [py_int] is [int] (there is one whenever the payload omits the
    season: the string "unknown"), the render clears the axes and raises
    at the sort: no bar, no label, no redraw follows.  The handler
    catches the exception and logs it, so [process_message] returns; the
    increment stays in [season_counts], and the chart shows nothing of
    the message. *)
Theorem non_integer_season_stops_render
    (json_loads : string -> outcome pyval) (message : string)
    (items : list (string * pyval)) (w : world) :
  json_loads message = Ret (PDict items) ->
  hashable (author_of items) = true ->
  json_find "season" items = None \/
  (hashable (season_of items) = true /\
   exists k e,
     In k (map fst (incremented (season_of items) (author_of items) (season_counts w))) /\
     ascii_key k = true /\ py_int k = Raise e) ->
  let r := process_message json_loads message w in
  exists e,
    (e = ValueError \/ e = TypeError \/ e = OverflowError) /\
    fst (update_chart (snd (increment (season_of items) (author_of items) w)))
      = Raise e /\
    fst r = Ret tt /\
    season_counts (snd r)
      = incremented (season_of items) (author_of items) (season_counts w) /\
    count (season_counts (snd r)) (season_of items) (author_of items)
      = count (season_counts w) (season_of items) (author_of items) + 1 /\
    chart (snd r) = chart w ++ [AxClear] /\
    logged (snd r) =
      logged w ++
      [(DEBUG, RawMessage message);
       (INFO, ProcessedJSON (PDict items));
       (INFO, MessageReceived (author_of items) (season_of items));
       (INFO, UpdatedSeasonCounts
                (incremented (season_of items) (author_of items) (season_counts w)));
       (ERROR, ErrorProcessing e)].
Proof.
  intros Hl Ha Hbad r.
  assert (Hs : hashable (season_of items) = true).
  { destruct Hbad as [Hn|[Hs _]]; [|exact Hs].
    unfold season_of. rewrite (json_get_none _ _ _ Hn). reflexivity. }
  set (t' := incremented (season_of items) (author_of items) (season_counts w)).
  assert (Hk : exists k e, In k (map fst t') /\ py_int k = Raise e).
  { destruct Hbad as [Hn|[_ (k & e & Hin & _ & Hk)]]; [|exists k, e; auto].
    destruct (incremented_has_season _ _ (season_counts w) Hs Ha) as (k & Hin & Heq).
    fold t' in Hin. unfold season_of in Heq. rewrite (json_get_none _ _ _ Hn) in Heq.
    rewrite key_eqb_sym in Heq. apply key_eqb_str_inv in Heq. subst k.
    exists (PStr "unknown"), ValueError. split; [exact Hin | reflexivity]. }
  destruct Hk as (k & e0 & Hin & Hk0).
  destruct (sorted_by_int_bad _ _ _ Hin Hk0) as (e & k' & Esort & _ & Hk').
  assert (Hrun : run update_chart t' = (Raise e, [AxClear]))
    by (rewrite update_chart_run, Esort; reflexivity).
  exists e. split; [exact (py_int_raise _ _ Hk')|]. split.
  { rewrite increment_eq. cbn [snd]. fold t'.
    rewrite (update_chart_reads t' (with_counts t' w) eq_refl).
    cbn [fst]. rewrite Hrun. reflexivity. }
  subst r. rewrite (process_message_object json_loads message items w Hl Hs Ha).
  fold t'. rewrite Hrun.
  assert (Hcount : count t' (season_of items) (author_of items)
                   = count (season_counts w) (season_of items) (author_of items) + 1).
  { unfold t'. rewrite count_incremented by assumption.
    rewrite !key_eqb_refl by assumption. reflexivity. }
  destruct (py_int_raise _ _ Hk') as [He | [He | He]]; rewrite He;
    cbn [is_Exception fst snd];
    unfold with_log, with_calls, with_counts;
    cbn [season_counts chart logged closed];
    rewrite <- !app_assoc; repeat split; try reflexivity; exact Hcount.
Qed.

Lemma non_integer_season_stops_render_witness :
  let r := process_message sample_loads text_bart initial in
  exists e,
    (e = ValueError \/ e = TypeError \/ e = OverflowError) /\
    fst (update_chart (snd (increment (PStr "unknown") (PStr "Bart") initial)))
      = Raise e /\
    fst r = Ret tt /\
    season_counts (snd r) = [(PStr "unknown", [(PStr "Bart", 1)])] /\
    count (season_counts (snd r)) (PStr "unknown") (PStr "Bart")
      = count (season_counts initial) (PStr "unknown") (PStr "Bart") + 1 /\
    chart (snd r) = chart initial ++ [AxClear] /\
    logged (snd r) =
      logged initial ++
      [(DEBUG, RawMessage text_bart);
       (INFO, ProcessedJSON (PDict [("author", PStr "Bart")]));
       (INFO, MessageReceived (PStr "Bart") (PStr "unknown"));
       (INFO, UpdatedSeasonCounts [(PStr "unknown", [(PStr "Bart", 1)])]);
       (ERROR, ErrorProcessing e)].
Proof.
  apply (non_integer_season_stops_render sample_loads text_bart
           [("author", PStr "Bart")] initial).
  - reflexivity.
  - reflexivity.
  - left. reflexivity.
Defined.

(** * The code around the claims *)

(** ** The two modules over one handler and one loop *)

Lemma process_message_is_with (json_loads : string -> outcome pyval) (message : string) :
  process_message json_loads message
  = process_message_with update_chart json_loads message.
Proof. reflexivity. Qed.

Lemma draft_process_message_is_with (json_loads : string -> outcome pyval)
    (message : string) :
  Draft.process_message json_loads message
  = process_message_with Draft.update_chart json_loads message.
Proof. reflexivity. Qed.

Lemma consume_is_with (json_loads : string -> outcome pyval) (consumer : list pulled) :
  consume json_loads consumer = consume_with update_chart json_loads consumer.
Proof. induction consumer as [|[m|e] rest IH]; cbn; [| rewrite IH |]; reflexivity. Qed.


Lemma main_is_with (json_loads : string -> outcome pyval)
    (os_getenv : string -> option string) (consumer : list pulled) :
  main json_loads os_getenv consumer
  = main_with update_chart json_loads os_getenv consumer.
Proof. unfold main, main_with. rewrite consume_is_with. reflexivity. Qed.


(** ** The increment in closed form *)

Lemma incremented_eq (season author : pyval) (t : table) :
  incremented season author t =
  if hashable season
  then match dict_find season t with
       | Some inner =>
           if hashable author
           then dict_set season (dict_set author (counts_get author inner + 1) inner) t
           else t
       | None =>
           if hashable author
           then dict_set season (dict_set author 1 []) (t ++ [(season, [])])
           else t ++ [(season, [])]
       end
  else t.
Proof.
  unfold incremented, increment, season_counts_getitem.
  destruct (hashable season); [|reflexivity].
  unfold bind, get_counts, put_counts, ret, raise.
  cbn [season_counts chart logged closed snd fst].
  destruct (dict_find season t) as [inner|]; destruct (hashable author); reflexivity.
Qed.

Lemma increment_raises (season author : pyval) (w : world) :
  hashable season && hashable author = false ->
  fst (increment season author w) = Raise TypeError.
Proof.
  intros H. unfold increment, season_counts_getitem.
  destruct (hashable season); [|reflexivity].
  cbn [andb] in H. unfold bind, get_counts, put_counts, ret, raise.
  destruct (dict_find season (season_counts w)); cbn; rewrite H; reflexivity.
Qed.

(** ** The handler over a renderer that reads the table and plots *)

Section HandlerCases.

Variable render : M unit.
Hypothesis render_reads : forall t, reads_only render t.
Variable json_loads : string -> outcome pyval.

Lemma process_message_with_eq (message : string) (w : world) :
  process_message_with render json_loads message w =
  match json_loads message with
  | Raise e => handle message e (with_log DEBUG (RawMessage message) w)
  | Ret (PDict items) =>
      let t' := incremented (season_of items) (author_of items) (season_counts w) in
      if hashable (season_of items) && hashable (author_of items)
      then
        let w1 := with_log INFO (UpdatedSeasonCounts t')
                    (with_counts t' (received message items w)) in
        match fst (run render t') with
        | Ret _ => (Ret tt, with_log INFO (ChartUpdated message)
                              (with_calls (snd (run render t')) w1))
        | Raise e => handle message e (with_calls (snd (run render t')) w1)
        end
      else handle message TypeError (with_counts t' (received message items w))
  | Ret v =>
      (Ret tt, with_log ERROR (ExpectedDict v)
                 (with_log INFO (ProcessedJSON v)
                    (with_log DEBUG (RawMessage message) w)))
  end.
Proof.
  unfold process_message_with, try_except, bind at 1, logger at 1.
  cbn [fst snd]. unfold bind at 1, lift.
  destruct (json_loads message) as [v|e]; [|destruct e; reflexivity].
  unfold bind at 1, logger at 1.
  destruct v as [| b | z | x | s | xs | items]; try reflexivity.
  unfold bind at 1, logger at 1.
  fold (season_of items) (author_of items).
  unfold bind at 1. rewrite increment_eq.
  destruct (hashable (season_of items) && hashable (author_of items)) eqn:Hh.
  - apply andb_prop in Hh. destruct Hh as [Hs Ha].
    rewrite increment_returns by assumption.
    unfold bind at 1, get_counts. cbn [fst snd with_counts season_counts].
    unfold bind at 1, logger at 1. unfold bind at 1.
    cbv zeta.
    match goal with |- context [render ?w0] =>
      rewrite (render_reads
                 (incremented (season_of items) (author_of items) (season_counts w))
                 w0 eq_refl) end.
    cbn [fst snd].
    destruct (fst (run render _)) as [[]|e]; [reflexivity | destruct e; reflexivity].
  - rewrite increment_raises by exact Hh. reflexivity.
Qed.

End HandlerCases.

(** ** Loops that carry a state *)

Lemma run_for_each_raise {A : Type} (l : list A) (body : A -> M unit) (t : table)
    (e : exn) :
  (forall x, In x l -> reads_only (body x) t) ->
  fst (run (for_each l body) t) = Raise e ->
  exists x, In x l /\ fst (run (body x) t) = Raise e.
Proof.
  induction l as [|x l IH]; cbn [for_each]; intros Hr H.
  - discriminate.
  - assert (Hx : reads_only (body x) t) by (apply Hr; left; reflexivity).
    assert (Hl : forall y, In y l -> reads_only (body y) t)
      by (intros y Hy; apply Hr; right; exact Hy).
    rewrite run_bind in H by (try exact Hx; intros; apply reads_only_for_each, Hl).
    unfold then_ in H. destruct (fst (run (body x) t)) as [[]|e'] eqn:Ex; cbn [fst] in H.
    + destruct (IH Hl H) as (y & Hy & Hc).
      exists y. split; [right; exact Hy | exact Hc].
    + exists x. split; [left; reflexivity | congruence].
Qed.

Lemma run_for_each_all {A : Type} (l : list A) (body : A -> M unit) (t : table) :
  (forall x, In x l -> reads_only (body x) t) ->
  (forall x, In x l -> run (body x) t = (Ret tt, [])) ->
  run (for_each l body) t = (Ret tt, []).
Proof.
  induction l as [|x l IH]; cbn [for_each]; intros Hr H.
  - reflexivity.
  - rewrite run_bind
      by first [ apply Hr; left; reflexivity
               | intros _; apply reads_only_for_each; intros; apply Hr; right; assumption ].
    rewrite H by (left; reflexivity). unfold then_. cbn [fst snd app].
    rewrite IH; [reflexivity | |]; intros; [apply Hr | apply H]; right; assumption.
Qed.

(** A loop over [l] whose state after the turns of [pre] satisfies
    [J pre]: every call and every exception comes from a turn started in
    such a state, and a loop that completes has completed every turn. *)
Lemma run_foldM_inv {A S : Type} (body : S -> A -> M S) (t : table)
    (J : list A -> S -> Prop) (l done : list A) (s : S) :
  (forall s x, reads_only (body s x) t) ->
  (forall pre x s s', J pre s -> fst (run (body s x) t) = Ret s' -> J (pre ++ [x]) s') ->
  J done s ->
  (forall c, In c (snd (run (foldM body l s) t)) ->
     exists pre x post s0, l = pre ++ x :: post /\ J (done ++ pre) s0 /\
                           In c (snd (run (body s0 x) t))) /\
  (forall e, fst (run (foldM body l s) t) = Raise e ->
     exists pre x post s0, l = pre ++ x :: post /\ J (done ++ pre) s0 /\
                           fst (run (body s0 x) t) = Raise e) /\
  (forall s1, fst (run (foldM body l s) t) = Ret s1 ->
     J (done ++ l) s1 /\
     forall pre x post, l = pre ++ x :: post ->
       exists s0 s0', J (done ++ pre) s0 /\ fst (run (body s0 x) t) = Ret s0' /\
                      incl (snd (run (body s0 x) t)) (snd (run (foldM body l s) t))).
Proof.
  intros Hr Hstep. revert done s.
  induction l as [|x l IH]; intros done s HJ; cbn [foldM].
  - split; [intros c []|]. split; [discriminate|].
    intros s1 H. injection H as <-. rewrite app_nil_r. split; [exact HJ|].
    intros [|? ?] ? ? ?; discriminate.
  - rewrite run_bind by (try apply Hr; intros; apply reads_only_foldM; intros; apply Hr).
    unfold then_. destruct (fst (run (body s x) t)) as [s2|e0] eqn:Ex; cbn [fst snd].
    + assert (HJ2 : J (done ++ [x]) s2) by (eapply Hstep; eassumption).
      destruct (IH (done ++ [x]) s2 HJ2) as (IHc & IHe & IHr).
      split; [|split].
      * intros c Hin. apply in_app_or in Hin as [Hin|Hin].
        -- exists [], x, l, s. rewrite app_nil_r. auto.
        -- destruct (IHc c Hin) as (pre & y & post & s0 & -> & HJ0 & Hc).
           exists (x :: pre), y, post, s0. rewrite <- app_assoc in HJ0. auto.
      * intros e He. destruct (IHe e He) as (pre & y & post & s0 & -> & HJ0 & Hc).
        exists (x :: pre), y, post, s0. rewrite <- app_assoc in HJ0. auto.
      * intros s1 H1. destruct (IHr s1 H1) as [HJ1 Hall].
        rewrite <- app_assoc in HJ1. split; [exact HJ1|].
        intros pre y post E. destruct pre as [|x' pre]; cbn in E.
        -- injection E as <- <-. exists s, s2. rewrite app_nil_r.
           split; [exact HJ|]. split; [exact Ex | apply incl_appl, incl_refl].
        -- injection E as <- ->.
           destruct (Hall pre y post eq_refl) as (s0 & s0' & HJ0 & Hret & Hincl).
           exists s0, s0'. rewrite <- app_assoc in HJ0.
           split; [exact HJ0|]. split; [exact Hret | apply incl_appr, Hincl].
    + split; [|split].
      * intros c Hin. exists [], x, l, s. rewrite app_nil_r. auto.
      * intros e He. injection He as <-. exists [], x, l, s. rewrite app_nil_r. auto.
      * discriminate.
Qed.

(** ** The stack of segments *)

Lemma stacked_nil (t : table) (seasons : list pyval) :
  stacked t seasons [] = repeat 0 (List.length seasons).
Proof. induction seasons as [|x l IH]; cbn; [|rewrite <- IH]; reflexivity. Qed.

Lemma below_app (t : table) (season : pyval) (before : list string) (author : string) :
  below t season (before ++ [author])
  = below t season before + count t season (PStr author).
Proof.
  unfold below. induction before as [|a l IH]; cbn [app fold_right]; [lia | rewrite IH; lia].
Qed.

Lemma stacked_app (t : table) (seasons : list pyval) (before : list string)
    (author : string) :
  map (fun bc => fst bc + snd bc)
      (combine (stacked t seasons before) (heights t seasons author))
  = stacked t seasons (before ++ [author]).
Proof.
  unfold stacked, heights. induction seasons as [|x l IH]; cbn; [reflexivity|].
  rewrite IH, below_app. reflexivity.
Qed.

Lemma stacked_nth (t : table) (seasons : list pyval) (before : list string)
    (i : nat) (x : pyval) :
  nth_error seasons i = Some x ->
  nth_error (stacked t seasons before) i = Some (below t x before).
Proof. intros H. unfold stacked. rewrite nth_error_map, H. reflexivity. Qed.

Lemma heights_nth (t : table) (seasons : list pyval) (author : string) (i : nat) (n : Z) :
  nth_error (heights t seasons author) i = Some n ->
  exists x, nth_error seasons i = Some x /\ n = count t x (PStr author).
Proof.
  unfold heights. rewrite nth_error_map.
  destruct (nth_error seasons i) as [x|]; [|discriminate].
  intros H. injection H as <-. exists x. auto.
Qed.

(** ** What the arithmetic of a label can raise *)

Lemma float_of_int_raise (n : Z) (e : exn) :
  float_of_int n = Raise e -> e = OverflowError.
Proof.
  unfold float_of_int. destruct (binary_normalize 53 1024 n 0 false);
    intros H; try discriminate. injection H as <-. reflexivity.
Qed.

Lemma int_truediv_raise (a b : Z) (e : exn) :
  int_truediv a b = Raise e ->
  (e = ZeroDivisionError /\ b = 0) \/ (e = OverflowError /\ b <> 0).
Proof.
  unfold int_truediv. destruct b as [|b|b].
  - intros H. injection H as <-. left. split; reflexivity.
  - destruct a as [|a|a]; [discriminate | |];
      match goal with |- context [SFdiv ?p ?q ?x ?y] => destruct (SFdiv p q x y) end;
      intros H; try discriminate; injection H as <-; right; (split; [reflexivity | lia]).
  - destruct a as [|a|a]; [discriminate | |];
      match goal with |- context [SFdiv ?p ?q ?x ?y] => destruct (SFdiv p q x y) end;
      intros H; try discriminate; injection H as <-; right; (split; [reflexivity | lia]).
Qed.

Lemma float_times_100 (q : spec_float) : exists p, float_times_int q 100 = Ret p.
Proof.
  unfold float_times_int.
  replace (float_of_int 100) with (Ret (S754_finite false 7036874417766400 (-46)))
    by (vm_compute; reflexivity).
  eexists. reflexivity.
Qed.

Lemma percentage_label_raise (n total : Z) (e : exn) :
  percentage_label n total = Raise e ->
  (e = ZeroDivisionError /\ total = 0) \/ (e = OverflowError /\ total <> 0).
Proof.
  unfold percentage_label.
  destruct (int_truediv n total) as [q|e'] eqn:Eq.
  - destruct (float_times_100 q) as [p ->]. discriminate.
  - intros H. injection H as <-. exact (int_truediv_raise _ _ _ Eq).
Qed.

Lemma label_height_raise (bottom n : Z) (e : exn) :
  label_height bottom n = Raise e -> e = OverflowError.
Proof.
  unfold label_height. destruct (int_truediv n 2) as [half|e'] eqn:Eh.
  - unfold int_plus_float. destruct (float_of_int bottom) as [y|e''] eqn:Eb; [discriminate|].
    intros H. injection H as <-. exact (float_of_int_raise _ _ Eb).
  - intros H. injection H as <-.
    destruct (int_truediv_raise _ _ _ Eh) as [[_ H2]|[He _]]; [discriminate | exact He].
Qed.

(** ** One label, one author *)

Lemma totals_present (t : table) (x : pyval) (seasons : list pyval)
    (d0 : list (pyval * Z)) :
  hashable x = true ->
  In x seasons \/ (exists v, dict_find x d0 = Some v) ->
  exists v,
    dict_find x (fold_left (fun d season => dict_set season (sum_values (lookup t season)) d)
                           seasons d0) = Some v.
Proof.
  intros Hx. revert d0. induction seasons as [|s l IH]; cbn [fold_left]; intros d0 H.
  - destruct H as [[]|H]. exact H.
  - apply IH. destruct H as [[<- |Hin]|[v Hv]].
    + right. rewrite dict_find_set, key_eqb_refl by exact Hx. eauto.
    + left. exact Hin.
    + right. rewrite dict_find_set. destruct (key_eqb s x); eauto.
Qed.

Lemma totals_of_present (t : table) (x : pyval) (seasons : list pyval) :
  hashable x = true -> In x seasons ->
  dict_find x (totals_of t seasons) = Some (season_total t x).
Proof.
  intros Hx Hin. destruct (totals_present t x seasons [] Hx (or_introl Hin)) as [v Hv].
  fold (totals_of t seasons) in Hv. rewrite Hv.
  f_equal. exact (totals_of_find t x v seasons Hv).
Qed.

(** The label of a segment, all its lookups found. *)
Lemma draw_label_run sorted_seasons totals bottom_counts author (i : nat) (n : Z)
    (t : table) (x : pyval) (total bottom : Z) :
  nth_error sorted_seasons i = Some x -> hashable x = true ->
  dict_find x totals = Some total -> nth_error bottom_counts i = Some bottom ->
  run (draw_label sorted_seasons totals bottom_counts author (i, n)) t =
  if 0 <? n
  then match percentage_label n total with
       | Ret s => match label_height bottom n with
                  | Ret y => (Ret tt, [AxText x y s (text_color author)])
                  | Raise e => (Raise e, [])
                  end
       | Raise e => (Raise e, [])
       end
  else (Ret tt, []).
Proof.
  intros Ex Hx Et Eb. unfold run, draw_label. destruct (0 <? n); [|reflexivity].
  unfold bind, index, dict_getitem, lift, plot, ret, raise, percentage_label,
    label_height, text_color.
  rewrite Ex. cbn. rewrite Hx. cbn. rewrite Et. cbn.
  destruct (int_truediv n total) as [q|e]; cbn; [|reflexivity].
  destruct (float_times_int q 100) as [p|e]; cbn; [|reflexivity].
  rewrite Eb. cbn.
  destruct (int_truediv n 2) as [h|e]; cbn; [|reflexivity].
  destruct (int_plus_float bottom h) as [y|e]; cbn; reflexivity.
Qed.

Section OneAuthor.

Variable t : table.
Variable sorted_seasons : list pyval.
Hypothesis seasons_present : Forall (present t) sorted_seasons.
Variable before : list string.
Variables author color : string.

Lemma label_at (i : nat) (n : Z) :
  In (i, n) (enumerate (heights t sorted_seasons author)) ->
  exists x,
    In x sorted_seasons /\ n = count t x (PStr author) /\
    run (draw_label sorted_seasons (totals_of t sorted_seasons)
                    (stacked t sorted_seasons before) author (i, n)) t =
    if 0 <? n
    then match percentage_label n (season_total t x) with
         | Ret s => match label_height (below t x before) n with
                    | Ret y => (Ret tt, [AxText x y s (text_color author)])
                    | Raise e => (Raise e, [])
                    end
         | Raise e => (Raise e, [])
         end
    else (Ret tt, []).
Proof.
  intros Hin. apply enumerate_in in Hin.
  destruct (heights_nth _ _ _ _ _ Hin) as (x & Ex & Hn).
  assert (Hx : In x sorted_seasons) by (eapply nth_error_In; exact Ex).
  assert (Hp : present t x) by (rewrite Forall_forall in seasons_present; auto).
  exists x. split; [exact Hx|]. split; [exact Hn|].
  apply draw_label_run; [exact Ex | apply Hp | | apply stacked_nth, Ex].
  apply totals_of_present; [apply Hp | exact Hx].
Qed.

Lemma draw_author_stacked :
  let r := run (draw_author sorted_seasons (totals_of t sorted_seasons)
                            (stacked t sorted_seasons before) (author, color)) t in
  (forall c, In c (snd r) ->
     c = AxBar sorted_seasons (heights t sorted_seasons author)
               (stacked t sorted_seasons before) color author \/
     exists x y s,
       c = AxText x y s (text_color author) /\ In x sorted_seasons /\
       0 < count t x (PStr author) /\
       percentage_label (count t x (PStr author)) (season_total t x) = Ret s /\
       label_height (below t x before) (count t x (PStr author)) = Ret y) /\
  (forall e, fst r = Raise e ->
     exists x,
       In x sorted_seasons /\ 0 < count t x (PStr author) /\
       (percentage_label (count t x (PStr author)) (season_total t x) = Raise e \/
        label_height (below t x before) (count t x (PStr author)) = Raise e)) /\
  (forall b', fst r = Ret b' -> b' = stacked t sorted_seasons (before ++ [author])).
Proof.
  cbv zeta.
  rewrite (proj2 (draw_author_run sorted_seasons (totals_of t sorted_seasons)
                    (stacked t sorted_seasons before) author color t seasons_present)).
  assert (Hr : forall x, In x (enumerate (heights t sorted_seasons author)) ->
               reads_only (draw_label sorted_seasons (totals_of t sorted_seasons)
                                      (stacked t sorted_seasons before) author x) t)
    by (intros; apply reads_only_draw_label).
  unfold then_ at 1. cbn [fst snd]. split; [|split].
  - intros c [Hc|Hc]; [left; symmetry; exact Hc|]. right.
    unfold then_ in Hc.
    assert (Hc' : In c (snd (run (for_each (enumerate (heights t sorted_seasons author))
                    (draw_label sorted_seasons (totals_of t sorted_seasons)
                                (stacked t sorted_seasons before) author)) t))).
    { destruct (fst (run (for_each _ _) t)); cbn [snd] in Hc;
        [rewrite app_nil_r in Hc|]; exact Hc. }
    destruct (run_for_each_in _ _ _ _ Hr Hc') as ([i n] & Hin & Hl).
    destruct (label_at i n Hin) as (x & Hx & Hn & Hrun). rewrite Hrun in Hl.
    destruct (0 <? n) eqn:En; [|destruct Hl]. apply Z.ltb_lt in En.
    destruct (percentage_label n (season_total t x)) as [s|e] eqn:Es; [|destruct Hl].
    destruct (label_height (below t x before) n) as [y|e] eqn:Ey; [|destruct Hl].
    destruct Hl as [<- |[]]. exists x, y, s. subst n. auto.
  - intros e He. unfold then_ in He.
    destruct (fst (run (for_each _ _) t)) as [[]|e'] eqn:El; cbn [fst] in He;
      [discriminate|]. injection He as <-.
    destruct (run_for_each_raise _ _ _ _ Hr El) as ([i n] & Hin & Hl).
    destruct (label_at i n Hin) as (x & Hx & Hn & Hrun). rewrite Hrun in Hl.
    destruct (0 <? n) eqn:En; [|discriminate]. apply Z.ltb_lt in En.
    exists x. subst n. split; [exact Hx|]. split; [exact En|].
    destruct (percentage_label _ (season_total t x)) as [s|e] eqn:Es;
      [|left; cbn in Hl; congruence].
    destruct (label_height (below t x before) _) as [y|e] eqn:Ey; [discriminate|].
    right. cbn in Hl. congruence.
  - intros b' Hb. unfold then_ in Hb.
    destruct (fst (run (for_each _ _) t)) as [[]|e']; cbn [fst] in Hb; [|discriminate].
    injection Hb as <-. apply stacked_app.
Qed.

End OneAuthor.

(** ** The loop over the authors *)

Section Authors.

Variable t : table.
Variable sorted_seasons : list pyval.
Hypothesis seasons_present : Forall (present t) sorted_seasons.

Lemma draw_authors_stacked (items : list (string * string)) :
  let r := run (foldM (draw_author sorted_seasons (totals_of t sorted_seasons)) items
                      (repeat 0 (List.length sorted_seasons))) t in
  (forall c, In c (snd r) ->
     exists pre author color post,
       items = pre ++ (author, color) :: post /\
       (c = AxBar sorted_seasons (heights t sorted_seasons author)
                  (stacked t sorted_seasons (map fst pre)) color author \/
        exists x y s,
          c = AxText x y s (text_color author) /\ In x sorted_seasons /\
          0 < count t x (PStr author) /\
          percentage_label (count t x (PStr author)) (season_total t x) = Ret s /\
          label_height (below t x (map fst pre)) (count t x (PStr author)) = Ret y)) /\
  (forall e, fst r = Raise e ->
     exists pre author color post x,
       items = pre ++ (author, color) :: post /\
       In x sorted_seasons /\ 0 < count t x (PStr author) /\
       (percentage_label (count t x (PStr author)) (season_total t x) = Raise e \/
        label_height (below t x (map fst pre)) (count t x (PStr author)) = Raise e)).
Proof.
  cbv zeta. rewrite <- stacked_nil with (t := t).
  destruct (run_foldM_inv (draw_author sorted_seasons (totals_of t sorted_seasons)) t
              (fun pre s => s = stacked t sorted_seasons (map fst pre))
              items [] (stacked t sorted_seasons []))
    as (Hc & He & _).
  - intros s [a c]. apply draw_author_run, seasons_present.
  - intros pre [a c] s s' -> Hret. rewrite map_app. cbn [map fst].
    exact (proj2 (proj2 (draw_author_stacked t sorted_seasons seasons_present
                           (map fst pre) a c)) s' Hret).
  - reflexivity.
  - split.
    + intros c Hin. destruct (Hc c Hin) as (pre & [a col] & post & s0 & E & -> & Hin0).
      exists pre, a, col, post. split; [exact E|].
      exact (proj1 (draw_author_stacked t sorted_seasons seasons_present
                      (map fst pre) a col) c Hin0).
    + intros e Hr. destruct (He e Hr) as (pre & [a col] & post & s0 & E & -> & Hr0).
      destruct (proj1 (proj2 (draw_author_stacked t sorted_seasons seasons_present
                                (map fst pre) a col)) e Hr0) as (x & Hx).
      exists pre, a, col, post, x. split; [exact E | exact Hx].
Qed.

(** With no label to draw, the loop draws the bars and completes. *)
Lemma draw_authors_bare (items : list (string * string)) (before : list string) :
  (forall author x, In author (map fst items) -> In x sorted_seasons ->
                    count t x (PStr author) <= 0) ->
  run (foldM (draw_author sorted_seasons (totals_of t sorted_seasons)) items
             (stacked t sorted_seasons before)) t
  = (Ret (stacked t sorted_seasons (before ++ map fst items)),
     bars t sorted_seasons before items).
Proof.
  revert before. induction items as [|[a c] items IH]; intros before Hno.
  - cbn. rewrite app_nil_r. reflexivity.
  - cbn [foldM bars map fst].
    rewrite run_bind
      by first [ apply draw_author_run, seasons_present
               | intros; apply reads_only_foldM; intros s [a' c'] _;
                 apply draw_author_run, seasons_present ].
    rewrite (proj2 (draw_author_run sorted_seasons _ _ a c t seasons_present)).
    rewrite run_for_each_all.
    + unfold then_. cbn [fst snd app]. rewrite stacked_app.
      rewrite IH by (intros; apply Hno; [right|]; assumption).
      cbn [fst snd]. rewrite <- app_assoc. reflexivity.
    + intros; apply reads_only_draw_label.
    + intros [i n] Hin.
      destruct (label_at t sorted_seasons seasons_present before a i n Hin)
        as (x & Hx & Hn & ->).
      assert (Hle : n <= 0) by (subst n; apply Hno; [left; reflexivity | exact Hx]).
      apply Z.ltb_ge in Hle. rewrite Hle. reflexivity.
Qed.

End Authors.

(** ** The render as a whole *)

Lemma sorted_by_int_raise (l : list pyval) (e : exn) :
  sorted_by_int l = Raise e -> exists k, In k l /\ py_int k = Raise e.
Proof.
  unfold sorted_by_int. destruct (int_keys l) as [kl|e'] eqn:E; [discriminate|].
  intros H. injection H as <-. exact (int_keys_raise l e' E).
Qed.

Lemma update_chart_at (w : world) :
  update_chart w = (fst (run update_chart (season_counts w)),
                    with_calls (snd (run update_chart (season_counts w))) w).
Proof. exact (update_chart_reads (season_counts w) w eq_refl). Qed.

(** The calls of a render are the clearing, then those of the loop over
    the authors, then, when this loop completes, the finishing ones. *)
Lemma update_chart_parts (t : table) (sorted_seasons : list pyval) :
  sorted_by_int (map fst t) = Ret sorted_seasons ->
  let loop := run (foldM (draw_author sorted_seasons (totals_of t sorted_seasons))
                         author_colors (repeat 0 (List.length sorted_seasons))) t in
  run update_chart t =
  match fst loop with
  | Ret _ => (Ret tt, AxClear :: snd loop ++ chart_finish sorted_seasons)
  | Raise e => (Raise e, AxClear :: snd loop)
  end.
Proof.
  intros E. cbv zeta. rewrite update_chart_run, E.
  rewrite (proj2 (draw_chart_run sorted_seasons t (present_sorted t sorted_seasons E))).
  unfold then_. cbn [fst snd].
  destruct (fst (run (foldM _ _ _) t)); reflexivity.
Qed.

Lemma sorted_in (t : table) (sorted_seasons : list pyval) (x : pyval) :
  sorted_by_int (map fst t) = Ret sorted_seasons ->
  In x sorted_seasons -> In x (map fst t).
Proof.
  intros E Hx. destruct (sorted_by_int_ret _ _ E) as (Hperm & _).
  eapply Permutation_in; [symmetry; exact Hperm | exact Hx].
Qed.

Lemma update_chart_raise_cases (t : table) (e : exn) :
  fst (run update_chart t) = Raise e ->
  (exists k, In k (map fst t) /\ py_int k = Raise e) \/
  (exists author season,
     In author (map fst author_colors) /\ In season (map fst t) /\
     0 < count t season (PStr author) /\
     (e = OverflowError \/ (e = ZeroDivisionError /\ season_total t season = 0))).
Proof.
  destruct (sorted_by_int (map fst t)) as [sorted|e'] eqn:E.
  - rewrite (update_chart_parts t sorted E).
    destruct (fst (run (foldM _ _ _) t)) as [b|e'] eqn:El; cbn [fst]; [discriminate|].
    intros H. injection H as <-. right.
    destruct (proj2 (draw_authors_stacked t sorted (present_sorted t sorted E)
                       author_colors) e' El)
      as (pre & a & c & post & x & Hitems & Hx & Hpos & Hcase).
    exists a, x. split.
    { rewrite Hitems, map_app. apply in_or_app. right. left. reflexivity. }
    split; [exact (sorted_in t sorted x E Hx)|]. split; [exact Hpos|].
    destruct Hcase as [Hp|Hh].
    + destruct (percentage_label_raise _ _ _ Hp) as [[-> H0]|[-> _]]; auto.
    + left. exact (label_height_raise _ _ _ Hh).
  - rewrite update_chart_run, E. cbn [fst]. intros H. injection H as <-.
    left. exact (sorted_by_int_raise _ _ E).
Qed.

(** A count is part of the total of its season. *)
Lemma fold_left_add_acc (l : list Z) (a : Z) :
  fold_left Z.add l a = a + fold_left Z.add l 0.
Proof.
  revert a. induction l as [|x l IH]; intros a; cbn [fold_left]; [lia|].
  rewrite (IH (a + x)), (IH (0 + x)). lia.
Qed.

Lemma sum_values_cons (k : pyval) (n : Z) (inner : counts) :
  sum_values ((k, n) :: inner) = n + sum_values inner.
Proof.
  unfold sum_values. cbn [map snd fold_left]. rewrite fold_left_add_acc. lia.
Qed.

Lemma sum_values_nonneg (inner : counts) :
  Forall (fun kv => 0 <= snd kv) inner -> 0 <= sum_values inner.
Proof.
  induction 1 as [|[k n] l Hn Hl IH]; [unfold sum_values; cbn; lia|].
  rewrite sum_values_cons. cbn in Hn. lia.
Qed.

Lemma counts_get_le_sum (a : pyval) (inner : counts) :
  Forall (fun kv => 0 <= snd kv) inner -> counts_get a inner <= sum_values inner.
Proof.
  unfold counts_get. induction 1 as [|[k n] l Hn Hl IH].
  - unfold sum_values. cbn. lia.
  - rewrite sum_values_cons. cbn [dict_find]. cbn in Hn.
    pose proof (sum_values_nonneg l Hl).
    destruct (key_eqb k a); [lia|].
    destruct (dict_find a l); lia.
Qed.

Lemma count_le_total (t : table) (season author : pyval) :
  nonneg t -> count t season author <= season_total t season.
Proof.
  intros Hn. unfold count, season_total.
  destruct (dict_find season t) as [inner|] eqn:Ef; [|lia].
  apply counts_get_le_sum.
  exact (dict_find_Forall (fun inner0 : counts => Forall (fun kv => 0 <= snd kv) inner0)
           season inner t Hn Ef).
Qed.

Lemma update_chart_call_cases (t : table) (sorted_seasons : list pyval) (c : plot_call) :
  sorted_by_int (map fst t) = Ret sorted_seasons ->
  In c (snd (run update_chart t)) ->
  c = AxClear \/
  (fst (run update_chart t) = Ret tt /\ In c (chart_finish sorted_seasons)) \/
  exists pre author color post,
    author_colors = pre ++ (author, color) :: post /\
    (c = AxBar sorted_seasons (heights t sorted_seasons author)
               (stacked t sorted_seasons (map fst pre)) color author \/
     exists x y s,
       c = AxText x y s (text_color author) /\ In x sorted_seasons /\
       0 < count t x (PStr author) /\
       percentage_label (count t x (PStr author)) (season_total t x) = Ret s /\
       label_height (below t x (map fst pre)) (count t x (PStr author)) = Ret y).
Proof.
  intros E. rewrite (update_chart_parts t sorted_seasons E).
  pose proof (proj1 (draw_authors_stacked t sorted_seasons
                       (present_sorted t sorted_seasons E) author_colors)) as Hloop.
  cbv zeta in Hloop.
  destruct (fst (run (foldM _ _ _) t)) as [b|e]; cbn [fst snd].
  - intros [<- |Hin]; [left; reflexivity|]. right.
    apply in_app_or in Hin as [Hin|Hin]; [right; exact (Hloop c Hin) | left; auto].
  - intros [<- |Hin]; [left; reflexivity|]. right. right. exact (Hloop c Hin).
Qed.

Lemma update_chart_unsorted (t : table) (e : exn) :
  sorted_by_int (map fst t) = Raise e -> run update_chart t = (Raise e, [AxClear]).
Proof. intros E. rewrite update_chart_run, E. reflexivity. Qed.

(** X3.  The segments are stacked: whatever the render draws, the bar of
    an author lies, in every season, on the sum of the counts of the
    authors that come before it in [author_colors]. *)
Theorem bars_are_stacked (w : world) :
  exists cs,
    snd (update_chart w) = with_calls cs w /\
    forall x h b color label,
      In (AxBar x h b color label) cs ->
      exists pre post,
        author_colors = pre ++ (label, color) :: post /\
        h = map (fun season => count (season_counts w) season (PStr label)) x /\
        b = map (fun season => below (season_counts w) season (map fst pre)) x.
Proof.
  exists (snd (run update_chart (season_counts w))).
  split; [rewrite update_chart_at; reflexivity|].
  intros x h b color label Hin.
  destruct (sorted_by_int (map fst (season_counts w))) as [sorted|e] eqn:E.
  - destruct (update_chart_call_cases _ sorted _ E Hin)
      as [Hc|[[_ Hc]|(pre & a & c & post & Hitems & [Hc|(x' & y & s & Hc & _)])]];
      try discriminate.
    + cbn in Hc. repeat (destruct Hc as [Hc|Hc]; [discriminate|]). destruct Hc.
    + injection Hc as -> -> -> -> ->. exists pre, post. auto.
  - rewrite (update_chart_unsorted _ e E) in Hin. cbn in Hin.
    destruct Hin as [Hc|[]]. discriminate.
Qed.

(** X4.  A label stands in the middle of its segment and is black on the
    segments of Homer and Maggie, white on the others: its ordinate is
    the height of the stack below the segment plus half the count. *)
Theorem labels_are_centred (w : world) :
  exists cs,
    snd (update_chart w) = with_calls cs w /\
    forall x y s c,
      In (AxText x y s c) cs ->
      exists pre author color post,
        author_colors = pre ++ (author, color) :: post /\
        0 < count (season_counts w) x (PStr author) /\
        label_height (below (season_counts w) x (map fst pre))
                     (count (season_counts w) x (PStr author)) = Ret y /\
        (author = "Homer" \/ author = "Maggie" -> c = "black") /\
        (author <> "Homer" -> author <> "Maggie" -> c = "white").
Proof.
  exists (snd (run update_chart (season_counts w))).
  split; [rewrite update_chart_at; reflexivity|].
  intros x y s c Hin.
  destruct (sorted_by_int (map fst (season_counts w))) as [sorted|e] eqn:E.
  - destruct (update_chart_call_cases _ sorted _ E Hin)
      as [Hc|[[_ Hc]|(pre & a & col & post & Hitems &
                       [Hc|(x' & y' & s' & Hc & _ & Hpos & _ & Hy)])]];
      try discriminate.
    + cbn in Hc. repeat (destruct Hc as [Hc|Hc]; [discriminate|]). destruct Hc.
    + injection Hc as -> -> -> ->. exists pre, a, col, post.
      split; [exact Hitems|]. split; [exact Hpos|]. split; [exact Hy|].
      unfold text_color. cbn [existsb]. split.
      * intros [-> | ->]; reflexivity.
      * intros H1 H2. apply String.eqb_neq in H1, H2. rewrite H1, H2. reflexivity.
  - rewrite (update_chart_unsorted _ e E) in Hin. cbn in Hin.
    destruct Hin as [Hc|[]]. discriminate.
Qed.

(** With no label to draw, every call returning. *)
Lemma update_chart_bare (w : world) :
  Forall has_int (map fst (season_counts w)) ->
  no_segment (season_counts w) ->
  exists sorted_seasons,
    sorted_by_int (map fst (season_counts w)) = Ret sorted_seasons /\
    update_chart w =
    (Ret tt,
     with_calls (AxClear :: bars (season_counts w) sorted_seasons [] author_colors
                         ++ chart_finish sorted_seasons) w).
Proof.
  intros Hint Hno. destruct (sorted_by_int_total _ Hint) as [sorted E].
  exists sorted. split; [exact E|].
  rewrite update_chart_at, (update_chart_parts _ sorted E).
  rewrite <- stacked_nil with (t := season_counts w).
  rewrite (draw_authors_bare _ sorted (present_sorted _ sorted E) author_colors []).
  - reflexivity.
  - intros a x Ha Hx. apply Hno; [exact Ha | exact (sorted_in _ sorted x E Hx)].
Qed.

Lemma update_chart_redraw (t : table) :
  exists cs,
    snd (run update_chart t) = AxClear :: cs /\
    (In PltDraw cs <-> fst (run update_chart t) = Ret tt).
Proof.
  destruct (sorted_by_int (map fst t)) as [sorted|e] eqn:E.
  - rewrite (update_chart_parts _ sorted E).
    pose proof (proj1 (draw_authors_stacked _ sorted
                         (present_sorted _ sorted E) author_colors)) as Hloop.
    cbv zeta in Hloop.
    assert (Hno : ~ In PltDraw
              (snd (run (foldM (draw_author sorted (totals_of t sorted))
                               author_colors (repeat 0 (List.length sorted))) t))).
    { intros Hin.
      destruct (Hloop _ Hin) as (pre & a & c & post & _ & [Hc|(x & y & s & Hc & _)]);
        discriminate. }
    destruct (fst (run (foldM _ _ _) t)) as [b|e]; cbn [fst snd].
    + eexists. split; [reflexivity|]. split; [reflexivity|]. intros _.
      apply in_or_app. right. cbn. tauto.
    + eexists. split; [reflexivity|]. split; [intros Hin; contradiction | discriminate].
  - rewrite (update_chart_unsorted _ e E). exists []. cbn [fst snd].
    split; [reflexivity|]. split; [intros [] | discriminate].
Qed.


(** ** The handler and the loop, over either renderer *)

Lemma handle_fst (message : string) (e : exn) (w : world) :
  fst (handle message e w) = if is_Exception e then Ret tt else Raise e.
Proof. destruct e; reflexivity. Qed.

Lemma handle_snd (message : string) (e : exn) (w : world) :
  season_counts (snd (handle message e w)) = season_counts w /\
  chart (snd (handle message e w)) = chart w /\
  closed (snd (handle message e w)) = closed w.
Proof. destruct e; cbn; auto. Qed.

Section Loop.

Variable render : M unit.
Hypothesis render_reads : forall t, reads_only render t.
Hypothesis render_raises : forall t e, fst (run render t) = Raise e -> is_Exception e = true.
Variable json_loads : string -> outcome pyval.

Lemma process_message_with_fst (message : string) (w : world) :
  fst (process_message_with render json_loads message w) =
  match json_loads message with
  | Raise e => if is_Exception e then Ret tt else Raise e
  | Ret _ => Ret tt
  end.
Proof.
  rewrite (process_message_with_eq render render_reads).
  destruct (json_loads message) as [v|e]; [|apply handle_fst].
  destruct v as [| b | z | x | s | xs | items]; try reflexivity.
  cbv zeta. destruct (hashable (season_of items) && hashable (author_of items));
    [|apply handle_fst].
  destruct (fst (run render _)) as [[]|e] eqn:Er; [reflexivity|].
  rewrite handle_fst, (render_raises _ _ Er). reflexivity.
Qed.

Lemma process_message_with_counts (message : string) (w : world) :
  season_counts (snd (process_message_with render json_loads message w))
  = tabled json_loads message (season_counts w).
Proof.
  rewrite (process_message_with_eq render render_reads). unfold tabled.
  destruct (json_loads message) as [v|e]; [|exact (proj1 (handle_snd _ _ _))].
  destruct v as [| b | z | x | s | xs | items]; try reflexivity.
  cbv zeta. destruct (hashable (season_of items) && hashable (author_of items));
    [|exact (proj1 (handle_snd _ _ _))].
  destruct (fst (run render _)) as [[]|e]; [reflexivity|].
  rewrite (proj1 (handle_snd _ _ _)). reflexivity.
Qed.

Lemma process_message_with_chart (message : string) (w : world) :
  chart (snd (process_message_with render json_loads message w))
  = chart w ++ charted render json_loads message (season_counts w).
Proof.
  rewrite (process_message_with_eq render render_reads). unfold charted.
  destruct (json_loads message) as [v|e].
  2: { rewrite (proj1 (proj2 (handle_snd _ _ _))). cbn. rewrite app_nil_r. reflexivity. }
  destruct v as [| b | z | x | s | xs | items]; try (cbn; rewrite app_nil_r; reflexivity).
  cbv zeta. destruct (hashable (season_of items) && hashable (author_of items)).
  2: { rewrite (proj1 (proj2 (handle_snd _ _ _))). cbn. rewrite app_nil_r. reflexivity. }
  destruct (fst (run render _)) as [[]|e]; [reflexivity|].
  rewrite (proj1 (proj2 (handle_snd _ _ _))). reflexivity.
Qed.



End Loop.

(** ** What a computation lets out *)







Lemma update_chart_raises_exception (t : table) (e : exn) :
  fst (run update_chart t) = Raise e -> is_Exception e = true.
Proof.
  intros H.
  destruct (update_chart_raise_cases t e H)
    as [(k & _ & Hk)|(a & x & _ & _ & _ & [-> | [-> _]])]; try reflexivity.
  destruct (py_int_raise k e Hk) as [-> | [-> | ->]]; reflexivity.
Qed.

(** ** The renderer of the draft *)

Lemma getitem_reads_in (t : table) (k : pyval) :
  In k (map fst t) -> reads_only (season_counts_getitem k) t.
Proof.
  intros Hin. destruct (hashable k) eqn:Hk.
  - destruct (dict_find_in k t Hk Hin) as [inner Hf].
    exact (proj1 (reads_only_season_counts_getitem k inner t Hf Hk)).
  - unfold season_counts_getitem. rewrite Hk. apply reads_only_raise.
Qed.

Lemma draft_draw_author_reads (t : table) (seasons : list pyval) (b : list Z)
    (item : string * string) :
  (forall k, In k seasons -> reads_only (season_counts_getitem k) t) ->
  reads_only (Draft.draw_author seasons b item) t.
Proof.
  intros Hk. destruct item as [a c]. unfold Draft.draw_author.
  apply reads_only_bind.
  - apply reads_only_list_comp. intros k Hin.
    apply reads_only_bind; [apply Hk, Hin | intros; apply reads_only_ret].
  - intros amc. apply reads_only_bind; [apply reads_only_plot | intros _].
    apply reads_only_ret.
Qed.

Lemma draft_draw_chart_reads (t : table) (seasons : list pyval) :
  (forall k, In k seasons -> reads_only (season_counts_getitem k) t) ->
  reads_only (Draft.draw_chart seasons) t.
Proof.
  intros Hk. unfold Draft.draw_chart.
  apply reads_only_bind.
  - apply reads_only_foldM. intros s x _. apply draft_draw_author_reads, Hk.
  - intros _. repeat (apply reads_only_bind; [apply reads_only_plot | intros _]).
    apply reads_only_plot.
Qed.

Lemma draft_update_chart_unfold (w : world) :
  Draft.update_chart w
  = Draft.draw_chart (map fst (season_counts w)) (with_calls [AxClear] w).
Proof. reflexivity. Qed.

Lemma draft_update_chart_run (t : table) :
  reads_only Draft.update_chart t /\
  run Draft.update_chart t
  = then_ (Ret tt, [AxClear]) (fun _ => run (Draft.draw_chart (map fst t)) t).
Proof.
  assert (Hr : reads_only (Draft.draw_chart (map fst t)) t)
    by (apply draft_draw_chart_reads; intros k; apply getitem_reads_in).
  assert (He : run Draft.update_chart t
               = then_ (Ret tt, [AxClear]) (fun _ => run (Draft.draw_chart (map fst t)) t)).
  { unfold run at 1. rewrite draft_update_chart_unfold. cbn [blank season_counts].
    rewrite (Hr (with_calls [AxClear] (blank t)) eq_refl). reflexivity. }
  split; [|exact He].
  intros w H. rewrite He, draft_update_chart_unfold, H.
  rewrite (Hr (with_calls [AxClear] w) H). unfold then_. cbn [fst snd].
  rewrite with_calls_app. reflexivity.
Qed.


Lemma well_keyed_present (t : table) : well_keyed t -> Forall (present t) (map fst t).
Proof.
  unfold well_keyed. rewrite !Forall_forall. intros H k Hin.
  split; [apply H, Hin | apply dict_find_in; [apply H, Hin | exact Hin]].
Qed.

Lemma draft_draw_author_run (t : table) (seasons : list pyval) (b : list Z)
    (author color : string) :
  Forall (present t) seasons ->
  run (Draft.draw_author seasons b (author, color)) t
  = (Ret (map (fun bc => fst bc + snd bc) (combine b (heights t seasons author))),
     [AxBar seasons (heights t seasons author) b color author]).
Proof.
  intros Hp. unfold Draft.draw_author.
  destruct (run_list_comp_reads (fun _ inner => counts_get (PStr author) inner)
              t seasons Hp) as [Hr He].
  assert (Hh : map (fun season => counts_get (PStr author) (lookup t season)) seasons
               = heights t seasons author)
    by (unfold heights; apply map_ext; intros; symmetry; apply count_lookup).
  rewrite Hh in He.
  rewrite run_bind
    by first [ exact Hr
             | intros amc; apply reads_only_bind;
               [apply reads_only_plot | intros _; apply reads_only_ret] ].
  rewrite He. unfold then_ at 1. cbn [fst snd app].
  rewrite run_bind by first [apply reads_only_plot | intros _; apply reads_only_ret].
  reflexivity.
Qed.

Lemma draft_draw_authors_run (t : table) (seasons : list pyval)
    (items : list (string * string)) (before : list string) :
  Forall (present t) seasons ->
  run (foldM (Draft.draw_author seasons) items (stacked t seasons before)) t
  = (Ret (stacked t seasons (before ++ map fst items)), bars t seasons before items).
Proof.
  intros Hp. revert before. induction items as [|[a c] items IH]; intros before.
  - cbn. rewrite app_nil_r. reflexivity.
  - cbn [foldM bars map fst].
    assert (Hk : forall k, In k seasons -> reads_only (season_counts_getitem k) t).
    { intros k Hin. rewrite Forall_forall in Hp. exact (proj1 (present_getitem t k (Hp k Hin))). }
    rewrite run_bind
      by first [ apply draft_draw_author_reads, Hk
               | intros; apply reads_only_foldM; intros; apply draft_draw_author_reads, Hk ].
    rewrite draft_draw_author_run by exact Hp.
    unfold then_. cbn [fst snd app]. rewrite stacked_app, IH.
    cbn [fst snd]. rewrite <- app_assoc. reflexivity.
Qed.

Lemma draft_update_chart_calls (t : table) :
  well_keyed t ->
  run Draft.update_chart t
  = (Ret tt, AxClear :: bars t (map fst t) [] author_colors
                     ++ Draft.chart_finish (map fst t)).
Proof.
  intros Hk. rewrite (proj2 (draft_update_chart_run t)).
  unfold then_ at 1. cbn [fst snd]. unfold Draft.draw_chart.
  pose proof (well_keyed_present t Hk) as Hp.
  assert (Hg : forall k, In k (map fst t) -> reads_only (season_counts_getitem k) t)
    by (intros k; apply getitem_reads_in).
  rewrite run_bind.
  - rewrite <- stacked_nil with (t := t).
    rewrite draft_draw_authors_run by exact Hp. reflexivity.
  - apply reads_only_foldM. intros; apply draft_draw_author_reads, Hg.
  - intros _. repeat (apply reads_only_bind; [apply reads_only_plot | intros _]).
    apply reads_only_plot.
Qed.

(** ** [main] around the loop *)

Lemma main_with_eq (render : M unit) (json_loads : string -> outcome pyval)
    (os_getenv : string -> option string) (consumer : list pulled) (w : world) :
  let topic := getenv os_getenv "BUZZ_TOPIC" "unknown_topic" in
  let group_id := getenv os_getenv "BUZZ_CONSUMER_GROUP_ID" "default_group" in
  let loop := consume_with render json_loads consumer (before_loop os_getenv w) in
  let handled :=
    match fst loop with
    | Ret _ => (Ret tt, snd loop)
    | Raise e => handle_loop e (snd loop)
    end in
  let w3 := with_log INFO (ConsumerClosed topic) (with_close (snd handled)) in
  main_with render json_loads os_getenv consumer w =
  match fst handled with
  | Ret _ => (Ret tt, with_log INFO (EndConsumer topic group_id) w3)
  | Raise e => (Raise e, w3)
  end.
Proof.
  cbv zeta.
  unfold main_with, get_kafka_topic, get_kafka_consumer_group_id, try_finally, try_except,
    bind, logger, ret, consumer_close.
  cbn [fst snd season_counts chart logged closed].
  change (mkWorld (season_counts w) (chart w) _ (closed w))
    with (before_loop os_getenv w).
  destruct (consume_with render json_loads consumer (before_loop os_getenv w))
    as [[[]|e] w1]; cbn [fst snd]; [reflexivity|].
  destruct e; reflexivity.
Qed.

Lemma handle_loop_snd (e : exn) (w : world) :
  season_counts (snd (handle_loop e w)) = season_counts w /\
  chart (snd (handle_loop e w)) = chart w.
Proof. destruct e; cbn; auto. Qed.

Lemma main_with_counts (render : M unit) (json_loads : string -> outcome pyval)
    (os_getenv : string -> option string) (consumer : list pulled) (w : world) :
  season_counts (snd (main_with render json_loads os_getenv consumer w))
  = season_counts (snd (consume_with render json_loads consumer (before_loop os_getenv w)))
  /\
  chart (snd (main_with render json_loads os_getenv consumer w))
  = chart (snd (consume_with render json_loads consumer (before_loop os_getenv w))).
Proof.
  rewrite main_with_eq. cbv zeta.
  destruct (consume_with render json_loads consumer (before_loop os_getenv w))
    as [[[]|e] w1]; cbn [fst snd]; [split; reflexivity|].
  pose proof (handle_loop_snd e w1) as [H1 H2].
  destruct (handle_loop e w1) as [[[]|e'] w2]; cbn [fst snd] in *; auto.
Qed.

(** ** The handler of the final module *)




(** ** The loop as a function of the stream *)

Section LoopTable.

Variable render : M unit.
Hypothesis render_reads : forall t, reads_only render t.
Hypothesis render_raises : forall t e, fst (run render t) = Raise e -> is_Exception e = true.
Variable json_loads : string -> outcome pyval.

Lemma consume_with_stream (consumer : list pulled) (w : world) :
  fst (consume_with render json_loads consumer w) = stream_result json_loads consumer /\
  season_counts (snd (consume_with render json_loads consumer w))
  = stream_table json_loads consumer (season_counts w).
Proof.
  revert w.
  induction consumer as [|[m|e] rest IH]; intros w;
    cbn [consume_with stream_result stream_table]; [split; reflexivity | | split; reflexivity].
  unfold bind at 1 3, logger at 1 2. unfold bind at 1 2.
  change (mkWorld (season_counts w) (chart w)
            (logged w ++ [(DEBUG, ReceivedAt (offset m) (value m))]) (closed w))
    with (with_log DEBUG (ReceivedAt (offset m) (value m)) w).
  pose proof (process_message_with_fst render render_reads render_raises json_loads
                (value m) (with_log DEBUG (ReceivedAt (offset m) (value m)) w)) as Hf.
  pose proof (process_message_with_counts render render_reads json_loads
                (value m) (with_log DEBUG (ReceivedAt (offset m) (value m)) w)) as Hc.
  destruct (process_message_with render json_loads (value m) _) as [r w1].
  cbn [fst snd with_log season_counts] in Hf, Hc.
  unfold tabled in *.
  destruct (json_loads (value m)) as [v|e].
  - subst r. destruct (IH w1) as [H1 H2]. rewrite H1, H2, Hc. split; reflexivity.
  - destruct (is_Exception e); subst r.
    + destruct (IH w1) as [H1 H2]. rewrite H1, H2, Hc. split; reflexivity.
    + cbn [fst snd]. split; [reflexivity | exact Hc].
Qed.

Lemma main_with_stream (os_getenv : string -> option string) (consumer : list pulled)
    (w : world) :
  season_counts (snd (main_with render json_loads os_getenv consumer w))
  = stream_table json_loads consumer (season_counts w) /\
  fst (main_with render json_loads os_getenv consumer w)
  = match stream_result json_loads consumer with
    | Raise e => if is_Exception e then Ret tt
                 else match e with KeyboardInterrupt => Ret tt | _ => Raise e end
    | Ret _ => Ret tt
    end.
Proof.
  rewrite (proj1 (main_with_counts render json_loads os_getenv consumer w)).
  rewrite main_with_eq. cbv zeta.
  destruct (consume_with_stream consumer (before_loop os_getenv w)) as [H1 H2].
  split; [exact H2|]. rewrite H1.
  destruct (stream_result json_loads consumer) as [[]|e]; [reflexivity|].
  destruct e; reflexivity.
Qed.

End LoopTable.


(** ** The keys of the table *)

Lemma dict_set_keys {V : Type} (k : pyval) (v : V) (d : list (pyval * V)) :
  map fst (dict_set k v d)
  = match dict_find k d with
    | Some _ => map fst d
    | None => map fst d ++ [k]
    end.
Proof.
  induction d as [|[k0 v0] d IH]; cbn [dict_set dict_find map fst app]; [reflexivity|].
  destruct (key_eqb k0 k); [reflexivity|].
  cbn [map fst]. rewrite IH. destruct (dict_find k d); reflexivity.
Qed.

Lemma incremented_keys (season author : pyval) (t : table) :
  map fst (incremented season author t)
  = if hashable season
    then match dict_find season t with
         | Some _ => map fst t
         | None => map fst t ++ [season]
         end
    else map fst t.
Proof.
  rewrite incremented_eq. destruct (hashable season) eqn:Hs; [|reflexivity].
  destruct (dict_find season t) as [inner|] eqn:Ef; destruct (hashable author).
  - rewrite dict_set_keys, Ef. reflexivity.
  - reflexivity.
  - rewrite dict_set_keys, dict_find_app_none, key_eqb_refl by assumption.
    rewrite map_app. reflexivity.
  - rewrite map_app. reflexivity.
Qed.

Lemma tabled_keys (json_loads : string -> outcome pyval) (message : string) (t : table) :
  exists rest,
    map fst (tabled json_loads message t) = map fst t ++ rest /\
    (List.length rest <= 1)%nat.
Proof.
  unfold tabled. destruct (json_loads message) as [v|e].
  2: { exists []. rewrite app_nil_r. split; [reflexivity | cbn; lia]. }
  destruct v as [| b | z | x | s | xs | items];
    try (exists []; rewrite app_nil_r; split; [reflexivity | cbn; lia]).
  rewrite incremented_keys.
  destruct (hashable (season_of items));
    [destruct (dict_find (season_of items) t)|];
    first [ exists [season_of items]; split; [reflexivity | cbn; lia]
          | exists []; rewrite app_nil_r; split; [reflexivity | cbn; lia] ].
Qed.

Lemma stream_table_keys (json_loads : string -> outcome pyval) (consumer : list pulled)
    (t : table) :
  exists rest,
    map fst (stream_table json_loads consumer t) = map fst t ++ rest /\
    (List.length rest <= List.length (consumed json_loads consumer))%nat.
Proof.
  revert t. induction consumer as [|[m|e] rest IH]; intros t;
    cbn [stream_table consumed].
  - exists []. rewrite app_nil_r. split; [reflexivity | cbn; lia].
  - destruct (tabled_keys json_loads (value m) t) as (r1 & H1 & L1).
    assert (Hsame : forall e, json_loads (value m) = Raise e ->
                              tabled json_loads (value m) t = t)
      by (intros e E; unfold tabled; rewrite E; reflexivity).
    destruct (json_loads (value m)) as [v|e] eqn:El.
    + destruct (IH (tabled json_loads (value m) t)) as (r2 & H2 & L2).
      exists (r1 ++ r2). rewrite H2, H1, <- app_assoc.
      split; [reflexivity|]. rewrite length_app. cbn [List.length]. lia.
    + destruct (is_Exception e).
      * destruct (IH t) as (r2 & H2 & L2). exists r2.
        split; [exact H2 | cbn [List.length]; lia].
      * exists []. rewrite app_nil_r. split; [reflexivity | cbn; lia].
  - exists []. rewrite app_nil_r. split; [reflexivity | cbn; lia].
Qed.

(** X10.  No season is ever removed or moved: the seasons of the table
    after [main] are those before, in the same order, followed by the
    new ones, at most one for each message handled. *)
Theorem seasons_only_grow (json_loads : string -> outcome pyval)
    (os_getenv : string -> option string) (consumer : list pulled) (w : world) :
  exists rest,
    map fst (season_counts (snd (main json_loads os_getenv consumer w)))
    = map fst (season_counts w) ++ rest /\
    (List.length rest <= List.length (consumed json_loads consumer))%nat.
Proof.
  rewrite main_is_with.
  rewrite (proj1 (main_with_stream update_chart update_chart_reads
                    update_chart_raises_exception json_loads os_getenv consumer w)).
  apply stream_table_keys.
Qed.

(** ** A table that cannot be sorted *)

Lemma unsortable_run (t : table) :
  unsortable t -> exists e, run update_chart t = (Raise e, [AxClear]).
Proof.
  intros (k & e & Hin & _ & Hk).
  destruct (sorted_by_int_bad _ k e Hin Hk) as (e' & _ & E & _).
  exists e'. apply update_chart_unsorted, E.
Qed.

Lemma unsortable_tabled (json_loads : string -> outcome pyval) (message : string)
    (t : table) :
  unsortable t -> unsortable (tabled json_loads message t).
Proof.
  intros (k & e & Hin & Hk). exists k, e. split; [|exact Hk].
  destruct (tabled_keys json_loads message t) as (rest & -> & _).
  apply in_or_app. left. exact Hin.
Qed.

Lemma unsortable_charted (json_loads : string -> outcome pyval) (message : string)
    (t : table) :
  unsortable t -> Forall (fun c => c = AxClear) (charted update_chart json_loads message t).
Proof.
  intros Hu. pose proof (unsortable_tabled json_loads message t Hu) as Ht.
  unfold charted, tabled in *.
  destruct (json_loads message) as [v|e]; [|constructor].
  destruct v as [| b | z | x | s | xs | items]; try constructor.
  destruct (hashable (season_of items) && hashable (author_of items)); [|constructor].
  destruct (unsortable_run _ Ht) as [e ->]. repeat constructor.
Qed.

Lemma consume_unsortable (json_loads : string -> outcome pyval) (consumer : list pulled)
    (w : world) :
  unsortable (season_counts w) ->
  exists cs,
    chart (snd (consume_with update_chart json_loads consumer w)) = chart w ++ cs /\
    Forall (fun c => c = AxClear) cs.
Proof.
  revert w. induction consumer as [|[m|e] rest IH]; intros w Hu; cbn [consume_with].
  - exists []. rewrite app_nil_r. split; [reflexivity | constructor].
  - unfold bind at 1, logger at 1. unfold bind at 1.
    change (mkWorld (season_counts w) (chart w)
              (logged w ++ [(DEBUG, ReceivedAt (offset m) (value m))]) (closed w))
      with (with_log DEBUG (ReceivedAt (offset m) (value m)) w).
    pose proof (process_message_with_chart update_chart update_chart_reads json_loads
                  (value m) (with_log DEBUG (ReceivedAt (offset m) (value m)) w)) as Hch.
    pose proof (process_message_with_counts update_chart update_chart_reads json_loads
                  (value m) (with_log DEBUG (ReceivedAt (offset m) (value m)) w)) as Hc.
    pose proof (unsortable_charted json_loads (value m) _ Hu) as Hcs.
    pose proof (unsortable_tabled json_loads (value m) _ Hu) as Hu1.
    destruct (process_message_with update_chart json_loads (value m) _) as [r w1].
    cbn [fst snd with_log season_counts chart] in Hch, Hc.
    rewrite <- Hc in Hu1.
    destruct r as [[]|e].
    + destruct (IH w1 Hu1) as (cs & Hcs1 & Hall).
      exists (charted update_chart json_loads (value m) (season_counts w) ++ cs).
      rewrite Hcs1, Hch, <- app_assoc. split; [reflexivity|].
      apply Forall_app. split; assumption.
    + cbn [snd]. eexists. split; [exact Hch | exact Hcs].
  - exists []. rewrite app_nil_r. split; [reflexivity | constructor].
Qed.

(** X11.  A failed render is final.  Once the table holds a season that
    [int] rejects (the default ["unknown"] of a payload without a season,
    say), no later message of the stream is charted: each render clears
    the axes and stops, and the figure is never drawn again. *)
Theorem unsortable_table_is_never_charted (json_loads : string -> outcome pyval)
    (os_getenv : string -> option string) (consumer : list pulled) (w : world) :
  unsortable (season_counts w) ->
  let w' := snd (main json_loads os_getenv consumer w) in
  unsortable (season_counts w') /\
  exists cs,
    chart w' = chart w ++ cs /\
    Forall (fun c => c = AxClear) cs.
Proof.
  intros Hu. cbv zeta. rewrite main_is_with. split.
  - rewrite (proj1 (main_with_stream update_chart update_chart_reads
                      update_chart_raises_exception json_loads os_getenv consumer w)).
    revert Hu. generalize (season_counts w). clear w.
    induction consumer as [|[m|e] rest IH]; intros t Hu; cbn [stream_table]; try exact Hu.
    destruct (json_loads (value m)) as [v|e] eqn:El.
    + apply IH, unsortable_tabled, Hu.
    + destruct (is_Exception e); [apply IH|]; exact Hu.
  - rewrite (proj2 (main_with_counts update_chart json_loads os_getenv consumer w)).
    apply (consume_unsortable json_loads consumer (before_loop os_getenv w)). exact Hu.
Qed.

Lemma unsortable_table_is_never_charted_witness :
  let w' := snd (main sample_loads no_env [Yield (mkMessage text_homer_1 0)]
                      (blank table_1_unknown)) in
  unsortable (season_counts w') /\
  exists cs,
    chart w' = chart (blank table_1_unknown) ++ cs /\
    Forall (fun c => c = AxClear) cs.
Proof.
  apply (unsortable_table_is_never_charted sample_loads no_env
           [Yield (mkMessage text_homer_1 0)] (blank table_1_unknown)).
  exists (PStr "unknown"), ValueError.
  split; [right; left; reflexivity | split; reflexivity].
Defined.

(** X12.  An author that cannot be a key drops the message after the
    season was created: the season, when new and hashable, stays in the
    table with no author, [TypeError] is logged, no count moves and
    nothing is drawn. *)
Theorem unhashable_author_leaves_season (json_loads : string -> outcome pyval)
    (message : string) (items : list (string * pyval)) (w : world) :
  json_loads message = Ret (PDict items) ->
  hashable (season_of items) = true ->
  hashable (author_of items) = false ->
  dict_find (season_of items) (season_counts w) = None ->
  process_message json_loads message w =
  (Ret tt,
   with_log ERROR (ErrorProcessing TypeError)
     (with_counts (season_counts w ++ [(season_of items, [])])
        (received message items w))) /\
  forall season author,
    count (season_counts (snd (process_message json_loads message w))) season author
    = count (season_counts w) season author.
Proof.
  intros Hl Hs Ha Hf. rewrite process_message_is_with.
  rewrite (process_message_with_eq update_chart update_chart_reads), Hl.
  cbv zeta. rewrite Hs, Ha. cbn [andb handle is_Exception].
  rewrite incremented_eq, Hs, Ha, Hf. split; [reflexivity|].
  intros season author. cbn [snd logger with_counts season_counts].
  unfold count. rewrite dict_find_app_none by exact Hf.
  destruct (key_eqb (season_of items) season) eqn:E; [|reflexivity].
  rewrite <- (dict_find_key_eqb _ _ (season_counts w) E), Hf. reflexivity.
Qed.

Lemma unhashable_author_leaves_season_witness :
  process_message more_loads text_list_author initial =
  (Ret tt,
   with_log ERROR (ErrorProcessing TypeError)
     (with_counts [(PStr "5", [])]
        (received text_list_author [("author", PList [PInt 1]); ("season", PStr "5")]
                  initial))) /\
  forall season author,
    count (season_counts (snd (process_message more_loads text_list_author initial)))
          season author
    = count (season_counts initial) season author.
Proof.
  apply (unhashable_author_leaves_season more_loads text_list_author
           [("author", PList [PInt 1]); ("season", PStr "5")] initial);
    reflexivity.
Defined.

(** ** The totals of the seasons *)

Lemma sum_values_set (a : pyval) (n : Z) (inner : counts) :
  sum_values (dict_set a n inner) = sum_values inner - counts_get a inner + n.
Proof.
  unfold counts_get. induction inner as [|[k v] d IH]; cbn [dict_set dict_find].
  - unfold sum_values. cbn. lia.
  - destruct (key_eqb k a).
    + rewrite !sum_values_cons. lia.
    + rewrite !sum_values_cons, IH. lia.
Qed.

Lemma season_total_app_empty (t : table) (s x : pyval) :
  dict_find s t = None ->
  season_total (t ++ [(s, [])]) x = season_total t x.
Proof.
  intros Hf. unfold season_total. rewrite dict_find_app_none by exact Hf.
  destruct (key_eqb s x) eqn:E; [|reflexivity].
  rewrite <- (dict_find_key_eqb _ _ t E), Hf. reflexivity.
Qed.

Lemma season_total_incremented (season author x : pyval) (t : table) :
  season_total (incremented season author t) x
  = season_total t x
    + (if hashable season && hashable author && key_eqb season x then 1 else 0).
Proof.
  rewrite incremented_eq. destruct (hashable season) eqn:Hs; cbn [andb]; [|lia].
  destruct (dict_find season t) as [inner|] eqn:Ef;
    destruct (hashable author) eqn:Ha; cbn [andb]; try lia.
  - unfold season_total. rewrite dict_find_set.
    destruct (key_eqb season x) eqn:E; [|lia].
    rewrite <- (dict_find_key_eqb _ _ t E), Ef, sum_values_set. lia.
  - unfold season_total at 1. rewrite dict_find_set.
    destruct (key_eqb season x) eqn:E.
    + unfold season_total. rewrite <- (dict_find_key_eqb _ _ t E), Ef.
      reflexivity.
    + fold (season_total (t ++ [(season, [])]) x).
      rewrite season_total_app_empty by exact Ef. lia.
  - rewrite season_total_app_empty by exact Ef. lia.
Qed.




(** ** The draft *)

Lemma draft_update_chart_at (w : world) :
  Draft.update_chart w = (fst (run Draft.update_chart (season_counts w)),
                          with_calls (snd (run Draft.update_chart (season_counts w))) w).
Proof. exact (proj1 (draft_update_chart_run (season_counts w)) w eq_refl). Qed.

Lemma draft_reads (t : table) : reads_only Draft.update_chart t.
Proof. exact (proj1 (draft_update_chart_run t)). Qed.

Lemma well_keyed_incremented (season author : pyval) (t : table) :
  well_keyed t -> well_keyed (incremented season author t).
Proof.
  unfold well_keyed. rewrite incremented_keys. intros H.
  destruct (hashable season) eqn:Hs; [|exact H].
  destruct (dict_find season t); [exact H|].
  apply Forall_app. split; [exact H | repeat constructor; exact Hs].
Qed.

Lemma well_keyed_tabled (json_loads : string -> outcome pyval) (message : string)
    (t : table) :
  well_keyed t -> well_keyed (tabled json_loads message t).
Proof.
  intros H. unfold tabled. destruct (json_loads message) as [v|e]; [|exact H].
  destruct v; try exact H. apply well_keyed_incremented, H.
Qed.

(** The handler of the draft, every call returning. *)
Lemma draft_process_message_charts (json_loads : string -> outcome pyval)
    (message : string) (items : list (string * pyval)) (w : world) :
  json_loads message = Ret (PDict items) ->
  hashable (season_of items) = true -> hashable (author_of items) = true ->
  well_keyed (season_counts w) ->
  let t' := incremented (season_of items) (author_of items) (season_counts w) in
  Draft.process_message json_loads message w =
  (Ret tt,
   with_log INFO (ChartUpdated message)
     (with_calls (AxClear :: bars t' (map fst t') [] author_colors
                         ++ Draft.chart_finish (map fst t'))
        (with_log INFO (UpdatedSeasonCounts t')
           (with_counts t' (received message items w))))) /\
  count t' (season_of items) (author_of items)
  = count (season_counts w) (season_of items) (author_of items) + 1.
Proof.
  intros Hl Hs Ha Hk. cbv zeta. split.
  - rewrite draft_process_message_is_with.
    rewrite (process_message_with_eq Draft.update_chart draft_reads), Hl.
    cbv zeta. rewrite Hs, Ha. cbn [andb].
    rewrite (draft_update_chart_calls _ (well_keyed_incremented _ _ _ Hk)).
    reflexivity.
  - rewrite count_incremented by assumption.
    rewrite !key_eqb_refl by assumption. reflexivity.
Qed.






(** ** The sort *)






Lemma insert_keyed_least (x : Z * pyval) (l : list (Z * pyval)) :
  Forall (keyed_le x) l -> insert_keyed x l = x :: l.
Proof.
  destruct l as [|y l]; [reflexivity|]. intros H. cbn [insert_keyed].
  apply Forall_inv in H. unfold keyed_le in H.
  apply Z.leb_le in H. rewrite H. reflexivity.
Qed.

Lemma sort_keyed_sorted_id (l : list (Z * pyval)) :
  StronglySorted keyed_le l -> sort_keyed l = l.
Proof.
  induction 1 as [|x l Hs IH Hx]; [reflexivity|].
  unfold sort_keyed in *. cbn [fold_right]. rewrite IH.
  apply insert_keyed_least, Hx.
Qed.

Lemma int_keys_sorted (l : list pyval) :
  Forall has_int l -> StronglySorted int_le l ->
  exists kl, int_keys l = Ret kl /\ map snd kl = l /\ StronglySorted keyed_le kl.
Proof.
  intros Hint Hs. induction Hs as [|k l Hs IH Hk].
  - exists []. repeat split; constructor.
  - apply Forall_cons_iff in Hint as [[n Hn] Hint].
    destruct (IH Hint) as (kl & E & Hm & Hkl).
    exists ((n, k) :: kl). cbn [int_keys]. rewrite Hn, E.
    split; [reflexivity|]. split; [cbn; rewrite Hm; reflexivity|].
    constructor; [exact Hkl|].
    destruct (int_keys_ret l kl E) as [_ Hall].
    rewrite Forall_forall in *. intros p Hp. unfold keyed_le. cbn [fst].
    assert (Hin : In (snd p) l) by (rewrite <- Hm; apply in_map, Hp).
    destruct (Hk (snd p) Hin) as (x & y & Hx & Hy & Hle).
    rewrite (Hall p Hp) in Hy. congruence.
Qed.



(** ** The bars of the two renderers *)

Lemma only_bars_app (a b : list plot_call) :
  only_bars (a ++ b) = only_bars a ++ only_bars b.
Proof. unfold only_bars. apply filter_app. Qed.

Lemma only_bars_texts (l : list plot_call) :
  (forall c, In c l -> exists x y s color, c = AxText x y s color) ->
  only_bars l = [].
Proof.
  induction l as [|c l IH]; intros H; [reflexivity|].
  destruct (H c (or_introl eq_refl)) as (x & y & s & color & ->).
  cbn. apply IH. intros c' Hc'. apply H. right. exact Hc'.
Qed.

Lemma only_bars_bars (t : table) (seasons : list pyval) (before : list string)
    (items : list (string * string)) :
  only_bars (bars t seasons before items) = bars t seasons before items.
Proof.
  revert before. induction items as [|[a c] items IH]; intros before; [reflexivity|].
  cbn [bars only_bars filter]. f_equal. apply IH.
Qed.

Lemma draw_author_only_bars sorted_seasons totals bottom_counts author color (t : table) :
  Forall (present t) sorted_seasons ->
  only_bars (snd (run (draw_author sorted_seasons totals bottom_counts
                                   (author, color)) t))
  = [AxBar sorted_seasons (heights t sorted_seasons author) bottom_counts color author].
Proof.
  intros Hp. rewrite (proj2 (draw_author_run _ totals bottom_counts author color t Hp)).
  unfold then_. cbn [fst snd app only_bars filter]. f_equal.
  apply only_bars_texts. intros c Hin.
  destruct (fst (run (for_each _ _) t)); cbn [snd] in Hin;
    [rewrite app_nil_r in Hin|];
    apply labels_calls in Hin as (x & y & s & color' & _ & -> & _); eauto.
Qed.

Lemma draw_authors_only_bars (t : table) (sorted_seasons : list pyval)
    (items : list (string * string)) (before : list string) :
  Forall (present t) sorted_seasons ->
  let r := run (foldM (draw_author sorted_seasons (totals_of t sorted_seasons)) items
                      (stacked t sorted_seasons before)) t in
  exists rest,
    bars t sorted_seasons before items = only_bars (snd r) ++ rest /\
    (forall b, fst r = Ret b -> rest = []).
Proof.
  intros Hp. cbv zeta. revert before.
  induction items as [|[a c] items IH]; intros before.
  - exists []. split; [reflexivity | reflexivity].
  - cbn [foldM bars].
    assert (Hr : forall s item,
               reads_only (draw_author sorted_seasons (totals_of t sorted_seasons) s item) t)
      by (intros s [a' c']; apply draw_author_run, Hp).
    rewrite run_bind by (try apply Hr; intros; apply reads_only_foldM; intros; apply Hr).
    unfold then_.
    pose proof (draw_author_only_bars sorted_seasons (totals_of t sorted_seasons)
                  (stacked t sorted_seasons before) a c t Hp) as Hb.
    pose proof (proj2 (proj2 (draw_author_stacked t sorted_seasons Hp before a c))) as Hs.
    cbv zeta in Hs.
    destruct (fst (run (draw_author _ _ _ (a, c)) t)) as [b1|e]; cbn [fst snd].
    + rewrite (Hs b1 eq_refl). destruct (IH (before ++ [a])) as (rest & Hrest & Hret).
      exists rest. rewrite only_bars_app, Hb, Hrest. split; [reflexivity | exact Hret].
    + exists (bars t sorted_seasons (before ++ [a]) items). rewrite Hb.
      split; [reflexivity | discriminate].
Qed.

Lemma only_bars_frame (cs finish : list plot_call) :
  only_bars finish = [] -> only_bars (AxClear :: cs ++ finish) = only_bars cs.
Proof.
  intros H. change (only_bars (AxClear :: cs ++ finish)) with (only_bars (cs ++ finish)).
  rewrite only_bars_app, H, app_nil_r. reflexivity.
Qed.

Lemma update_chart_only_bars (t : table) (sorted_seasons : list pyval) :
  sorted_by_int (map fst t) = Ret sorted_seasons ->
  exists rest,
    bars t sorted_seasons [] author_colors
    = only_bars (snd (run update_chart t)) ++ rest /\
    (fst (run update_chart t) = Ret tt -> rest = []).
Proof.
  intros E. rewrite (update_chart_parts t sorted_seasons E).
  destruct (draw_authors_only_bars t sorted_seasons author_colors []
              (present_sorted t sorted_seasons E)) as (rest & Hrest & Hret).
  rewrite stacked_nil in Hrest, Hret.
  destruct (fst (run (foldM _ _ _) t)) as [b|e] eqn:El; cbn [fst snd].
  - exists rest. split; [|intros _; exact (Hret b eq_refl)].
    rewrite Hrest, only_bars_frame by reflexivity. reflexivity.
  - exists rest. split; [exact Hrest | discriminate].
Qed.

(** ** Numbers within the range of a float

    The rounding of [SpecFloat] gives a finite number when the mantissa
    and the exponent it starts from are small; so do the division and
    the conversion of integers below [2 ^ 53]. *)

Lemma digits2_size (p : positive) : digits2_pos p = Pos.size p.
Proof. induction p as [p IH|p IH|]; cbn; [rewrite IH | rewrite IH |]; reflexivity. Qed.

Lemma Zdigits2_bound (m k : Z) : 0 <= m < 2 ^ k -> 0 <= k -> 0 <= Zdigits2 m <= k.
Proof.
  intros [H0 H] Hk. destruct m as [|p|p]; cbn [Zdigits2]; [lia | | lia].
  rewrite digits2_size. split; [lia|].
  pose proof (Pos.size_le p) as Hs.
  apply Pos2Z.pos_le_pos in Hs. rewrite Pos2Z.inj_pow in Hs.
  assert (H2 : 2 ^ Z.pos (Pos.size p) < 2 ^ (k + 1)).
  { rewrite Z.pow_add_r by lia. change (Z.pos p~0) with (2 * Z.pos p) in Hs. lia. }
  apply Z.pow_lt_mono_r_iff in H2; lia.
Qed.

Lemma iter_pos_inv {A : Type} (P : A -> Prop) (f : A -> A) (p : positive) (x : A) :
  (forall y, P y -> P (f y)) -> P x -> P (iter_pos f p x).
Proof.
  intros Hf. revert x. induction p as [p IH|p IH|]; intros x Hx; cbn; auto.
Qed.

Lemma shr_1_bound (mrs : shr_record) (M : Z) :
  0 <= shr_m mrs <= M -> 0 <= shr_m (shr_1 mrs) <= M.
Proof.
  destruct mrs as [m r s]. cbn [shr_m]. intros H.
  destruct m as [|[p|p|]|[p|p|]]; cbn [shr_1 shr_m]; lia.
Qed.

Lemma shr_bound (mrs : shr_record) (e n M : Z) :
  0 <= shr_m mrs <= M ->
  0 <= shr_m (fst (shr mrs e n)) <= M /\ snd (shr mrs e n) = e + Z.max n 0.
Proof.
  intros H. destruct n as [|p|p]; cbn [shr fst snd]; [split; [exact H | lia] | | split; [exact H | lia]].
  split; [|lia].
  apply (iter_pos_inv (fun mrs0 => 0 <= shr_m mrs0 <= M) shr_1 p mrs);
    [intros y; apply shr_1_bound | exact H].
Qed.

Lemma shr_record_of_loc_m (m : Z) (l : location) : shr_m (shr_record_of_loc m l) = m.
Proof. destruct l as [|[]]; reflexivity. Qed.

Lemma round_nearest_even_bound (m : Z) (l : location) :
  m <= round_nearest_even m l <= m + 1.
Proof. destruct l as [|[]]; cbn; try lia. destruct (Z.even m); lia. Qed.

Lemma shr_fexp_bound (m e M D : Z) (l : location) :
  0 <= m <= M -> m < 2 ^ D -> 0 <= D ->
  0 <= shr_m (fst (shr_fexp 53 1024 m e l)) <= M /\
  snd (shr_fexp 53 1024 m e l) <= Z.max e (Z.max (D + e - 53) (-1074)).
Proof.
  intros Hm HD H0. unfold shr_fexp.
  destruct (shr_bound (shr_record_of_loc m l) e
              (fexp 53 1024 (Zdigits2 m + e) - e) M) as [H1 H2].
  { rewrite shr_record_of_loc_m. exact Hm. }
  split; [exact H1|]. rewrite H2.
  pose proof (Zdigits2_bound m D (conj (proj1 Hm) HD) H0) as Hd.
  unfold fexp, emin. lia.
Qed.

Lemma binary_round_aux_finite (sx : bool) (mx ex : Z) (lx : location) (D : Z) (s : bool) :
  0 <= mx < 2 ^ D -> 0 <= D <= 300 -> ex <= 300 ->
  binary_round_aux 53 1024 sx mx ex lx <> S754_infinity s.
Proof.
  intros Hm HD He. unfold binary_round_aux.
  destruct (shr_fexp_bound mx ex mx D lx) as [H1 H2]; [lia | lia | lia |].
  destruct (shr_fexp 53 1024 mx ex lx) as [mrs' e'] eqn:E1. cbn [fst snd] in H1, H2.
  pose proof (round_nearest_even_bound (shr_m mrs') (loc_of_shr_record mrs')) as Hr.
  set (m1 := round_nearest_even (shr_m mrs') (loc_of_shr_record mrs')) in *.
  assert (Hpow : 2 ^ (D + 1) = 2 * 2 ^ D) by (rewrite Z.pow_add_r by lia; lia).
  destruct (shr_fexp_bound m1 e' m1 (D + 1) loc_Exact) as [H3 H4]; [lia | lia | lia |].
  destruct (shr_fexp 53 1024 m1 e' loc_Exact) as [mrs'' e''] eqn:E2.
  cbn [fst snd] in H3, H4.
  destruct (shr_m mrs'') as [|p|p]; try discriminate.
  assert (Hle : e'' <= 1024 - 53) by lia.
  apply Z.leb_le in Hle. rewrite Hle. discriminate.
Qed.

Lemma SFdiv_core_bound (a b : positive) :
  Z.pos a < 2 ^ 53 -> Z.pos b < 2 ^ 53 ->
  let '(mz, ez, lz) := SFdiv_core_binary 53 1024 (Z.pos a) 0 (Z.pos b) 0 in
  0 <= mz < 2 ^ 159 /\ ez <= 0.
Proof.
  intros Ha Hb. unfold SFdiv_core_binary.
  pose proof (Zdigits2_bound (Z.pos a) 53 (conj (Pos2Z.is_nonneg a) Ha) ltac:(lia)) as Hda.
  pose proof (Zdigits2_bound (Z.pos b) 53 (conj (Pos2Z.is_nonneg b) Hb) ltac:(lia)) as Hdb.
  set (e' := Z.min (fexp 53 1024 (Zdigits2 (Z.pos a) + 0 - (Zdigits2 (Z.pos b) + 0))) (0 - 0)).
  assert (He : -106 <= e' <= 0) by (unfold e', fexp, emin; lia).
  set (m' := match 0 - 0 - e' with
             | 0 => Z.pos a
             | Z.pos _ => Z.shiftl (Z.pos a) (0 - 0 - e')
             | Z.neg _ => 0
             end).
  assert (Hm : 0 <= m' < 2 ^ 159).
  { unfold m'. destruct (0 - 0 - e') as [|s|s] eqn:Es.
    - split; [lia|]. eapply Z.lt_trans; [exact Ha|]. apply Z.pow_lt_mono_r; lia.
    - rewrite Z.shiftl_mul_pow2 by lia.
      assert (2 ^ Z.pos s <= 2 ^ 106) by (apply Z.pow_le_mono_r; lia).
      assert (0 < 2 ^ Z.pos s) by (apply Z.pow_pos_nonneg; lia).
      replace (2 ^ 159) with (2 ^ 53 * 2 ^ 106) by (rewrite <- Z.pow_add_r by lia; reflexivity).
      split; [lia|]. nia.
    - split; [lia|]. apply Z.pow_pos_nonneg; lia. }
  pose proof (Z_div_mod m' (Z.pos b) ltac:(lia)) as Hdiv.
  destruct (Z.div_eucl m' (Z.pos b)) as [q r]. destruct Hdiv as [Hq Hr].
  split; [|lia]. split; nia.
Qed.

Lemma int_truediv_finite (a b : Z) :
  0 < a < 2 ^ 53 -> 0 < b < 2 ^ 53 -> exists q, int_truediv a b = Ret q.
Proof.
  intros Ha Hb. destruct a as [|a|a]; try lia. destruct b as [|b|b]; try lia.
  unfold int_truediv. cbn [Z.abs Z.to_pos Z.ltb Z.compare].
  assert (Hfin : forall s, SFdiv 53 1024 (S754_finite false a 0) (S754_finite false b 0)
                           <> S754_infinity s).
  { intros s. unfold SFdiv.
    pose proof (SFdiv_core_bound a b (proj2 Ha) (proj2 Hb)) as Hc.
    destruct (SFdiv_core_binary 53 1024 (Z.pos a) 0 (Z.pos b) 0) as [[mz ez] lz].
    destruct Hc as [Hm He].
    apply (binary_round_aux_finite _ mz ez lz 159); lia. }
  destruct (SFdiv 53 1024 (S754_finite false a 0) (S754_finite false b 0)) as [s|s| |s m e];
    try (eexists; reflexivity).
  exfalso. exact (Hfin s eq_refl).
Qed.

Lemma pos_iter_xO (m d : positive) : Z.pos (Pos.iter xO m d) = Z.pos m * 2 ^ Z.pos d.
Proof.
  induction d as [|d IH] using Pos.peano_ind.
  - cbn. lia.
  - rewrite Pos.iter_succ, Pos2Z.inj_succ, Z.pow_succ_r by lia.
    change (Z.pos (Pos.iter xO m d)~0) with (2 * Z.pos (Pos.iter xO m d)).
    rewrite IH. lia.
Qed.

Lemma float_of_int_finite (n : Z) :
  0 <= n < 2 ^ 53 -> exists x, float_of_int n = Ret x.
Proof.
  intros Hn. unfold float_of_int. destruct n as [|m|m]; [eexists; reflexivity | | lia].
  cbn [binary_normalize].
  assert (Hfin : forall s, binary_round 53 1024 false m 0 <> S754_infinity s).
  { intros s. unfold binary_round, shl_align.
    pose proof (Zdigits2_bound (Z.pos m) 53 (conj (Pos2Z.is_nonneg m) (proj2 Hn))
                  ltac:(lia)) as Hd.
    cbn [Zdigits2] in Hd.
    set (ex' := fexp 53 1024 (Z.pos (digits2_pos m) + 0)).
    assert (He : -52 <= ex' <= 0) by (unfold ex', fexp, emin; lia).
    destruct (ex' - 0) as [|d|d] eqn:Ed.
    - apply (binary_round_aux_finite _ _ _ _ 53); lia.
    - apply (binary_round_aux_finite _ _ _ _ 53); lia.
    - apply (binary_round_aux_finite _ _ _ _ 105); [|lia|lia].
      rewrite pos_iter_xO.
      assert (2 ^ Z.pos d <= 2 ^ 52) by (apply Z.pow_le_mono_r; lia).
      assert (0 < 2 ^ Z.pos d) by (apply Z.pow_pos_nonneg; lia).
      replace (2 ^ 105) with (2 ^ 53 * 2 ^ 52) by (rewrite <- Z.pow_add_r by lia; reflexivity).
      split; [lia|]. nia. }
  destruct (binary_round 53 1024 false m 0) as [s|s| |s m' e];
    try (eexists; reflexivity).
  exfalso. exact (Hfin s eq_refl).
Qed.

Lemma percentage_label_ret (n total : Z) :
  0 < n < 2 ^ 53 -> 0 < total < 2 ^ 53 -> exists s, percentage_label n total = Ret s.
Proof.
  intros Hn Ht. unfold percentage_label.
  destruct (int_truediv_finite n total Hn Ht) as [q ->].
  destruct (float_times_100 q) as [p ->]. eexists. reflexivity.
Qed.

Lemma label_height_ret (bottom n : Z) :
  0 <= bottom < 2 ^ 53 -> 0 < n < 2 ^ 53 -> exists y, label_height bottom n = Ret y.
Proof.
  intros Hb Hn. unfold label_height.
  destruct (int_truediv_finite n 2 Hn) as [half ->]; [split; [lia | reflexivity]|].
  unfold int_plus_float. destruct (float_of_int_finite bottom Hb) as [y ->].
  eexists. reflexivity.
Qed.

(** The stack below a segment is part of the total of the season. *)
Lemma key_eqb_str (k : pyval) (a : string) : key_eqb k (PStr a) = true -> k = PStr a.
Proof. rewrite key_eqb_sym. apply key_eqb_str_inv. Qed.

Lemma stack_le_sum (inner : counts) (before : list string) :
  Forall (fun kv => 0 <= snd kv) inner -> NoDup before ->
  0 <= fold_right (fun a s => counts_get (PStr a) inner + s) 0 before <= sum_values inner.
Proof.
  intros Hn Hd. split.
  { induction before as [|a l IH]; cbn [fold_right]; [lia|].
    pose proof (counts_get_nonneg (PStr a) inner Hn).
    apply NoDup_cons_iff in Hd. specialize (IH (proj2 Hd)). lia. }
  revert before Hd. induction Hn as [|[k v] d Hv Hn IH]; intros before Hd.
  - unfold sum_values. cbn [map fold_left].
    induction before as [|a l IHl]; cbn [fold_right]; [lia|].
    apply NoDup_cons_iff in Hd. specialize (IHl (proj2 Hd)).
    unfold counts_get in *. cbn [dict_find] in *. lia.
  - rewrite sum_values_cons. cbn [snd] in Hv. specialize (IH before Hd).
    enough (H : fold_right (fun a s => counts_get (PStr a) ((k, v) :: d) + s) 0 before
                <= v + fold_right (fun a s => counts_get (PStr a) d + s) 0 before) by lia.
    clear IH. induction before as [|a l IHl]; cbn [fold_right]; [lia|].
    apply NoDup_cons_iff in Hd. destruct Hd as [Hnotin Hd]. specialize (IHl Hd).
    unfold counts_get at 1. cbn [dict_find].
    destruct (key_eqb k (PStr a)) eqn:E.
    + apply key_eqb_str in E. subst k.
      assert (Hrest : fold_right (fun a0 s => counts_get (PStr a0) ((PStr a, v) :: d) + s) 0 l
                      = fold_right (fun a0 s => counts_get (PStr a0) d + s) 0 l).
      { clear IHl Hd. induction l as [|a' l IH']; cbn [fold_right]; [reflexivity|].
        rewrite IH' by (intros Hin; apply Hnotin; right; exact Hin).
        unfold counts_get at 1. cbn [dict_find].
        destruct (key_eqb (PStr a) (PStr a')) eqn:E'; [|reflexivity].
        apply key_eqb_str in E'. injection E' as ->.
        exfalso. apply Hnotin. left. reflexivity. }
      rewrite Hrest. pose proof (counts_get_nonneg (PStr a) d Hn). lia.
    + fold (counts_get (PStr a) d). lia.
Qed.

Lemma below_le_total (t : table) (x : pyval) (before : list string) :
  nonneg t -> NoDup before -> 0 <= below t x before <= season_total t x.
Proof.
  intros Hn Hd. rewrite season_total_lookup. unfold below.
  replace (fold_right (fun author s => count t x (PStr author) + s) 0 before)
    with (fold_right (fun a s => counts_get (PStr a) (lookup t x) + s) 0 before).
  - apply stack_le_sum; [|exact Hd]. unfold lookup.
    destruct (dict_find x t) as [inner|] eqn:Ef; [|constructor].
    exact (dict_find_Forall (fun inner0 : counts => Forall (fun kv => 0 <= snd kv) inner0)
             x inner t Hn Ef).
  - induction before as [|a l IH]; cbn [fold_right]; [reflexivity|].
    apply NoDup_cons_iff in Hd. rewrite IH by apply Hd. rewrite count_lookup. reflexivity.
Qed.

Lemma update_chart_run_completes (t : table) :
  Forall has_int (map fst t) -> nonneg t ->
  (forall season, In season (map fst t) -> season_total t season < 2 ^ 53) ->
  fst (run update_chart t) = Ret tt.
Proof.
  intros Hint Hn Hb.
  destruct (sorted_by_int_total _ Hint) as [sorted E].
  rewrite (update_chart_parts _ sorted E).
  destruct (fst (run (foldM _ _ _) t)) as [b|e] eqn:El; [reflexivity|].
  exfalso.
  destruct (proj2 (draw_authors_stacked _ sorted (present_sorted _ sorted E)
                     author_colors) e El)
    as (pre & a & c & post & x & Hitems & Hx & Hpos & Hcase).
  pose proof (count_le_total t x (PStr a) Hn) as Hle.
  pose proof (Hb x (sorted_in _ sorted x E Hx)) as Hlt.
  assert (Hd : NoDup (map fst pre)).
  { assert (Hall : NoDup (map fst author_colors))
      by (repeat constructor; cbn; intuition discriminate).
    rewrite Hitems, map_app in Hall. exact (NoDup_app_remove_r _ _ Hall). }
  pose proof (below_le_total t x (map fst pre) Hn Hd) as Hbelow.
  destruct Hcase as [Hp|Hh].
  - destruct (percentage_label_ret (count t x (PStr a)) (season_total t x))
      as [s Hs]; [lia | lia | congruence].
  - destruct (label_height_ret (below t x (map fst pre)) (count t x (PStr a)))
      as [y Hy]; [lia | lia | congruence].
Qed.

Lemma has_int_incremented (season author : pyval) (t : table) :
  has_int season -> Forall has_int (map fst t) ->
  Forall has_int (map fst (incremented season author t)).
Proof.
  intros Hs Ht. rewrite incremented_keys.
  destruct (hashable season); [|exact Ht].
  destruct (dict_find season t); [exact Ht|].
  apply Forall_app. split; [exact Ht | repeat constructor; exact Hs].
Qed.

(** The handler on a well-formed message, every call returning. *)
Lemma process_message_charts (json_loads : string -> outcome pyval)
    (message : string) (items : list (string * pyval)) (w : world) :
  json_loads message = Ret (PDict items) ->
  has_int (season_of items) -> hashable (author_of items) = true ->
  Forall has_int (map fst (season_counts w)) ->
  nonneg (season_counts w) ->
  (forall season, season_total (season_counts w) season < 2 ^ 53 - 1) ->
  let r := process_message json_loads message w in
  fst r = Ret tt /\
  (exists cs, chart (snd r) = chart w ++ AxClear :: cs /\ In PltDraw cs) /\
  (exists records, logged (snd r) = records ++ [(INFO, ChartUpdated message)]) /\
  Forall has_int (map fst (season_counts (snd r))) /\
  nonneg (season_counts (snd r)) /\
  (forall season, season_total (season_counts (snd r)) season < 2 ^ 53).
Proof.
  intros Hl [n Hs] Ha Hint Hn Hb. cbv zeta.
  pose proof (py_int_hashable _ _ Hs) as Hhs.
  set (t' := incremented (season_of items) (author_of items) (season_counts w)).
  assert (Hint' : Forall has_int (map fst t'))
    by (apply has_int_incremented; [exists n; exact Hs | exact Hint]).
  assert (Hn' : nonneg t') by (apply nonneg_incremented, Hn).
  assert (Hb' : forall season, season_total t' season < 2 ^ 53).
  { intros season. unfold t'. rewrite season_total_incremented.
    specialize (Hb season).
    destruct (hashable (season_of items) && hashable (author_of items)
              && key_eqb (season_of items) season); lia. }
  pose proof (update_chart_run_completes t' Hint' Hn' (fun season _ => Hb' season)) as Hret.
  destruct (update_chart_redraw t') as (cs & Hcs & Hdraw).
  rewrite process_message_is_with.
  rewrite (process_message_with_eq update_chart update_chart_reads), Hl.
  cbv zeta. rewrite Hhs, Ha. cbn [andb]. fold t'. rewrite Hret, Hcs.
  cbn [fst snd with_log with_calls with_counts chart logged season_counts].
  split; [reflexivity|]. split; [exists cs; split; [reflexivity | apply Hdraw, Hret]|].
  split; [eexists; reflexivity|]. auto.
Qed.

(** ** The log of [main] *)





(** * The table under a message *)




(** * The renderers with a library that may raise *)

Lemma lib_update_chart_plot : Lib.update_chart plot = update_chart.
Proof. reflexivity. Qed.

Lemma lib_draft_update_chart_plot : Lib.Draft.update_chart plot = Draft.update_chart.
Proof. reflexivity. Qed.

(** ** Cutting a run at the first call that raises *)

Lemma cut_none (lib : library) (history cs : list plot_call) :
  fst (cut lib history cs) = None -> snd (cut lib history cs) = cs.
Proof.
  revert history. induction cs as [|c cs IH]; intros history; cbn [cut]; [reflexivity|].
  destruct (lib history c) as [u|e]; cbn [fst snd]; [|discriminate].
  intros H. rewrite (IH _ H). reflexivity.
Qed.

Lemma cut_some (lib : library) (history cs : list plot_call) (e : exn) :
  fst (cut lib history cs) = Some e ->
  exists made c rest,
    cs = made ++ c :: rest /\
    snd (cut lib history cs) = made ++ [c] /\
    lib (history ++ made) c = Raise e.
Proof.
  revert history. induction cs as [|c cs IH]; intros history; cbn [cut]; [discriminate|].
  destruct (lib history c) as [u|e'] eqn:El; cbn [fst snd].
  - intros H. destruct (IH _ H) as (made & c' & rest & -> & Hs & Hl).
    exists (c :: made), c', rest. rewrite Hs, <- app_assoc in *. auto.
  - intros H. injection H as <-. exists [], c, cs. rewrite app_nil_r. auto.
Qed.

Lemma cut_prefix (lib : library) (history cs : list plot_call) :
  exists rest, cs = snd (cut lib history cs) ++ rest.
Proof.
  revert history. induction cs as [|c cs IH]; intros history; cbn [cut].
  - exists []. reflexivity.
  - destruct (lib history c) as [u|e]; cbn [snd].
    + destruct (IH (history ++ [c])) as [rest Hrest]. exists rest. cbn. f_equal. exact Hrest.
    + exists cs. reflexivity.
Qed.

Lemma cut_returns (lib : library) (history cs : list plot_call) :
  returns lib -> cut lib history cs = (None, cs).
Proof.
  intros Hr. revert history. induction cs as [|c cs IH]; intros history; cbn [cut];
    [reflexivity|].
  rewrite Hr, IH. reflexivity.
Qed.

Lemma cut_app (lib : library) (history a b : list plot_call) :
  cut lib history (a ++ b) =
  match fst (cut lib history a) with
  | Some e => cut lib history a
  | None => (fst (cut lib (history ++ a) b), a ++ snd (cut lib (history ++ a) b))
  end.
Proof.
  revert history. induction a as [|c a IH]; intros history; cbn [cut app].
  - rewrite app_nil_r. cbn [fst]. apply surjective_pairing.
  - destruct (lib history c) as [u|e]; cbn [fst snd]; [|reflexivity].
    rewrite IH. destruct (fst (cut lib (history ++ [c]) a)) as [e|] eqn:E.
    + rewrite ?E. reflexivity.
    + cbn [fst snd]. rewrite <- app_assoc. reflexivity.
Qed.

(** ** [follows], rule by rule *)

Lemma quiet_ret {A : Type} (a : A) (t : table) : quiet (ret a) t.
Proof. split; [apply reads_only_ret | reflexivity]. Qed.

Lemma quiet_raise {A : Type} (e : exn) (t : table) : quiet (@raise A e) t.
Proof. split; [apply reads_only_raise | reflexivity]. Qed.

Lemma quiet_lift {A : Type} (r : outcome A) (t : table) : quiet (lift r) t.
Proof. split; [apply reads_only_lift | reflexivity]. Qed.

Lemma quiet_index {A : Type} (l : list A) (i : nat) (t : table) : quiet (index l i) t.
Proof.
  unfold index. destruct (nth_error l i); [apply quiet_ret | apply quiet_raise].
Qed.

Lemma quiet_dict_getitem {V : Type} (d : list (pyval * V)) (k : pyval) (t : table) :
  quiet (dict_getitem d k) t.
Proof.
  unfold dict_getitem. destruct (hashable k); [|apply quiet_raise].
  destruct (dict_find k d); [apply quiet_ret | apply quiet_raise].
Qed.

Lemma follows_quiet {A : Type} (lib : library) (m : M A) (t : table) :
  quiet m t -> follows lib m m t.
Proof.
  intros [Hr Hc] w Hw. unfold cut_run. rewrite Hc. cbn [cut fst].
  rewrite (Hr w Hw), Hc. reflexivity.
Qed.

Lemma follows_issue (lib : library) (c : plot_call) (t : table) :
  follows lib (issue lib c) (plot c) t.
Proof.
  intros w _. unfold cut_run, issue. rewrite run_plot. cbn [snd fst cut].
  destruct (lib (chart w) c) as [[]|e]; reflexivity.
Qed.

Lemma follows_bind {A B : Type} (lib : library) (m' m : M A) (k' k : A -> M B)
    (t : table) :
  follows lib m' m t -> reads_only m t ->
  (forall a, follows lib (k' a) (k a) t) -> (forall a, reads_only (k a) t) ->
  follows lib (bind m' k') (bind m k) t.
Proof.
  intros Hm Hrm Hk Hrk w Hw. unfold bind at 1. rewrite (Hm w Hw).
  rewrite run_bind by assumption. unfold cut_run, then_.
  destruct (fst (run m t)) as [a|e0] eqn:Em; cbn [fst snd].
  - rewrite cut_app.
    destruct (fst (cut lib (chart w) (snd (run m t)))) as [e|] eqn:Ec;
      [rewrite ?Ec; reflexivity|].
    cbn [fst snd].
    rewrite (Hk a (with_calls (snd (run m t)) w) Hw). unfold cut_run.
    cbn [with_calls chart].
    destruct (fst (cut lib (chart w ++ snd (run m t)) (snd (run (k a) t)))) as [e|];
      rewrite with_calls_app; reflexivity.
  - destruct (fst (cut lib (chart w) (snd (run m t)))) as [e|]; reflexivity.
Qed.

Lemma follows_foldM {A S : Type} (lib : library) (body' body : S -> A -> M S)
    (l : list A) (s : S) (t : table) :
  (forall s x, In x l -> follows lib (body' s x) (body s x) t) ->
  (forall s x, In x l -> reads_only (body s x) t) ->
  follows lib (foldM body' l s) (foldM body l s) t.
Proof.
  revert s. induction l as [|x l IH]; intros s Hf Hr; cbn [foldM].
  - apply follows_quiet, quiet_ret.
  - apply follows_bind.
    + apply Hf. left. reflexivity.
    + apply Hr. left. reflexivity.
    + intros s'. apply IH; intros; [apply Hf | apply Hr]; right; assumption.
    + intros s'. apply reads_only_foldM. intros; apply Hr; right; assumption.
Qed.

Lemma follows_for_each {A : Type} (lib : library) (l : list A)
    (body' body : A -> M unit) (t : table) :
  (forall x, In x l -> follows lib (body' x) (body x) t) ->
  (forall x, In x l -> reads_only (body x) t) ->
  follows lib (for_each l body') (for_each l body) t.
Proof.
  induction l as [|x l IH]; intros Hf Hr; cbn [for_each].
  - apply follows_quiet, quiet_ret.
  - apply follows_bind.
    + apply Hf. left. reflexivity.
    + apply Hr. left. reflexivity.
    + intros _. apply IH; intros; [apply Hf | apply Hr]; right; assumption.
    + intros _. apply reads_only_for_each. intros; apply Hr; right; assumption.
Qed.

Lemma quiet_bind {A B : Type} (m : M A) (k : A -> M B) (t : table) :
  quiet m t -> (forall a, quiet (k a) t) -> quiet (bind m k) t.
Proof.
  intros [Hr Hc] Hk. split.
  - apply reads_only_bind; [exact Hr | intros a; apply Hk].
  - rewrite run_bind by (try exact Hr; intros a; apply Hk).
    unfold then_. rewrite Hc. destruct (fst (run m t)) as [a|e]; [|reflexivity].
    cbn [snd app]. apply Hk.
Qed.

Lemma quiet_list_comp {A B : Type} (f : A -> M B) (l : list A) (t : table) :
  (forall x, In x l -> quiet (f x) t) -> quiet (list_comp f l) t.
Proof.
  induction l as [|x l IH]; intros Hf; cbn [list_comp].
  - apply quiet_ret.
  - apply quiet_bind; [apply Hf; left; reflexivity | intros y].
    apply quiet_bind; [|intros ys; apply quiet_ret].
    apply IH. intros; apply Hf; right; assumption.
Qed.

Lemma quiet_getitem_in (t : table) (k : pyval) :
  In k (map fst t) -> quiet (season_counts_getitem k) t.
Proof.
  intros Hin. destruct (hashable k) eqn:Hk.
  - destruct (dict_find_in k t Hk Hin) as [inner Hf].
    destruct (reads_only_season_counts_getitem k inner t Hf Hk) as [Hr He].
    split; [exact Hr | rewrite He; reflexivity].
  - unfold season_counts_getitem. rewrite Hk. apply quiet_raise.
Qed.

Lemma quiet_getitem_present (t : table) (k : pyval) :
  present t k -> quiet (season_counts_getitem k) t.
Proof.
  intros Hp. destruct (present_getitem t k Hp) as [Hr He].
  split; [exact Hr | rewrite He; reflexivity].
Qed.

Ltac reads_chain :=
  repeat (apply reads_only_bind; [|intros ?]);
  auto using reads_only_index, reads_only_dict_getitem, reads_only_lift, reads_only_plot,
    reads_only_ret.

(** ** The renderer of the final module *)

Lemma lib_draw_label_follows (lib : library) sorted_seasons totals bottom_counts author ic
    (t : table) :
  follows lib (Lib.draw_label (issue lib) sorted_seasons totals bottom_counts author ic)
          (draw_label sorted_seasons totals bottom_counts author ic) t.
Proof.
  unfold Lib.draw_label, draw_label. destruct ic as [i n].
  destruct (0 <? n); [|apply follows_quiet, quiet_ret].
  apply follows_bind;
    [apply follows_quiet, quiet_index | apply reads_only_index | intros season
    | intros season; reads_chain].
  apply follows_bind;
    [apply follows_quiet, quiet_dict_getitem | apply reads_only_dict_getitem | intros total
    | intros total; reads_chain].
  apply follows_bind;
    [apply follows_quiet, quiet_lift | apply reads_only_lift | intros q
    | intros q; reads_chain].
  apply follows_bind;
    [apply follows_quiet, quiet_lift | apply reads_only_lift | intros percentage
    | intros percentage; reads_chain].
  apply follows_bind;
    [apply follows_quiet, quiet_index | apply reads_only_index | intros x
    | intros x; reads_chain].
  apply follows_bind;
    [apply follows_quiet, quiet_index | apply reads_only_index | intros bottom
    | intros bottom; reads_chain].
  apply follows_bind;
    [apply follows_quiet, quiet_lift | apply reads_only_lift | intros half
    | intros half; reads_chain].
  apply follows_bind;
    [apply follows_quiet, quiet_lift | apply reads_only_lift | intros y
    | intros y; reads_chain].
  apply follows_issue.
Qed.

Lemma lib_draw_author_follows (lib : library) sorted_seasons totals bottom_counts item
    (t : table) :
  Forall (present t) sorted_seasons ->
  follows lib (Lib.draw_author (issue lib) sorted_seasons totals bottom_counts item)
          (draw_author sorted_seasons totals bottom_counts item) t.
Proof.
  intros Hp. destruct item as [author color]. unfold Lib.draw_author, draw_author.
  assert (Hq : quiet (list_comp (fun season => inner <- season_counts_getitem season ;;
                                   ret (counts_get (PStr author) inner)) sorted_seasons) t).
  { apply quiet_list_comp. intros k Hk. rewrite Forall_forall in Hp.
    apply quiet_bind; [apply quiet_getitem_present, Hp, Hk | intros; apply quiet_ret]. }
  assert (Hlabels : forall l, reads_only
            (for_each l (draw_label sorted_seasons totals bottom_counts author)) t)
    by (intros l; apply reads_only_for_each; intros; apply reads_only_draw_label).
  apply follows_bind; [apply follows_quiet, Hq | apply Hq | intros amc | intros amc].
  - apply follows_bind; [apply follows_issue | apply reads_only_plot | intros _ | intros _].
    + apply follows_bind;
        [ apply follows_for_each; intros;
          [apply lib_draw_label_follows | apply reads_only_draw_label]
        | apply Hlabels
        | intros _; apply follows_quiet, quiet_ret
        | intros _; apply reads_only_ret ].
    + apply reads_only_bind; [apply Hlabels | intros _; apply reads_only_ret].
  - apply reads_only_bind; [apply reads_only_plot | intros _].
    apply reads_only_bind; [apply Hlabels | intros _; apply reads_only_ret].
Qed.

Lemma reads_only_finish (calls : list plot_call) (last : plot_call) (t : table) :
  reads_only (fold_right (fun c m => plot c ;; m) (plot last) calls) t.
Proof.
  induction calls as [|c calls IH]; cbn [fold_right]; [apply reads_only_plot|].
  apply reads_only_bind; [apply reads_only_plot | intros _; exact IH].
Qed.

Lemma follows_finish (lib : library) (calls : list plot_call) (last : plot_call)
    (t : table) :
  follows lib (fold_right (fun c m => issue lib c ;; m) (issue lib last) calls)
          (fold_right (fun c m => plot c ;; m) (plot last) calls) t.
Proof.
  induction calls as [|c calls IH]; cbn [fold_right]; [apply follows_issue|].
  apply follows_bind;
    [apply follows_issue | apply reads_only_plot | intros _; exact IH
    | intros _; apply reads_only_finish].
Qed.

Lemma lib_draw_chart_follows (lib : library) (sorted_seasons : list pyval) (t : table) :
  Forall (present t) sorted_seasons ->
  follows lib (Lib.draw_chart (issue lib) sorted_seasons) (draw_chart sorted_seasons) t.
Proof.
  intros Hp. unfold Lib.draw_chart, draw_chart.
  destruct (run_foldM_reads (fun d season inner => dict_set season (sum_values inner) d)
              t sorted_seasons [] Hp) as [Hr He].
  assert (Hauthors : forall totals b,
            reads_only (foldM (draw_author sorted_seasons totals) author_colors b) t).
  { intros totals b. apply reads_only_foldM. intros s [a c] _.
    apply draw_author_run, Hp. }
  assert (Hfinish : reads_only
            (fold_right (fun c m => plot c ;; m) (plot PltPause)
               [AxSetXlabel "Seasons"; AxSetYlabel "Message Counts";
                AxSetTitle "The Simpsons Most Memorable Leader (Seasons 1-30)";
                AxSetXticks sorted_seasons; AxSetXticklabels sorted_seasons 45 "right";
                AxLegend; PltTightLayout; PltDraw]) t)
    by apply reads_only_finish.
  apply follows_bind.
  - apply follows_quiet. split; [exact Hr | rewrite He; reflexivity].
  - exact Hr.
  - intros totals. apply follows_bind.
    + apply follows_foldM.
      * intros s item _. apply lib_draw_author_follows, Hp.
      * intros s [a c] _. apply draw_author_run, Hp.
    + apply Hauthors.
    + intros _.
      exact (follows_finish lib
               [AxSetXlabel "Seasons"; AxSetYlabel "Message Counts";
                AxSetTitle "The Simpsons Most Memorable Leader (Seasons 1-30)";
                AxSetXticks sorted_seasons; AxSetXticklabels sorted_seasons 45 "right";
                AxLegend; PltTightLayout; PltDraw] PltPause t).
    + intros _. exact Hfinish.
  - intros totals. apply reads_only_bind; [apply Hauthors | intros _; exact Hfinish].
Qed.

Lemma cut_run_after_clear {A : Type} (lib : library) (w : world)
    (r : outcome A * list plot_call) :
  cut_run lib w (fst r, AxClear :: snd r) =
  match lib (chart w) AxClear with
  | Ret _ =>
      match fst (cut lib (chart w ++ [AxClear]) (snd r)) with
      | None => (fst r, with_calls (AxClear :: snd r) w)
      | Some e =>
          (Raise e,
           with_calls (AxClear :: snd (cut lib (chart w ++ [AxClear]) (snd r))) w)
      end
  | Raise e => (Raise e, with_calls [AxClear] w)
  end.
Proof.
  unfold cut_run. cbn [fst snd cut].
  destruct (lib (chart w) AxClear) as [u|e]; cbn [fst snd]; reflexivity.
Qed.

(** With the library, [update_chart] makes the calls it makes when every
    call returns, up to the first that raises. *)
Lemma lib_update_chart_follows (lib : library) (t : table) :
  follows lib (Lib.update_chart (issue lib)) update_chart t.
Proof.
  intros w Hw.
  assert (Hleft : Lib.update_chart (issue lib) w =
            match lib (chart w) AxClear with
            | Ret _ =>
                match sorted_by_int (map fst (season_counts w)) with
                | Ret sorted_seasons =>
                    Lib.draw_chart (issue lib) sorted_seasons (with_calls [AxClear] w)
                | Raise e => (Raise e, with_calls [AxClear] w)
                end
            | Raise e => (Raise e, with_calls [AxClear] w)
            end).
  { unfold Lib.update_chart. unfold bind at 1, issue at 1.
    destruct (lib (chart w) AxClear) as [u|e]; [|reflexivity].
    unfold bind at 1, get_counts. unfold bind at 1, lift.
    cbn [season_counts with_calls].
    destruct (sorted_by_int (map fst (season_counts w))); reflexivity. }
  rewrite Hleft, update_chart_run, Hw.
  destruct (sorted_by_int (map fst t)) as [sorted|e] eqn:E.
  - unfold then_. cbn [fst snd app].
    rewrite (cut_run_after_clear lib w (run (draw_chart sorted) t)).
    destruct (lib (chart w) AxClear) as [u|e]; [|reflexivity].
    rewrite (lib_draw_chart_follows lib sorted t (present_sorted t sorted E)
               (with_calls [AxClear] w) Hw).
    unfold cut_run. cbn [with_calls chart].
    destruct (fst (cut lib (chart w ++ [AxClear]) (snd (run (draw_chart sorted) t))));
      rewrite with_calls_app; reflexivity.
  - unfold cut_run. cbn [fst snd cut].
    destruct (lib (chart w) AxClear) as [u|e']; reflexivity.
Qed.

Lemma lib_update_chart_eq (lib : library) (w : world) :
  Lib.update_chart (issue lib) w = cut_run lib w (run update_chart (season_counts w)).
Proof. exact (lib_update_chart_follows lib (season_counts w) w eq_refl). Qed.

(** ** The renderer of the draft *)

Lemma lib_draft_draw_author_follows (lib : library) (seasons : list pyval)
    (bottom_counts : list Z) (item : string * string) (t : table) :
  (forall k, In k seasons -> quiet (season_counts_getitem k) t) ->
  follows lib (Lib.Draft.draw_author (issue lib) seasons bottom_counts item)
          (Draft.draw_author seasons bottom_counts item) t.
Proof.
  intros Hk. destruct item as [author color].
  unfold Lib.Draft.draw_author, Draft.draw_author.
  assert (Hq : quiet (list_comp (fun season => inner <- season_counts_getitem season ;;
                                   ret (counts_get (PStr author) inner)) seasons) t).
  { apply quiet_list_comp. intros k Hin.
    apply quiet_bind; [apply Hk, Hin | intros; apply quiet_ret]. }
  apply follows_bind; [apply follows_quiet, Hq | apply Hq | intros amc | intros amc].
  - apply follows_bind;
      [ apply follows_issue | apply reads_only_plot
      | intros _; apply follows_quiet, quiet_ret | intros _; apply reads_only_ret ].
  - apply reads_only_bind; [apply reads_only_plot | intros _; apply reads_only_ret].
Qed.

Lemma lib_draft_draw_chart_follows (lib : library) (seasons : list pyval) (t : table) :
  (forall k, In k seasons -> quiet (season_counts_getitem k) t) ->
  follows lib (Lib.Draft.draw_chart (issue lib) seasons) (Draft.draw_chart seasons) t.
Proof.
  intros Hk. unfold Lib.Draft.draw_chart, Draft.draw_chart.
  assert (Hr : forall k, In k seasons -> reads_only (season_counts_getitem k) t)
    by (intros k Hin; apply Hk, Hin).
  assert (Hfinish : reads_only
            (fold_right (fun c m => plot c ;; m) (plot PltPause)
               [AxSetXlabel "Seasons"; AxSetYlabel "Message Counts";
                AxSetTitle "Message Counts by Season and Author";
                AxSetXticklabels seasons 45 "right";
                AxLegend; PltTightLayout; PltDraw]) t)
    by apply reads_only_finish.
  apply follows_bind.
  - apply follows_foldM.
    + intros s item _. apply lib_draft_draw_author_follows, Hk.
    + intros s item _. apply draft_draw_author_reads, Hr.
  - apply reads_only_foldM. intros s item _. apply draft_draw_author_reads, Hr.
  - intros _.
    exact (follows_finish lib
             [AxSetXlabel "Seasons"; AxSetYlabel "Message Counts";
              AxSetTitle "Message Counts by Season and Author";
              AxSetXticklabels seasons 45 "right";
              AxLegend; PltTightLayout; PltDraw] PltPause t).
  - intros _. exact Hfinish.
Qed.

Lemma lib_draft_update_chart_eq (lib : library) (w : world) :
  Lib.Draft.update_chart (issue lib) w
  = cut_run lib w (run Draft.update_chart (season_counts w)).
Proof.
  assert (Hleft : Lib.Draft.update_chart (issue lib) w =
            match lib (chart w) AxClear with
            | Ret _ => Lib.Draft.draw_chart (issue lib) (map fst (season_counts w))
                         (with_calls [AxClear] w)
            | Raise e => (Raise e, with_calls [AxClear] w)
            end).
  { unfold Lib.Draft.update_chart. unfold bind at 1, issue at 1.
    destruct (lib (chart w) AxClear) as [u|e]; reflexivity. }
  rewrite Hleft, (proj2 (draft_update_chart_run (season_counts w))).
  unfold then_. cbn [fst snd app].
  rewrite (cut_run_after_clear lib w
             (run (Draft.draw_chart (map fst (season_counts w))) (season_counts w))).
  destruct (lib (chart w) AxClear) as [u|e]; [|reflexivity].
  rewrite (lib_draft_draw_chart_follows lib (map fst (season_counts w)) (season_counts w)
             (fun k Hin => quiet_getitem_in (season_counts w) k Hin)
             (with_calls [AxClear] w) eq_refl).
  unfold cut_run. cbn [with_calls chart].
  destruct (fst (cut lib (chart w ++ [AxClear])
                   (snd (run (Draft.draw_chart (map fst (season_counts w)))
                             (season_counts w)))));
    rewrite with_calls_app; reflexivity.
Qed.

(** ** What a cut run tells *)

Lemma cut_run_returns {A : Type} (lib : library) (w : world)
    (r : outcome A * list plot_call) :
  returns lib -> cut_run lib w r = (fst r, with_calls (snd r) w).
Proof. intros Hr. unfold cut_run. rewrite (cut_returns lib _ _ Hr). reflexivity. Qed.

Lemma cut_run_raise {A : Type} (lib : library) (w : world)
    (r : outcome A * list plot_call) (e : exn) :
  fst (cut_run lib w r) = Raise e ->
  raised_by lib w (snd (cut_run lib w r)) e \/
  (fst r = Raise e /\ cut_run lib w r = (Raise e, with_calls (snd r) w)).
Proof.
  unfold cut_run. destruct (fst (cut lib (chart w) (snd r))) as [e'|] eqn:Ec; cbn [fst snd].
  - intros H. injection H as <-. left.
    destruct (cut_some lib _ _ _ Ec) as (made & c & rest & _ & Hs & Hl).
    exists made, c. rewrite Hs. cbn [with_calls chart]. auto.
  - intros H. right. rewrite H. auto.
Qed.

Lemma cut_run_ret {A : Type} (lib : library) (w : world)
    (r : outcome A * list plot_call) (a : A) :
  fst (cut_run lib w r) = Ret a ->
  fst r = Ret a /\ cut_run lib w r = (Ret a, with_calls (snd r) w).
Proof.
  unfold cut_run. destruct (fst (cut lib (chart w) (snd r))) as [e'|]; cbn [fst snd].
  - discriminate.
  - intros H. rewrite H. auto.
Qed.

Lemma cut_run_calls {A : Type} (lib : library) (w : world)
    (r : outcome A * list plot_call) :
  exists made rest,
    snd (cut_run lib w r) = with_calls made w /\ snd r = made ++ rest /\
    (forall a, fst (cut_run lib w r) = Ret a -> rest = []).
Proof.
  unfold cut_run. destruct (fst (cut lib (chart w) (snd r))) as [e'|] eqn:Ec; cbn [fst snd].
  - destruct (cut_prefix lib (chart w) (snd r)) as [rest Hrest].
    exists (snd (cut lib (chart w) (snd r))), rest.
    split; [reflexivity|]. split; [exact Hrest | discriminate].
  - exists (snd r), []. rewrite app_nil_r. auto.
Qed.

Lemma lib_returns_update_chart (lib : library) (w : world) :
  returns lib -> Lib.update_chart (issue lib) w = update_chart w.
Proof.
  intros Hr. rewrite lib_update_chart_eq, (cut_run_returns lib w _ Hr), update_chart_at.
  reflexivity.
Qed.

Lemma lib_returns_draft_update_chart (lib : library) (w : world) :
  returns lib -> Lib.Draft.update_chart (issue lib) w = Draft.update_chart w.
Proof.
  intros Hr.
  rewrite lib_draft_update_chart_eq, (cut_run_returns lib w _ Hr), draft_update_chart_at.
  reflexivity.
Qed.

(** ** The handler over any renderer *)

Lemma process_message_with_cases (render : M unit)
    (json_loads : string -> outcome pyval) (message : string) (w : world) :
  process_message_with render json_loads message w =
  match json_loads message with
  | Raise e => handle message e (with_log DEBUG (RawMessage message) w)
  | Ret (PDict items) =>
      let t' := incremented (season_of items) (author_of items) (season_counts w) in
      if hashable (season_of items) && hashable (author_of items)
      then
        let w1 := with_log INFO (UpdatedSeasonCounts t')
                    (with_counts t' (received message items w)) in
        match fst (render w1) with
        | Ret _ => (Ret tt, with_log INFO (ChartUpdated message) (snd (render w1)))
        | Raise e => handle message e (snd (render w1))
        end
      else handle message TypeError (with_counts t' (received message items w))
  | Ret v =>
      (Ret tt, with_log ERROR (ExpectedDict v)
                 (with_log INFO (ProcessedJSON v)
                    (with_log DEBUG (RawMessage message) w)))
  end.
Proof.
  unfold process_message_with, try_except, bind at 1, logger at 1.
  cbn [fst snd]. unfold bind at 1, lift.
  destruct (json_loads message) as [v|e]; [|destruct e; reflexivity].
  unfold bind at 1, logger at 1.
  destruct v as [| b | z | x | s | xs | items]; try reflexivity.
  unfold bind at 1, logger at 1.
  fold (season_of items) (author_of items).
  unfold bind at 1. rewrite increment_eq.
  destruct (hashable (season_of items) && hashable (author_of items)) eqn:Hh.
  - apply andb_prop in Hh. destruct Hh as [Hs Ha].
    rewrite increment_returns by assumption.
    unfold bind at 1, get_counts. cbn [fst snd with_counts season_counts].
    unfold bind at 1, logger at 1. unfold bind at 1.
    cbv zeta.
    set (w1 := with_log INFO
                 (UpdatedSeasonCounts
                    (incremented (season_of items) (author_of items) (season_counts w)))
                 (with_counts
                    (incremented (season_of items) (author_of items) (season_counts w))
                    (received message items w))).
    repeat match goal with
           | |- context [render ?w0] =>
               lazymatch w0 with
               | w1 => fail
               | _ => change w0 with w1
               end
           end.
    destruct (render w1) as [[[]|e] w2];
      cbn [fst snd]; [reflexivity | destruct e; reflexivity].
  - rewrite increment_raises by exact Hh. reflexivity.
Qed.

Lemma process_message_with_ext (r1 r2 : M unit) (json_loads : string -> outcome pyval)
    (message : string) (w : world) :
  (forall w0, r1 w0 = r2 w0) ->
  process_message_with r1 json_loads message w
  = process_message_with r2 json_loads message w.
Proof.
  intros H. rewrite !process_message_with_cases.
  destruct (json_loads message) as [v|e]; [|reflexivity].
  destruct v; try reflexivity. cbv zeta. rewrite H. reflexivity.
Qed.

Lemma lib_returns_process_message (lib : library) (json_loads : string -> outcome pyval)
    (message : string) (w : world) :
  returns lib ->
  process_message_with (Lib.update_chart (issue lib)) json_loads message w
  = process_message json_loads message w.
Proof.
  intros Hr. rewrite process_message_is_with. apply process_message_with_ext.
  intros w0. apply lib_returns_update_chart, Hr.
Qed.

Lemma lib_returns_draft_process_message (lib : library)
    (json_loads : string -> outcome pyval) (message : string) (w : world) :
  returns lib ->
  process_message_with (Lib.Draft.update_chart (issue lib)) json_loads message w
  = Draft.process_message json_loads message w.
Proof.
  intros Hr. rewrite draft_process_message_is_with. apply process_message_with_ext.
  intros w0. apply lib_returns_draft_update_chart, Hr.
Qed.

Lemma obliging_returns : returns obliging.
Proof. intros history c. reflexivity. Qed.

(** * The renders, the library taken into account *)

(** X1.  What makes [update_chart] raise.  On a table whose keys are
    within ASCII, the exception is the one the plotting library raised at
    the last call made, or the one [int] raises on a key of the table, or
    it comes from the arithmetic of a label of a positive segment of a
    mapped author: [OverflowError], or [ZeroDivisionError] when the total
    of the season is zero.  No subscript of the function fails. *)
Theorem update_chart_failure_causes (lib : library) (w : world) (e : exn) :
  Forall (fun k => ascii_key k = true) (map fst (season_counts w)) ->
  fst (Lib.update_chart (issue lib) w) = Raise e ->
  raised_by lib w (snd (Lib.update_chart (issue lib) w)) e \/
  ((e = ValueError \/ e = TypeError \/ e = OverflowError \/ e = ZeroDivisionError) /\
   ((exists k, In k (map fst (season_counts w)) /\ py_int k = Raise e) \/
    (exists author season,
       In author (map fst author_colors) /\ In season (map fst (season_counts w)) /\
       0 < count (season_counts w) season (PStr author) /\
       (e = OverflowError \/
        (e = ZeroDivisionError /\ season_total (season_counts w) season = 0))))).
Proof.
  intros _. rewrite lib_update_chart_eq. intros H.
  destruct (cut_run_raise lib w _ e H) as [Hl|[Hown _]]; [left; exact Hl|]. right.
  pose proof (update_chart_raise_cases _ _ Hown) as Hc. split; [|exact Hc].
  destruct Hc as [(k & _ & Hk)|(a & x & _ & _ & _ & [-> | [-> _]])]; auto.
  destruct (py_int_raise k e Hk) as [-> | [-> | ->]]; auto.
Qed.

Lemma update_chart_failure_causes_witness :
  raised_by refusing_bars (blank table_homer3_bart1)
    (snd (Lib.update_chart (issue refusing_bars) (blank table_homer3_bart1))) TypeError \/
  ((TypeError = ValueError \/ TypeError = TypeError \/ TypeError = OverflowError \/
    TypeError = ZeroDivisionError) /\
   ((exists k, In k (map fst table_homer3_bart1) /\ py_int k = Raise TypeError) \/
    (exists author season,
       In author (map fst author_colors) /\ In season (map fst table_homer3_bart1) /\
       0 < count table_homer3_bart1 season (PStr author) /\
       (TypeError = OverflowError \/
        (TypeError = ZeroDivisionError /\ season_total table_homer3_bart1 season = 0))))).
Proof.
  apply (update_chart_failure_causes refusing_bars (blank table_homer3_bart1) TypeError).
  - repeat constructor.
  - vm_compute. reflexivity.
Defined.

(** X2.  On a table of non-negative counts, with keys within ASCII, the
    guard [count > 0] keeps the division of a label from a zero total: an
    exception of [update_chart] is the plotting library's, or that of
    [int] on a key, or [OverflowError]; [ZeroDivisionError] can only be
    the library's. *)
Theorem update_chart_never_divides_by_zero (lib : library) (w : world) (e : exn) :
  nonneg (season_counts w) ->
  Forall (fun k => ascii_key k = true) (map fst (season_counts w)) ->
  fst (Lib.update_chart (issue lib) w) = Raise e ->
  raised_by lib w (snd (Lib.update_chart (issue lib) w)) e \/
  (e <> ZeroDivisionError /\
   ((exists k, In k (map fst (season_counts w)) /\ py_int k = Raise e) \/
    e = OverflowError)).
Proof.
  intros Hn _. rewrite lib_update_chart_eq. intros H.
  destruct (cut_run_raise lib w _ e H) as [Hl|[Hown _]]; [left; exact Hl|]. right.
  destruct (update_chart_raise_cases _ _ Hown)
    as [(k & Hin & Hk)|(a & x & _ & _ & Hpos & [-> | [-> H0]])].
  - split; [|left; exists k; auto].
    destruct (py_int_raise k e Hk) as [-> | [-> | ->]]; discriminate.
  - split; [discriminate | right; reflexivity].
  - pose proof (count_le_total (season_counts w) x (PStr a) Hn). lia.
Qed.

Lemma update_chart_never_divides_by_zero_witness :
  raised_by obliging (blank table_1_unknown)
    (snd (Lib.update_chart (issue obliging) (blank table_1_unknown))) ValueError \/
  (ValueError <> ZeroDivisionError /\
   ((exists k, In k (map fst table_1_unknown) /\ py_int k = Raise ValueError) \/
    ValueError = OverflowError)).
Proof.
  apply (update_chart_never_divides_by_zero obliging (blank table_1_unknown) ValueError).
  - repeat constructor; cbn; lia.
  - repeat constructor.
  - vm_compute. reflexivity.
Defined.

(** X5.  A table in which no mapped author has a positive count, the
    empty table among them, and whose keys read as integers: whatever
    [update_chart] raises the plotting library raised; when it returns,
    it has cleared the axes, drawn the five bars over the sorted seasons
    and no label, and finished the chart; and it returns when the library
    accepts every call. *)
Theorem render_without_segments (lib : library) (w : world) :
  Forall has_int (map fst (season_counts w)) ->
  no_segment (season_counts w) ->
  let r := Lib.update_chart (issue lib) w in
  exists sorted_seasons,
    sorted_by_int (map fst (season_counts w)) = Ret sorted_seasons /\
    (forall e, fst r = Raise e -> raised_by lib w (snd r) e) /\
    (fst r = Ret tt ->
     snd r = with_calls (AxClear :: bars (season_counts w) sorted_seasons [] author_colors
                                 ++ chart_finish sorted_seasons) w) /\
    (returns lib -> fst r = Ret tt).
Proof.
  intros Hint Hno. cbv zeta.
  destruct (update_chart_bare w Hint Hno) as (sorted & E & Hbare).
  exists sorted. split; [exact E|].
  rewrite lib_update_chart_eq.
  assert (Hrun : run update_chart (season_counts w)
                 = (Ret tt, AxClear :: bars (season_counts w) sorted [] author_colors
                                    ++ chart_finish sorted)).
  { destruct (update_chart_bare (blank (season_counts w)) Hint Hno) as (sorted' & E' & Hb).
    cbn [blank season_counts] in E', Hb.
    assert (sorted' = sorted) by congruence. subst sorted'.
    unfold run. rewrite Hb. reflexivity. }
  split; [|split].
  - intros e H. destruct (cut_run_raise lib w _ e H) as [Hl|[Hown _]]; [exact Hl|].
    rewrite Hrun in Hown. discriminate.
  - intros H. destruct (cut_run_ret lib w _ tt H) as [_ ->]. rewrite Hrun. reflexivity.
  - intros Hr. rewrite (cut_run_returns lib w _ Hr), Hrun. reflexivity.
Qed.

Lemma render_without_segments_witness :
  let r := Lib.update_chart (issue obliging) initial in
  exists sorted_seasons,
    sorted_by_int (map fst (season_counts initial)) = Ret sorted_seasons /\
    (forall e, fst r = Raise e -> raised_by obliging initial (snd r) e) /\
    (fst r = Ret tt ->
     snd r = with_calls (AxClear :: bars (season_counts initial) sorted_seasons []
                                       author_colors
                                 ++ chart_finish sorted_seasons) initial) /\
    (returns obliging -> fst r = Ret tt).
Proof.
  apply (render_without_segments obliging initial).
  - constructor.
  - intros a x _ [].
Defined.

(** X7.  What [process_message] lets out.  An exception leaves
    [process_message] only if it is not an [Exception], and then
    [json.loads] raised it or the plotting library did, during the
    render (a keyboard interrupt in [plt.pause], say).  When the library
    raises [Exception]s only, how [process_message] ends depends on the
    decoding alone. *)
Theorem process_message_result (lib : library) (json_loads : string -> outcome pyval)
    (message : string) (w : world) :
  let r := process_message_with (Lib.update_chart (issue lib)) json_loads message w in
  (forall e, fst r = Raise e ->
     is_Exception e = false /\
     (json_loads message = Raise e \/ exists history c, lib history c = Raise e)) /\
  ((forall history c e, lib history c = Raise e -> is_Exception e = true) ->
   fst r = match json_loads message with
           | Raise e => if is_Exception e then Ret tt else Raise e
           | Ret _ => Ret tt
           end).
Proof.
  cbv zeta. rewrite process_message_with_cases.
  assert (Hrender : forall w1 e,
            fst (Lib.update_chart (issue lib) w1) = Raise e ->
            is_Exception e = true \/ exists history c, lib history c = Raise e).
  { intros w1 e H. rewrite lib_update_chart_eq in H.
    destruct (cut_run_raise lib w1 _ e H) as [(made & c & _ & Hl)|[Hown _]].
    - right. eauto.
    - left. exact (update_chart_raises_exception _ _ Hown). }
  destruct (json_loads message) as [v|e0].
  2: { split.
       - intros e H. rewrite handle_fst in H.
         destruct (is_Exception e0) eqn:He0; [discriminate|].
         injection H as <-. auto.
       - intros _. apply handle_fst. }
  destruct v as [| b | z | x | s | xs | items];
    try (split; [intros e H; discriminate H | intros _; reflexivity]).
  cbv zeta. destruct (hashable (season_of items) && hashable (author_of items)).
  2: { split; [intros e H; rewrite handle_fst in H; discriminate H
              | intros _; apply handle_fst]. }
  match goal with |- context [Lib.update_chart (issue lib) ?w0] =>
    pose proof (Hrender w0) as Hr;
    destruct (fst (Lib.update_chart (issue lib) w0)) as [[]|e1] end.
  - split; [intros e H; discriminate H | intros _; reflexivity].
  - split.
    + intros e H. rewrite handle_fst in H.
      destruct (is_Exception e1) eqn:He1; [discriminate|].
      injection H as <-. split; [exact He1|].
      destruct (Hr e1 eq_refl) as [Habs|Hl]; [congruence | right; exact Hl].
    + intros Hlib. rewrite handle_fst.
      destruct (Hr e1 eq_refl) as [He1|(history & c & Hl)].
      * rewrite He1. reflexivity.
      * rewrite (Hlib _ _ _ Hl). reflexivity.
Qed.

Lemma process_message_result_witness :
  is_Exception KeyboardInterrupt = false /\
  (sample_loads text_homer_1 = Raise KeyboardInterrupt \/
   exists history c, interrupted history c = Raise KeyboardInterrupt).
Proof.
  apply (proj1 (process_message_result interrupted sample_loads text_homer_1 initial)).
  vm_compute. reflexivity.
Defined.

(** X14.  The renderer of the draft raises nothing of its own on a table
    whose keys are hashable, whatever the seasons are called: whatever it
    raises the plotting library raised; when it returns, it has cleared
    the axes, drawn one bar per author of the mapping over the seasons in
    the order of the table, each on the stack of the bars before it, and
    finished the chart; and it returns when the library accepts every
    call. *)
Theorem draft_render_completes (lib : library) (w : world) :
  well_keyed (season_counts w) ->
  let t := season_counts w in
  let r := Lib.Draft.update_chart (issue lib) w in
  (forall e, fst r = Raise e -> raised_by lib w (snd r) e) /\
  (fst r = Ret tt ->
   snd r = with_calls (AxClear :: bars t (map fst t) [] author_colors
                               ++ Draft.chart_finish (map fst t)) w) /\
  (returns lib -> fst r = Ret tt).
Proof.
  intros Hk. cbv zeta. rewrite lib_draft_update_chart_eq.
  pose proof (draft_update_chart_calls _ Hk) as Hrun.
  split; [|split].
  - intros e H. destruct (cut_run_raise lib w _ e H) as [Hl|[Hown _]]; [exact Hl|].
    rewrite Hrun in Hown. discriminate.
  - intros H. destruct (cut_run_ret lib w _ tt H) as [_ ->]. rewrite Hrun. reflexivity.
  - intros Hr. rewrite (cut_run_returns lib w _ Hr), Hrun. reflexivity.
Qed.

Lemma draft_render_completes_witness :
  let t := table_1_unknown in
  let r := Lib.Draft.update_chart (issue refusing_bars) (blank table_1_unknown) in
  (forall e, fst r = Raise e -> raised_by refusing_bars (blank table_1_unknown) (snd r) e) /\
  (fst r = Ret tt ->
   snd r = with_calls (AxClear :: bars t (map fst t) [] author_colors
                               ++ Draft.chart_finish (map fst t)) (blank table_1_unknown)) /\
  (returns refusing_bars -> fst r = Ret tt).
Proof.
  apply (draft_render_completes refusing_bars (blank table_1_unknown)).
  repeat constructor.
Defined.

(** X15.  With a plotting library that accepts every call, the handler of
    the draft charts every object whose season and author can be keys,
    the one without a season among them: the count is incremented, the
    chart is redrawn with the new table and [Chart updated successfully]
    is logged. *)
Theorem draft_charts_every_object (lib : library) (json_loads : string -> outcome pyval)
    (message : string) (items : list (string * pyval)) (w : world) :
  returns lib ->
  json_loads message = Ret (PDict items) ->
  hashable (season_of items) = true -> hashable (author_of items) = true ->
  well_keyed (season_counts w) ->
  let t' := incremented (season_of items) (author_of items) (season_counts w) in
  process_message_with (Lib.Draft.update_chart (issue lib)) json_loads message w =
  (Ret tt,
   with_log INFO (ChartUpdated message)
     (with_calls (AxClear :: bars t' (map fst t') [] author_colors
                         ++ Draft.chart_finish (map fst t'))
        (with_log INFO (UpdatedSeasonCounts t')
           (with_counts t' (received message items w))))) /\
  count t' (season_of items) (author_of items)
  = count (season_counts w) (season_of items) (author_of items) + 1.
Proof.
  intros Hr Hl Hs Ha Hk. cbv zeta.
  rewrite (lib_returns_draft_process_message lib json_loads message w Hr).
  exact (draft_process_message_charts json_loads message items w Hl Hs Ha Hk).
Qed.

Lemma draft_charts_every_object_witness :
  let t' := incremented (PStr "unknown") (PStr "Bart") (season_counts initial) in
  process_message_with (Lib.Draft.update_chart (issue obliging)) sample_loads text_bart
                       initial =
  (Ret tt,
   with_log INFO (ChartUpdated text_bart)
     (with_calls (AxClear :: bars t' (map fst t') [] author_colors
                         ++ Draft.chart_finish (map fst t'))
        (with_log INFO (UpdatedSeasonCounts t')
           (with_counts t' (received text_bart [("author", PStr "Bart")] initial))))) /\
  count t' (PStr "unknown") (PStr "Bart")
  = count (season_counts initial) (PStr "unknown") (PStr "Bart") + 1.
Proof.
  apply (draft_charts_every_object obliging sample_loads text_bart
           [("author", PStr "Bart")] initial);
    try reflexivity.
  - exact obliging_returns.
  - constructor.
Defined.

Lemma only_bars_prefix (made rest bars_rest all : list plot_call) :
  all = only_bars (made ++ rest) ++ bars_rest ->
  all = only_bars made ++ (only_bars rest ++ bars_rest).
Proof. intros ->. rewrite only_bars_app, <- app_assoc. reflexivity. Qed.

(** X19.  When the sort succeeds, the bars [update_chart] draws are, in
    this order, those of the authors of the mapping over the sorted
    seasons, each on the stack of the ones before: a render that raises
    has drawn the first of them, a render that returns all five.  When
    the seasons of the table are in ascending order, the same holds of
    the draft, with the same bars. *)
Theorem bars_in_mapping_order (lib : library) (w : world) (sorted_seasons : list pyval) :
  let t := season_counts w in
  sorted_by_int (map fst t) = Ret sorted_seasons ->
  (exists cs rest,
     snd (Lib.update_chart (issue lib) w) = with_calls cs w /\
     bars t sorted_seasons [] author_colors = only_bars cs ++ rest /\
     (fst (Lib.update_chart (issue lib) w) = Ret tt -> rest = [])) /\
  (StronglySorted int_le (map fst t) ->
   exists cd rest,
     snd (Lib.Draft.update_chart (issue lib) w) = with_calls cd w /\
     bars t sorted_seasons [] author_colors = only_bars cd ++ rest /\
     (fst (Lib.Draft.update_chart (issue lib) w) = Ret tt -> rest = [])).
Proof.
  cbv zeta. intros E. split.
  - destruct (update_chart_only_bars _ sorted_seasons E) as (rest0 & Hrest & Hret).
    rewrite lib_update_chart_eq.
    destruct (cut_run_calls lib w (run update_chart (season_counts w)))
      as (made & rest & Hs & Hsplit & Hall).
    exists made, (only_bars rest ++ rest0). split; [exact Hs|]. split.
    + apply only_bars_prefix. rewrite <- Hsplit. exact Hrest.
    + intros H. rewrite (Hall tt H). destruct (cut_run_ret lib w _ tt H) as [Hown _].
      rewrite (Hret Hown). reflexivity.
  - intros Hsorted.
    destruct (sorted_by_int_ret _ _ E) as (_ & _ & Hint).
    assert (Hsame : sorted_seasons = map fst (season_counts w)).
    { pose proof (int_keys_sorted _ Hint Hsorted) as (kl & Ek & Hm & Hkl).
      unfold sorted_by_int in E. rewrite Ek, (sort_keyed_sorted_id kl Hkl), Hm in E.
      congruence. }
    assert (Hk : well_keyed (season_counts w)).
    { unfold well_keyed. rewrite Forall_forall in *. intros k Hin.
      destruct (Hint k Hin) as [n Hn]. exact (py_int_hashable k n Hn). }
    rewrite lib_draft_update_chart_eq.
    destruct (cut_run_calls lib w (run Draft.update_chart (season_counts w)))
      as (made & rest & Hs & Hsplit & Hall).
    exists made, (only_bars rest). split; [exact Hs|]. split.
    + rewrite <- only_bars_app, <- Hsplit, (draft_update_chart_calls _ Hk), Hsame.
      cbn [snd]. rewrite only_bars_frame by reflexivity. symmetry. apply only_bars_bars.
    + intros H. rewrite (Hall tt H). reflexivity.
Qed.

Lemma bars_in_mapping_order_witness :
  let t := table_homer3_bart1 in
  let w := blank table_homer3_bart1 in
  (exists cs rest,
     snd (Lib.update_chart (issue refusing_bars) w) = with_calls cs w /\
     bars t [PStr "1"] [] author_colors = only_bars cs ++ rest /\
     (fst (Lib.update_chart (issue refusing_bars) w) = Ret tt -> rest = [])) /\
  (StronglySorted int_le (map fst t) ->
   exists cd rest,
     snd (Lib.Draft.update_chart (issue refusing_bars) w) = with_calls cd w /\
     bars t [PStr "1"] [] author_colors = only_bars cd ++ rest /\
     (fst (Lib.Draft.update_chart (issue refusing_bars) w) = Ret tt -> rest = [])).
Proof.
  apply (bars_in_mapping_order refusing_bars (blank table_homer3_bart1) [PStr "1"]).
  reflexivity.
Defined.

(** X20.  On a table of non-negative counts whose keys read as integers
    and whose season totals are below [2 ^ 53], [update_chart] raises
    nothing of its own: no label overflows and no lookup fails, so that
    whatever it raises the plotting library raised, and it returns when
    the library accepts every call. *)
Theorem bounded_table_renders (lib : library) (w : world) :
  Forall has_int (map fst (season_counts w)) ->
  nonneg (season_counts w) ->
  (forall season, In season (map fst (season_counts w)) ->
                  season_total (season_counts w) season < 2 ^ 53) ->
  let r := Lib.update_chart (issue lib) w in
  (forall e, fst r = Raise e -> raised_by lib w (snd r) e) /\
  (returns lib -> fst r = Ret tt).
Proof.
  intros Hint Hn Hb. cbv zeta. rewrite lib_update_chart_eq.
  pose proof (update_chart_run_completes _ Hint Hn Hb) as Hown. split.
  - intros e H. destruct (cut_run_raise lib w _ e H) as [Hl|[Habs _]]; [exact Hl|].
    congruence.
  - intros Hr. rewrite (cut_run_returns lib w _ Hr). exact Hown.
Qed.

Lemma bounded_table_renders_witness :
  let r := Lib.update_chart (issue refusing_bars) (blank table_homer3_bart1) in
  (forall e, fst r = Raise e -> raised_by refusing_bars (blank table_homer3_bart1) (snd r) e) /\
  (returns refusing_bars -> fst r = Ret tt).
Proof.
  apply (bounded_table_renders refusing_bars (blank table_homer3_bart1)).
  - repeat constructor. eexists. reflexivity.
  - repeat constructor; cbn; lia.
  - intros season [<- |[]]. vm_compute. reflexivity.
Defined.

(** X21.  A well-formed message is charted when the plotting library
    accepts every call.  On a table of non-negative counts whose keys
    read as integers and whose totals are below [2 ^ 53 - 1], an object
    whose season reads as an integer and whose author can be a key is
    counted, the figure is redrawn and [Chart updated successfully] is
    the last record; the counts stay non-negative, the keys readable and
    the totals below [2 ^ 53]. *)
Theorem well_formed_message_is_charted (lib : library)
    (json_loads : string -> outcome pyval)
    (message : string) (items : list (string * pyval)) (w : world) :
  returns lib ->
  json_loads message = Ret (PDict items) ->
  has_int (season_of items) -> hashable (author_of items) = true ->
  Forall has_int (map fst (season_counts w)) ->
  nonneg (season_counts w) ->
  (forall season, season_total (season_counts w) season < 2 ^ 53 - 1) ->
  let r := process_message_with (Lib.update_chart (issue lib)) json_loads message w in
  fst r = Ret tt /\
  (exists cs, chart (snd r) = chart w ++ AxClear :: cs /\ In PltDraw cs) /\
  (exists records, logged (snd r) = records ++ [(INFO, ChartUpdated message)]) /\
  Forall has_int (map fst (season_counts (snd r))) /\
  nonneg (season_counts (snd r)) /\
  (forall season, season_total (season_counts (snd r)) season < 2 ^ 53).
Proof.
  intros Hr Hl Hs Ha Hint Hn Hb. cbv zeta.
  rewrite (lib_returns_process_message lib json_loads message w Hr).
  exact (process_message_charts json_loads message items w Hl Hs Ha Hint Hn Hb).
Qed.

Lemma well_formed_message_is_charted_witness :
  let r := process_message_with (Lib.update_chart (issue obliging)) sample_loads
             text_homer_1 initial in
  fst r = Ret tt /\
  (exists cs, chart (snd r) = chart initial ++ AxClear :: cs /\ In PltDraw cs) /\
  (exists records, logged (snd r) = records ++ [(INFO, ChartUpdated text_homer_1)]) /\
  Forall has_int (map fst (season_counts (snd r))) /\
  nonneg (season_counts (snd r)) /\
  (forall season, season_total (season_counts (snd r)) season < 2 ^ 53).
Proof.
  apply (well_formed_message_is_charted obliging sample_loads text_homer_1
           [("author", PStr "Homer"); ("season", PStr "1")] initial).
  - exact obliging_returns.
  - reflexivity.
  - exists 1. reflexivity.
  - reflexivity.
  - constructor.
  - constructor.
  - intros season. cbn. lia.
Defined.
